(** * Sales commissions based on markup: the factor table, the line
    calculator and the order aggregator of [sales_commission_custom]

    A shallow embedding of
    [sales_commission_custom/models/commission_factor.py] and
    [sales_commission_custom/models/sale_order_line.py].

    Python floats are IEEE 754 binary64 numbers: they are embedded as Rocq's
    primitive [float], whose operations are the same binary64 operations.
    Python integers are [Z].  Exceptions and [_logger] calls are kept: a
    computation returns the log records it emitted and either a value or the
    exception it raised.

    The ORM is the host's.  Of it the embedding keeps what the two models
    rely on: tables indexed by database id, [search] with a domain and an
    order, the singleton rule of field reads, the conversion of an assigned
    [int] to the [float] a Float field holds, and the rule that decides
    which [@api.constrains] methods run after a [create] or a [write].  The
    rounding of stored values to the [digits] of a field is left out: every
    method below is described by the values it assigns.

    A second part embeds the functions of [cloud_subscriptions_simplified]
    that compute on integers, strings and trees: the flavor table with
    [suggest_flavor], the wizard's [action_apply] as the list of the
    [create] calls it issues, [_compute_default_flavor],
    [_compute_vm_size_label], and the pruning of the menu tree in
    [load_menus].  Python's [str] of an [int] is stdpp's [pretty]. *)

From Stdlib Require Import ZArith List Floats Lia Bool String.
From stdpp Require Import base option list sorting gmap pretty.

Set Warnings "-inexact-float".
Local Open Scope Z_scope.

(** ** Python: exceptions, logging, numbers *)

Module Py.

(** The messages of the [ValidationError]s the two models raise. *)
Inductive validation_msg : Type :=
| MarkupNegative            (* "Markup percentage cannot be negative" *)
| MarkupExceeds1000         (* "Markup percentage cannot exceed 1000%" *)
| FactorNegative            (* "Commission factor cannot be negative" *)
| FactorExceeds1            (* "Commission factor cannot exceed 1.0" *)
| MarkupExists (pct : Z)    (* "Markup percentage %s%% already exists" *)
| VendorLocked.             (* "Product vendor can only be modified in ..." *)

Inductive exn : Type :=
| ZeroDivisionError
| OverflowError             (* round(inf), float(n) for n too large *)
| ValueError                (* round(nan); field read of a non-singleton *)
| MissingError              (* access to a record that does not exist *)
| ValidationError (msg : validation_msg).

Inductive outcome (A : Type) : Type :=
| Ok (a : A)
| Raise (e : exn).
Arguments Ok {A} a.
Arguments Raise {A} e.

Inductive log_level : Type := WARNING | INFO.

(** The f-strings handed to [_logger], with their interpolated values. *)
Inductive log_msg : Type :=
| NoFactorsConfigured
| BelowMinimum (rounded min_pct : Z) (min_factor : float)
| AboveMaximum (rounded max_pct : Z) (max_factor : float)
| NoFactorInRange (rounded : Z)
| DivisionByZeroLine (line_id : positive)
| DivisionByZeroOrder (order_id : positive).

Definition log_record : Type := log_level * log_msg.

(** A computation: the records logged so far, and how it ended. *)
Definition M (A : Type) : Type := list log_record * outcome A.

Definition ret {A} (a : A) : M A := ([], Ok a).
Definition raise {A} (e : exn) : M A := ([], Raise e).
Definition log (lvl : log_level) (msg : log_msg) : M unit :=
  ([(lvl, msg)], Ok tt).
Definition bind {A B} (m : M A) (k : A -> M B) : M B :=
  match m with
  | (l, Ok a) => let (l', r) := k a in (l ++ l', r)
  | (l, Raise e) => (l, Raise e)
  end.

#[global] Instance M_ret : MRet M := @ret.
#[global] Instance M_bind : MBind M := fun A B k m => bind m k.

Definition logs {A} (m : M A) : list log_record := fst m.
Definition result {A} (m : M A) : outcome A := snd m.

(** [try: body  except ZeroDivisionError: handler]. *)
Definition try_except_ZeroDivisionError {A} (body handler : M A) : M A :=
  match body with
  | (l, Raise ZeroDivisionError) => let (l', r) := handler in (l ++ l', r)
  | other => other
  end.

(** [for x in xs: body x], for a body that only raises or logs. *)
Fixpoint for_each {A} (xs : list A) (body : A -> M unit) : M unit :=
  match xs with
  | [] => ret tt
  | x :: xs' => bind (body x) (fun _ => for_each xs' body)
  end.

(** [for record in self: body record], for a body that assigns fields of
    the record it visits: the records afterwards. *)
Fixpoint for_records {A} (self : list A) (body : A -> M A) : M (list A) :=
  match self with
  | [] => ret []
  | x :: xs =>
      bind (body x) (fun x' =>
      bind (for_records xs body) (fun xs' => ret (x' :: xs')))
  end.

(** A Python number: [get_commission_factor] is annotated with [float] but
    [round] accepts an [int] as well. *)
Inductive num : Type :=
| Int (n : Z)
| Float (f : float).

(** Truth value of a float: [bool(x)] is [x != 0.0], so [-0.0] is false and
    [nan] is true. *)
Definition truthy (x : float) : bool := negb (PrimFloat.is_zero x).

(** A float column that may be NULL: the ORM reads an unset Float field
    as [0.0]. *)
Definition read_float (x : option float) : float := default 0%float x.

Definition num_finite (x : num) : bool :=
  match x with
  | Int _ => true
  | Float f => PrimFloat.is_finite f
  end.

(** Nearest integer to [m * 2^e], ties to the even one
    (Python 3's [round] of a float with one argument). *)
Definition round_half_even (m : positive) (e : Z) : Z :=
  if 0 <=? e then Zpos m * 2 ^ e
  else
    let d := 2 ^ (- e) in
    let q := Zpos m / d in
    let r := Zpos m mod d in
    match 2 * r ?= d with
    | Lt => q
    | Gt => q + 1
    | Eq => if Z.even q then q else q + 1
    end.

Definition round_float (x : float) : M Z :=
  match Prim2SF x with
  | S754_nan => raise ValueError
  | S754_infinity _ => raise OverflowError
  | S754_zero _ => ret 0
  | S754_finite s m e =>
      let mag := round_half_even m e in
      ret (if s then - mag else mag)
  end.

(** [round(x)]: the identity on an [int]. *)
Definition round (x : num) : M Z :=
  match x with
  | Int n => ret n
  | Float f => round_float f
  end.

(** [float(n)] for an [int]: correctly rounded, [OverflowError] when [n]
    is beyond the largest float. *)
Definition float_of_int (n : Z) : M float :=
  match binary_normalize prec emax n 0 false with
  | S754_infinity _ => raise OverflowError
  | sf => ret (SF2Prim sf)
  end.

(** [x / y] on floats. *)
Definition truediv (x y : float) : M float :=
  if PrimFloat.is_zero y then raise ZeroDivisionError
  else ret (x / y)%float.

End Py.

Import Py.

(** ** The factor table: model [sales.commission.factor] *)

Module CommissionFactor.

(** The stored fields of a record ([display_name] is derived text). *)
Record record : Type := {
  markup_percentage : Z;
  commission_factor : float;
  active : bool
}.

(** The table of the model: database id to row. *)
Abbreviation table := (gmap positive record).

(** A recordset: rows with their ids, in order. *)
Abbreviation recordset := (list (positive * record)).

(** [ORDER BY markup_percentage ASC], the [_order] of the model.  Rows
    that share a percentage come in an order the database does not fix;
    here it is the order the sort leaves them in. *)
Definition by_markup (a b : positive * record) : Prop :=
  markup_percentage a.2 <= markup_percentage b.2.

#[global] Instance by_markup_dec a b : Decision (by_markup a b).
Proof. unfold by_markup. apply _. Defined.

(** [self.search(domain, order="markup_percentage ASC")]: the rows that
    satisfy the domain, ordered.  Every domain used here names [active],
    so the implicit active filter of the ORM never applies. *)
Definition search (t : table) (domain : positive -> record -> bool)
  : recordset :=
  merge_sort by_markup
    (filter (fun ir => domain ir.1 ir.2 = true) (map_to_list t)).

(** Reading a field on a recordset: the field of the single record,
    [ValueError] ("Expected singleton") on several. *)
Definition read_field {A} (f : record -> A) (empty : A) (rs : recordset)
  : M A :=
  match rs with
  | [] => ret empty
  | [ir] => ret (f ir.2)
  | _ :: _ :: _ => raise ValueError
  end.

Definition browse (t : table) (id : positive) : M record :=
  match t !! id with
  | Some r => ret r
  | None => raise MissingError
  end.

(** [@api.constrains("markup_percentage")] *)
Definition _check_markup_percentage (t : table) (self : list positive)
  : M unit :=
  for_each self (fun id =>
    record ← browse t id;
    if markup_percentage record <? 0
    then raise (ValidationError MarkupNegative)
    else if 1000 <? markup_percentage record
    then raise (ValidationError MarkupExceeds1000)
    else ret tt).

(** [@api.constrains("commission_factor")] *)
Definition _check_commission_factor (t : table) (self : list positive)
  : M unit :=
  for_each self (fun id =>
    record ← browse t id;
    if (commission_factor record <? 0)%float
    then raise (ValidationError FactorNegative)
    else if (1 <? commission_factor record)%float
    then raise (ValidationError FactorExceeds1)
    else ret tt).

(** [@api.constrains("markup_percentage")] *)
Definition _check_unique_markup_percentage (t : table)
  (self : list positive) : M unit :=
  for_each self (fun id =>
    record ← browse t id;
    let existing :=
      search t (fun i r =>
        (markup_percentage r =? markup_percentage record)
        && negb (Pos.eqb i id)
        && Bool.eqb (active r) true) in
    match existing with
    | _ :: _ =>
        raise (ValidationError (MarkupExists (markup_percentage record)))
    | [] => ret tt
    end).

(** [get_commission_factor(markup_percentage)] *)
Definition get_commission_factor (t : table) (markup_percentage_arg : num)
  : M float :=
  rounded_markup ← round markup_percentage_arg;
  let all_factors := search t (fun _ r => Bool.eqb (active r) true) in
  match all_factors with
  | [] =>
      log WARNING NoFactorsConfigured;;
      ret 0%float
  | first :: _ =>
      let exact_match :=
        filter (fun f => markup_percentage f.2 = rounded_markup)
               all_factors in
      match exact_match with
      | _ :: _ => read_field commission_factor 0%float exact_match
      | [] =>
          let min_factor_record := first in
          let max_factor_record := default first (last all_factors) in
          if rounded_markup <? markup_percentage min_factor_record.2
          then
            log INFO (BelowMinimum rounded_markup
                        (markup_percentage min_factor_record.2)
                        (commission_factor min_factor_record.2));;
            ret (commission_factor min_factor_record.2)
          else if markup_percentage max_factor_record.2 <? rounded_markup
          then
            log INFO (AboveMaximum rounded_markup
                        (markup_percentage max_factor_record.2)
                        (commission_factor max_factor_record.2));;
            ret (commission_factor max_factor_record.2)
          else
            log WARNING (NoFactorInRange rounded_markup);;
            ret 0%float
      end
  end.

(** *** The write path of the ORM

    The model inherits [create] and [write] from the ORM.  What matters
    here is when the ORM runs the methods decorated with
    [@api.constrains]: after the values are stored, on the records
    written, and only the methods one of whose declared fields is among
    the fields of the call.  A [ValidationError] aborts the transaction,
    which leaves the table as it was. *)

(** The [vals] dictionary of a [write]: [None] for an absent key. *)
Record vals : Type := {
  v_markup_percentage : option Z;
  v_commission_factor : option float;
  v_active : option bool
}.

Definition keys (v : vals) : list string :=
  (if bool_decide (is_Some (v_markup_percentage v))
   then ["markup_percentage"%string] else [])
  ++ (if bool_decide (is_Some (v_commission_factor v))
      then ["commission_factor"%string] else [])
  ++ (if bool_decide (is_Some (v_active v))
      then ["active"%string] else []).

Definition apply_vals (v : vals) (r : record) : record :=
  {| markup_percentage := default (markup_percentage r) (v_markup_percentage v);
     commission_factor := default (commission_factor r) (v_commission_factor v);
     active := default (active r) (v_active v) |}.

(** The constraint methods with the fields their decorators declare. *)
Definition constraint_methods
  : list (list string * (table -> list positive -> M unit)) :=
  [ (["markup_percentage"%string], _check_markup_percentage);
    (["commission_factor"%string], _check_commission_factor);
    (["markup_percentage"%string], _check_unique_markup_percentage) ].

Definition triggered (declared field_names : list string) : bool :=
  existsb (fun d => existsb (String.eqb d) field_names) declared.

Definition _validate_fields (t : table) (self : list positive)
  (field_names : list string) : M unit :=
  for_each constraint_methods (fun c =>
    if triggered c.1 field_names then c.2 t self else ret tt).

Definition store (t : table) (self : list positive) (v : vals) : table :=
  foldr (fun id acc => alter (apply_vals v) id acc) t self.

(** [self.write(vals)]: the table afterwards and the outcome. *)
Definition write (t : table) (self : list positive) (v : vals)
  : table * M bool :=
  let t' := store t self v in
  match _validate_fields t' self (keys v) with
  | (l, Ok _) => (t', (l, Ok true))
  | (l, Raise e) => (t, (l, Raise e))
  end.

(** [self.create(vals)] for one record: the two required fields, and
    [active] with its default [True].  Every field is set by the call, so
    every constraint method runs. *)
Definition create (t : table) (pct : Z) (factor : float)
  (act : option bool) : table * M positive :=
  let id := fresh (dom t) in
  let t' := <[id := {| markup_percentage := pct;
                       commission_factor := factor;
                       active := default true act |}]> t in
  match _validate_fields t' [id]
          ["markup_percentage"; "commission_factor"; "active"]%string with
  | (l, Ok _) => (t', (l, Ok id))
  | (l, Raise e) => (t, (l, Raise e))
  end.

(** The active rows of the table, as a recordset in no particular order. *)
Definition active_records (t : table) : recordset :=
  filter (fun ir => active ir.2 = true) (map_to_list t).

(** Data-model invariant: no two active rows share a percentage. *)
Definition unique_active (t : table) : Prop :=
  forall i j ri rj,
    t !! i = Some ri -> t !! j = Some rj ->
    active ri = true -> active rj = true ->
    markup_percentage ri = markup_percentage rj -> i = j.

End CommissionFactor.

(** ** Order lines: model [sale.order.line] *)

Module SaleOrderLine.

Inductive payment_status : Type := pending | paid.

(** The fields of a line this module reads or writes.  [price_unit],
    [purchase_price], [product_uom_qty], [price_subtotal] and [order_id]
    belong to the host models ([sale], [sale_margin]); the others are
    declared here. *)
Record record : Type := {
  id : positive;
  order_id : option positive;
  price_unit : float;
  purchase_price : option float;
  product_uom_qty : float;
  price_subtotal : float;
  product_vendor_id : option positive;
  markup_percentage : float;
  markup_amount : float;
  commission_factor : float;
  commission_amount : float;
  commission_payment_status : payment_status
}.

Definition set_markup_percentage (v : float) (l : record) : record :=
  {| id := id l; order_id := order_id l; price_unit := price_unit l;
     purchase_price := purchase_price l;
     product_uom_qty := product_uom_qty l;
     price_subtotal := price_subtotal l;
     product_vendor_id := product_vendor_id l;
     markup_percentage := v;
     markup_amount := markup_amount l;
     commission_factor := commission_factor l;
     commission_amount := commission_amount l;
     commission_payment_status := commission_payment_status l |}.

Definition set_markup_amount (v : float) (l : record) : record :=
  {| id := id l; order_id := order_id l; price_unit := price_unit l;
     purchase_price := purchase_price l;
     product_uom_qty := product_uom_qty l;
     price_subtotal := price_subtotal l;
     product_vendor_id := product_vendor_id l;
     markup_percentage := markup_percentage l;
     markup_amount := v;
     commission_factor := commission_factor l;
     commission_amount := commission_amount l;
     commission_payment_status := commission_payment_status l |}.

Definition set_commission_factor (v : float) (l : record) : record :=
  {| id := id l; order_id := order_id l; price_unit := price_unit l;
     purchase_price := purchase_price l;
     product_uom_qty := product_uom_qty l;
     price_subtotal := price_subtotal l;
     product_vendor_id := product_vendor_id l;
     markup_percentage := markup_percentage l;
     markup_amount := markup_amount l;
     commission_factor := v;
     commission_amount := commission_amount l;
     commission_payment_status := commission_payment_status l |}.

Definition set_commission_amount (v : float) (l : record) : record :=
  {| id := id l; order_id := order_id l; price_unit := price_unit l;
     purchase_price := purchase_price l;
     product_uom_qty := product_uom_qty l;
     price_subtotal := price_subtotal l;
     product_vendor_id := product_vendor_id l;
     markup_percentage := markup_percentage l;
     markup_amount := markup_amount l;
     commission_factor := commission_factor l;
     commission_amount := v;
     commission_payment_status := commission_payment_status l |}.

(** [@api.depends("purchase_price", "price_unit")] *)
Definition _compute_markup_percentage (self : list record)
  : M (list record) :=
  for_records self (fun line =>
    if truthy (price_unit line)
       && truthy (read_float (purchase_price line))
    then
      try_except_ZeroDivisionError
        (q ← truediv (read_float (purchase_price line)) (price_unit line);
         let markup := ((q - 1) * -100)%float in
         rounded ← round (Float markup);
         v ← float_of_int rounded;
         ret (set_markup_percentage v line))
        (let line' := set_markup_percentage 0%float line in
         log WARNING (DivisionByZeroLine (id line));;
         ret line')
    else ret (set_markup_percentage 0%float line)).

(** [@api.depends("purchase_price", "price_unit")] *)
Definition _compute_markup_amount (self : list record) : M (list record) :=
  for_records self (fun line =>
    if truthy (price_unit line)
       && truthy (read_float (purchase_price line))
    then
      ret (set_markup_amount
             (price_unit line - read_float (purchase_price line))%float
             line)
    else ret (set_markup_amount 0%float line)).

(** [@api.depends("markup_percentage")]; the argument [factors] is the
    table of [self.env["sales.commission.factor"]]. *)
Definition _compute_commission_factor (factors : CommissionFactor.table)
  (self : list record) : M (list record) :=
  for_records self (fun line =>
    if truthy (markup_percentage line)
    then
      f ← CommissionFactor.get_commission_factor factors
            (Float (markup_percentage line));
      ret (set_commission_factor f line)
    else ret (set_commission_factor 0%float line)).

(** [@api.depends("price_subtotal", "commission_factor")] *)
Definition _compute_commission_amount (self : list record)
  : M (list record) :=
  for_records self (fun line =>
    if truthy (price_subtotal line) && truthy (commission_factor line)
    then
      ret (set_commission_amount
             (price_subtotal line * commission_factor line)%float line)
    else ret (set_commission_amount 0%float line)).

(** The recomputation the declared dependencies induce when the inputs of
    a line change: the two markup fields, then the factor (which depends
    on [markup_percentage]), then the amount (which depends on the
    factor). *)
Definition compute_line (factors : CommissionFactor.table)
  (self : list record) : M (list record) :=
  s1 ← _compute_markup_percentage self;
  s2 ← _compute_markup_amount s1;
  s3 ← _compute_commission_factor factors s2;
  _compute_commission_amount s3.

(** *** The guard on [product_vendor_id] *)

(** The rows of [sale.order.line], and of [sale.order] the one field read
    through [line.order_id]: the [state] selection, as its key. *)
Record database : Type := {
  line_table : gmap positive record;
  order_state : gmap positive string
}.

(** [line.order_id.state]: [None] stands for the [False] read through an
    empty [order_id]. *)
Definition order_id_state (db : database) (line : record) : option string :=
  o ← order_id line; order_state db !! o.

(** [_compute_can_edit_product_vendor], a non-stored computed field: it
    is evaluated from the order's state when it is read. *)
Definition can_edit_product_vendor (db : database) (line : record) : bool :=
  match order_id_state db line with
  | Some st => bool_decide (st ∈ ["draft"; "sent"]%string)
  | None => false
  end.

Definition browse (db : database) (i : positive) : M record :=
  match line_table db !! i with
  | Some r => ret r
  | None => raise MissingError
  end.

Section Write.

(** The values a [vals] dictionary holds, and [super().write], the
    [write] of the host model, which this override wraps. *)
Context {value : Type}.
Variable super_write :
  database -> list positive -> gmap string value -> database * M bool.

(** [write(vals)]: the database afterwards and the outcome. *)
Definition write (db : database) (self : list positive)
  (vals : gmap string value) : database * M bool :=
  let guard :=
    if bool_decide (is_Some (vals !! "product_vendor_id"%string))
    then
      for_each self (fun i =>
        line ← browse db i;
        if negb (can_edit_product_vendor db line)
        then raise (ValidationError VendorLocked)
        else ret tt)
    else ret tt in
  match guard with
  | (l, Raise e) => (db, (l, Raise e))
  | (l, Ok _) =>
      let (db', r) := super_write db self vals in
      (db', (l ++ logs r, result r))
  end.

End Write.

End SaleOrderLine.

(** ** Orders: model [sale.order] *)

Module SaleOrder.

(** [amount_untaxed] and [order_line] belong to the host model; the five
    totals are declared here.  [order_line] is the resolved recordset of
    the order's lines. *)
Record record : Type := {
  id : positive;
  amount_untaxed : float;
  order_line : list SaleOrderLine.record;
  total_cost_amount : float;
  total_markup_amount : float;
  total_markup_percentage : float;
  total_commission_amount : float;
  total_commission_factor : float
}.

Definition set_total_cost_amount (v : float) (o : record) : record :=
  {| id := id o; amount_untaxed := amount_untaxed o;
     order_line := order_line o;
     total_cost_amount := v;
     total_markup_amount := total_markup_amount o;
     total_markup_percentage := total_markup_percentage o;
     total_commission_amount := total_commission_amount o;
     total_commission_factor := total_commission_factor o |}.

Definition set_total_markup_amount (v : float) (o : record) : record :=
  {| id := id o; amount_untaxed := amount_untaxed o;
     order_line := order_line o;
     total_cost_amount := total_cost_amount o;
     total_markup_amount := v;
     total_markup_percentage := total_markup_percentage o;
     total_commission_amount := total_commission_amount o;
     total_commission_factor := total_commission_factor o |}.

Definition set_total_markup_percentage (v : float) (o : record) : record :=
  {| id := id o; amount_untaxed := amount_untaxed o;
     order_line := order_line o;
     total_cost_amount := total_cost_amount o;
     total_markup_amount := total_markup_amount o;
     total_markup_percentage := v;
     total_commission_amount := total_commission_amount o;
     total_commission_factor := total_commission_factor o |}.

Definition set_total_commission_amount (v : float) (o : record) : record :=
  {| id := id o; amount_untaxed := amount_untaxed o;
     order_line := order_line o;
     total_cost_amount := total_cost_amount o;
     total_markup_amount := total_markup_amount o;
     total_markup_percentage := total_markup_percentage o;
     total_commission_amount := v;
     total_commission_factor := total_commission_factor o |}.

Definition set_total_commission_factor (v : float) (o : record) : record :=
  {| id := id o; amount_untaxed := amount_untaxed o;
     order_line := order_line o;
     total_cost_amount := total_cost_amount o;
     total_markup_amount := total_markup_amount o;
     total_markup_percentage := total_markup_percentage o;
     total_commission_amount := total_commission_amount o;
     total_commission_factor := v |}.

(** [@api.depends("order_line.purchase_price", "order_line.product_uom_qty")] *)
Definition _compute_total_cost_amount (self : list record)
  : M (list record) :=
  for_records self (fun order =>
    let total_cost :=
      fold_left
        (fun total_cost line =>
           if truthy (read_float (SaleOrderLine.purchase_price line))
              && truthy (SaleOrderLine.product_uom_qty line)
           then (total_cost
                 + read_float (SaleOrderLine.purchase_price line)
                   * SaleOrderLine.product_uom_qty line)%float
           else total_cost)
        (order_line order) 0%float in
    ret (set_total_cost_amount total_cost order)).

(** [@api.depends("amount_untaxed", "total_cost_amount")] *)
Definition _compute_total_markup_amount (self : list record)
  : M (list record) :=
  for_records self (fun order =>
    ret (set_total_markup_amount
           (amount_untaxed order - total_cost_amount order)%float order)).

(** [@api.depends("total_cost_amount", "amount_untaxed")] *)
Definition _compute_total_markup_percentage (self : list record)
  : M (list record) :=
  for_records self (fun order =>
    if truthy (amount_untaxed order) && truthy (total_cost_amount order)
    then
      try_except_ZeroDivisionError
        (q ← truediv (total_cost_amount order) (amount_untaxed order);
         let markup_pct := ((q - 1) * -100)%float in
         rounded ← round (Float markup_pct);
         v ← float_of_int rounded;
         ret (set_total_markup_percentage v order))
        (let order' := set_total_markup_percentage 0%float order in
         log WARNING (DivisionByZeroOrder (id order));;
         ret order')
    else ret (set_total_markup_percentage 0%float order)).

(** [@api.depends("order_line.commission_factor", "order_line.price_subtotal")] *)
Definition _compute_total_commission_factor (self : list record)
  : M (list record) :=
  for_records self (fun order =>
    if truthy (amount_untaxed order)
       && negb (bool_decide (order_line order = []))
    then
      let '(total_weighted_factor, total_subtotal) :=
        fold_left
          (fun '(total_weighted_factor, total_subtotal) line =>
             if truthy (SaleOrderLine.price_subtotal line)
                && truthy (SaleOrderLine.commission_factor line)
             then
               ((total_weighted_factor
                 + SaleOrderLine.price_subtotal line
                   * SaleOrderLine.commission_factor line)%float,
                (total_subtotal + SaleOrderLine.price_subtotal line)%float)
             else (total_weighted_factor, total_subtotal))
          (order_line order) (0%float, 0%float) in
      if (0 <? total_subtotal)%float
      then
        q ← truediv total_weighted_factor total_subtotal;
        ret (set_total_commission_factor q order)
      else ret (set_total_commission_factor 0%float order)
    else ret (set_total_commission_factor 0%float order)).

(** [@api.depends("amount_untaxed", "total_commission_factor")] *)
Definition _compute_total_commission_amount (self : list record)
  : M (list record) :=
  for_records self (fun order =>
    if truthy (amount_untaxed order)
       && truthy (total_commission_factor order)
    then
      ret (set_total_commission_amount
             (amount_untaxed order * total_commission_factor order)%float
             order)
    else ret (set_total_commission_amount 0%float order)).

(** The recomputation the declared dependencies induce on an order: the
    cost before the two markup totals, the factor before the amount. *)
Definition compute_order_totals (self : list record) : M (list record) :=
  s1 ← _compute_total_cost_amount self;
  s2 ← _compute_total_markup_amount s1;
  s3 ← _compute_total_markup_percentage s2;
  s4 ← _compute_total_commission_factor s3;
  _compute_total_commission_amount s4.

End SaleOrder.

(** ** Specification-level definitions *)

Module Spec.

(** Sum of floats, left to right from [0.0], as a Python accumulation
    loop adds them. *)
Definition fsum (xs : list float) : float :=
  fold_left (fun acc x => (acc + x)%float) xs 0%float.

(** The markup formula of the glossary, before rounding. *)
Definition markup (cost price : float) : float :=
  ((cost / price - 1) * -100)%float.

(** Rounding to the nearest integer with ties away from zero, the rule the
    specification names. *)
Definition round_half_away (m : positive) (e : Z) : Z :=
  if 0 <=? e then Zpos m * 2 ^ e
  else
    let d := 2 ^ (- e) in
    let q := Zpos m / d in
    let r := Zpos m mod d in
    if 2 * r <? d then q else q + 1.

Definition round_half_away_from_zero (x : num) : M Z :=
  match x with
  | Int n => ret n
  | Float f =>
      match Prim2SF f with
      | S754_nan => raise ValueError
      | S754_infinity _ => raise OverflowError
      | S754_zero _ => ret 0
      | S754_finite s m e =>
          let mag := round_half_away m e in
          ret (if s then - mag else mag)
      end
  end.

(** [r] is a nearest integer to the float [sf], and the even one of the
    two when [sf] lies halfway. *)
Definition nearest_ties_even (sf : spec_float) (r : Z) : Prop :=
  match sf with
  | S754_zero _ => r = 0
  | S754_finite s m e =>
      let v := if s then Zneg m else Zpos m in
      if 0 <=? e then r = v * 2 ^ e
      else
        Z.abs (2 * (r * 2 ^ (- e) - v)) <= 2 ^ (- e)
        /\ (Z.abs (2 * (r * 2 ^ (- e) - v)) = 2 ^ (- e) -> Z.even r = true)
  | _ => False
  end.

(** An active entry of the table. *)
Definition active_entry (t : CommissionFactor.table) (i : positive)
  (e : CommissionFactor.record) : Prop :=
  t !! i = Some e /\ CommissionFactor.active e = true.

(** The active entry with the smallest, with the largest percentage. *)
Definition min_entry (t : CommissionFactor.table) (i : positive)
  (e : CommissionFactor.record) : Prop :=
  active_entry t i e
  /\ forall j e', active_entry t j e' ->
       CommissionFactor.markup_percentage e
       <= CommissionFactor.markup_percentage e'.

Definition max_entry (t : CommissionFactor.table) (i : positive)
  (e : CommissionFactor.record) : Prop :=
  active_entry t i e
  /\ forall j e', active_entry t j e' ->
       CommissionFactor.markup_percentage e'
       <= CommissionFactor.markup_percentage e.

(** The lines that count in the weighted average: subtotal and factor
    both non-zero. *)
Definition qualifying (line : SaleOrderLine.record) : bool :=
  truthy (SaleOrderLine.price_subtotal line)
  && truthy (SaleOrderLine.commission_factor line).

Definition weighted_numerator (lines : list SaleOrderLine.record) : float :=
  fsum (map (fun l => (SaleOrderLine.price_subtotal l
                       * SaleOrderLine.commission_factor l)%float)
            (List.filter qualifying lines)).

Definition weighted_denominator (lines : list SaleOrderLine.record)
  : float :=
  fsum (map SaleOrderLine.price_subtotal (List.filter qualifying lines)).

(** The weighted average as the specification words it: the quotient over
    the qualifying lines, [0.0] when there is none or the denominator is
    zero. *)
Definition weighted_average (lines : list SaleOrderLine.record) : float :=
  if bool_decide (List.filter qualifying lines = [])
     || PrimFloat.is_zero (weighted_denominator lines)
  then 0%float
  else (weighted_numerator lines / weighted_denominator lines)%float.

(** The lines that count in the total cost: cost and quantity both
    present and non-zero. *)
Definition costed (line : SaleOrderLine.record) : bool :=
  truthy (read_float (SaleOrderLine.purchase_price line))
  && truthy (SaleOrderLine.product_uom_qty line).

Definition total_cost (lines : list SaleOrderLine.record) : float :=
  fsum (map (fun l => (read_float (SaleOrderLine.purchase_price l)
                       * SaleOrderLine.product_uom_qty l)%float)
            (List.filter costed lines)).

End Spec.

(** ** Auxiliary definitions *)

(** A computation that does not end in [ZeroDivisionError]: the [try] of
    the markup methods leaves it as it is. *)
Definition never_zero_division {A} (m : M A) : Prop :=
  result m <> Raise ZeroDivisionError.

(** The search of [get_commission_factor]: the active rows, ascending. *)
Definition all_factors (t : CommissionFactor.table)
  : CommissionFactor.recordset :=
  CommissionFactor.search t
    (fun _ r => Bool.eqb (CommissionFactor.active r) true).

(** What [get_commission_factor] does once its argument has been rounded. *)
Definition lookup_rounded (t : CommissionFactor.table) (rounded_markup : Z)
  : M float :=
  CommissionFactor.get_commission_factor t (Int rounded_markup).

(** No markup data: the price is zero, or the cost is unset or zero. *)
Definition no_markup_data (line : SaleOrderLine.record) : Prop :=
  PrimFloat.is_zero (SaleOrderLine.price_unit line) = true
  \/ SaleOrderLine.purchase_price line = None
  \/ exists c, SaleOrderLine.purchase_price line = Some c
               /\ PrimFloat.is_zero c = true.

(** The loop of [write] over the lines of the set, on its own: it passes
    when every line is editable and raises at the first that is not. *)
Definition vendor_guard (db : SaleOrderLine.database) (self : list positive)
  : M unit :=
  for_each self (fun i =>
    line ← SaleOrderLine.browse db i;
    if negb (SaleOrderLine.can_edit_product_vendor db line)
    then raise (ValidationError VendorLocked)
    else ret tt).

(** A shift record with nothing shifted out yet. *)
Definition exact_record (m : positive) : shr_record :=
  {| shr_m := Zpos m; shr_r := false; shr_s := false |}.

(** ** Example data *)

(** A row of the factor table. *)
Definition factor_entry (pct : Z) (factor : float) (act : bool)
  : CommissionFactor.record :=
  {| CommissionFactor.markup_percentage := pct;
     CommissionFactor.commission_factor := factor;
     CommissionFactor.active := act |}.

(** The table the test suite sets up: 10, 15, 20 and 30 percent. *)
Definition table_10_15_20_30 : CommissionFactor.table :=
  <[4%positive := factor_entry 30 0.015 true]>
    (<[3%positive := factor_entry 20 0.010 true]>
       (<[2%positive := factor_entry 15 0.004 true]>
          {[1%positive := factor_entry 10 0.002 true]})).

(** The single active entry [{20: 0.010}]. *)
Definition table_20 : CommissionFactor.table :=
  {[1%positive := factor_entry 20 0.010 true]}.

(** A table whose only entry has been deactivated. *)
Definition table_deactivated : CommissionFactor.table :=
  {[1%positive := factor_entry 15 0.004 false]}.

(** A line with the given inputs and no derived value yet. *)
Definition order_line (i : positive) (price : float) (cost : option float)
  (qty subtotal : float) : SaleOrderLine.record :=
  {| SaleOrderLine.id := i;
     SaleOrderLine.order_id := None;
     SaleOrderLine.price_unit := price;
     SaleOrderLine.purchase_price := cost;
     SaleOrderLine.product_uom_qty := qty;
     SaleOrderLine.price_subtotal := subtotal;
     SaleOrderLine.product_vendor_id := None;
     SaleOrderLine.markup_percentage := 0%float;
     SaleOrderLine.markup_amount := 0%float;
     SaleOrderLine.commission_factor := 0%float;
     SaleOrderLine.commission_amount := 0%float;
     SaleOrderLine.commission_payment_status := SaleOrderLine.pending |}.

(** The derived fields of a line, set at once. *)
Definition with_derived (pct amount factor commission : float)
  (line : SaleOrderLine.record) : SaleOrderLine.record :=
  SaleOrderLine.set_commission_amount commission
    (SaleOrderLine.set_commission_factor factor
       (SaleOrderLine.set_markup_amount amount
          (SaleOrderLine.set_markup_percentage pct line))).

(** A table with an active entry for 0 percent. *)
Definition table_0 : CommissionFactor.table :=
  {[1%positive := factor_entry 0 0.5 true]}.

(** A line sold at a loss: price 100, cost 125. *)
Definition line_100_125 : SaleOrderLine.record :=
  order_line 1 100 (Some 125%float) 1 100.

(** An order with the given total and lines and no derived value yet. *)
Definition order_record (i : positive) (amount : float)
  (lines : list SaleOrderLine.record) : SaleOrder.record :=
  {| SaleOrder.id := i;
     SaleOrder.amount_untaxed := amount;
     SaleOrder.order_line := lines;
     SaleOrder.total_cost_amount := 0%float;
     SaleOrder.total_markup_amount := 0%float;
     SaleOrder.total_markup_percentage := 0%float;
     SaleOrder.total_commission_amount := 0%float;
     SaleOrder.total_commission_factor := 0%float |}.

(** Subtotals 200 and 100 with factors 0.010 and 0.004: price 100 with
    costs 80 and 85, as the table of the tests rates them. *)
Definition order_300 : SaleOrder.record :=
  order_record 1 300
    [ with_derived 20 20 0.010 2 (order_line 1 100 (Some 80%float) 2 200);
      with_derived 15 15 0.004 0.4 (order_line 2 100 (Some 85%float) 1 100) ].

(** Subtotals and costs 200/160, 150/120 and 150/135. *)
Definition order_500 : SaleOrder.record :=
  order_record 1 500
    [ order_line 1 100 (Some 80%float) 2 200;
      order_line 2 150 (Some 120%float) 1 150;
      order_line 3 50 (Some 45%float) 3 150 ].

(** A return: one line of quantity -1 at price 100 and cost 80, so a
    subtotal of -100 rated 0.010 by the 20 percent entry. *)
Definition order_return : SaleOrder.record :=
  order_record 1 (-100)
    [ with_derived 20 20 0.010 (-1)
        (order_line 1 100 (Some 80%float) (-1) (-100)) ].

(** Assignment of [product_vendor_id]. *)
Definition set_product_vendor_id (v : option positive)
  (l : SaleOrderLine.record) : SaleOrderLine.record :=
  {| SaleOrderLine.id := SaleOrderLine.id l;
     SaleOrderLine.order_id := SaleOrderLine.order_id l;
     SaleOrderLine.price_unit := SaleOrderLine.price_unit l;
     SaleOrderLine.purchase_price := SaleOrderLine.purchase_price l;
     SaleOrderLine.product_uom_qty := SaleOrderLine.product_uom_qty l;
     SaleOrderLine.price_subtotal := SaleOrderLine.price_subtotal l;
     SaleOrderLine.product_vendor_id := v;
     SaleOrderLine.markup_percentage := SaleOrderLine.markup_percentage l;
     SaleOrderLine.markup_amount := SaleOrderLine.markup_amount l;
     SaleOrderLine.commission_factor := SaleOrderLine.commission_factor l;
     SaleOrderLine.commission_amount := SaleOrderLine.commission_amount l;
     SaleOrderLine.commission_payment_status :=
       SaleOrderLine.commission_payment_status l |}.

(** A host [write] that stores the vendor of a [vals] dictionary whose
    values are partner ids ([None] for [False]). *)
Definition host_write (db : SaleOrderLine.database) (self : list positive)
  (vals : gmap string (option positive))
  : SaleOrderLine.database * M bool :=
  (match vals !! "product_vendor_id"%string with
   | Some v =>
       {| SaleOrderLine.line_table :=
            foldr (fun i t => alter (set_product_vendor_id v) i t)
                  (SaleOrderLine.line_table db) self;
          SaleOrderLine.order_state := SaleOrderLine.order_state db |}
   | None => db
   end, ret true).

(** Line [i] of order [o], with vendor 5. *)
Definition line_of_order (i o : positive) : SaleOrderLine.record :=
  {| SaleOrderLine.id := i;
     SaleOrderLine.order_id := Some o;
     SaleOrderLine.price_unit := 100%float;
     SaleOrderLine.purchase_price := Some 80%float;
     SaleOrderLine.product_uom_qty := 1%float;
     SaleOrderLine.price_subtotal := 100%float;
     SaleOrderLine.product_vendor_id := Some 5%positive;
     SaleOrderLine.markup_percentage := 20%float;
     SaleOrderLine.markup_amount := 20%float;
     SaleOrderLine.commission_factor := 0.010%float;
     SaleOrderLine.commission_amount := 1%float;
     SaleOrderLine.commission_payment_status := SaleOrderLine.pending |}.

(** Line 1 belongs to the draft order 7, line 2 to the confirmed order 8. *)
Definition example_database : SaleOrderLine.database :=
  {| SaleOrderLine.line_table :=
       <[2%positive := line_of_order 2 8]>
         {[1%positive := line_of_order 1 7]};
     SaleOrderLine.order_state :=
       <[8%positive := "sale"%string]> {[7%positive := "draft"%string]} |}.

(** [{"product_vendor_id": 6}] *)
Definition vendor_vals : gmap string (option positive) :=
  {["product_vendor_id"%string := Some 6%positive]}.

(** A [vals] dictionary that carries only [active]. *)
Definition only_active (b : bool) : CommissionFactor.vals :=
  {| CommissionFactor.v_markup_percentage := None;
     CommissionFactor.v_commission_factor := None;
     CommissionFactor.v_active := Some b |}.

(** Entry 1 (15 percent) deactivated, entry 2 (15 percent) created. *)
Definition table_15_reused : CommissionFactor.table :=
  <[2%positive := factor_entry 15 0.006 true]>
    {[1%positive := factor_entry 15 0.004 false]}.

(** The same table once entry 1 has been reactivated. *)
Definition table_15_twice : CommissionFactor.table :=
  <[2%positive := factor_entry 15 0.006 true]>
    {[1%positive := factor_entry 15 0.004 true]}.

(** ** The write path as a transition system *)

(** Every stored percentage lies in the range [_check_markup_percentage]
    accepts. *)
Definition markup_in_range (t : CommissionFactor.table) : Prop :=
  forall i r, t !! i = Some r ->
    0 <= CommissionFactor.markup_percentage r <= 1000.

(** Every stored factor passes the two comparisons of
    [_check_commission_factor]: it is not below 0 and not above 1. *)
Definition factor_in_range (t : CommissionFactor.table) : Prop :=
  forall i r, t !! i = Some r ->
    (CommissionFactor.commission_factor r <? 0)%float = false
    /\ (1 <? CommissionFactor.commission_factor r)%float = false.

(** One successful [create] or [write]. *)
Inductive orm_step (t : CommissionFactor.table)
  : CommissionFactor.table -> Prop :=
| step_create pct factor act t' l id :
    CommissionFactor.create t pct factor act = (t', (l, Ok id)) ->
    orm_step t t'
| step_write self v t' l b :
    CommissionFactor.write t self v = (t', (l, Ok b)) ->
    orm_step t t'.

(** The tables the write path can produce from the empty table. *)
Inductive reachable : CommissionFactor.table -> Prop :=
| reachable_empty : reachable ∅
| reachable_step t t' : reachable t -> orm_step t t' -> reachable t'.

(** The row a [create] stores. *)
Definition created_row (pct : Z) (factor : float) (act : option bool)
  : CommissionFactor.record :=
  {| CommissionFactor.markup_percentage := pct;
     CommissionFactor.commission_factor := factor;
     CommissionFactor.active := default true act |}.

(** No active row holds the percentage [pct]. *)
Definition free_among_active (t : CommissionFactor.table) (pct : Z) : Prop :=
  forall j rj, t !! j = Some rj -> CommissionFactor.active rj = true ->
    CommissionFactor.markup_percentage rj <> pct.

(** Two distinct active rows hold the percentage [r]. *)
Definition duplicated_active (t : CommissionFactor.table) (r : Z) : Prop :=
  exists i j e e',
    i <> j /\ Spec.active_entry t i e /\ Spec.active_entry t j e'
    /\ CommissionFactor.markup_percentage e = r
    /\ CommissionFactor.markup_percentage e' = r.

(** ** Recomputation over whole recordsets *)

(** A loop body that computes a value from the record and assigns it to
    one field: [record.field = value(record)]. *)
Definition assigns {A V} (value : A -> M V) (set : V -> A -> A) (x : A)
  : M A :=
  v ← value x; ret (set v x).

(** The value each compute method of the line assigns, read off its
    body. *)
Definition markup_percentage_value (line : SaleOrderLine.record) : M float :=
  if truthy (SaleOrderLine.price_unit line)
     && truthy (read_float (SaleOrderLine.purchase_price line))
  then
    r ← round (Float (Spec.markup
                        (read_float (SaleOrderLine.purchase_price line))
                        (SaleOrderLine.price_unit line)));
    float_of_int r
  else ret 0%float.

Definition markup_amount_value (line : SaleOrderLine.record) : M float :=
  ret (if truthy (SaleOrderLine.price_unit line)
          && truthy (read_float (SaleOrderLine.purchase_price line))
       then (SaleOrderLine.price_unit line
             - read_float (SaleOrderLine.purchase_price line))%float
       else 0%float).

Definition commission_factor_value (factors : CommissionFactor.table)
  (line : SaleOrderLine.record) : M float :=
  if truthy (SaleOrderLine.markup_percentage line)
  then CommissionFactor.get_commission_factor factors
         (Float (SaleOrderLine.markup_percentage line))
  else ret 0%float.

Definition commission_amount_value (line : SaleOrderLine.record) : M float :=
  ret (if truthy (SaleOrderLine.price_subtotal line)
          && truthy (SaleOrderLine.commission_factor line)
       then (SaleOrderLine.price_subtotal line
             * SaleOrderLine.commission_factor line)%float
       else 0%float).

(** Two lines agree on every field the compute methods do not assign. *)
Definition same_inputs (a b : SaleOrderLine.record) : Prop :=
  SaleOrderLine.id a = SaleOrderLine.id b
  /\ SaleOrderLine.order_id a = SaleOrderLine.order_id b
  /\ SaleOrderLine.price_unit a = SaleOrderLine.price_unit b
  /\ SaleOrderLine.purchase_price a = SaleOrderLine.purchase_price b
  /\ SaleOrderLine.product_uom_qty a = SaleOrderLine.product_uom_qty b
  /\ SaleOrderLine.price_subtotal a = SaleOrderLine.price_subtotal b
  /\ SaleOrderLine.product_vendor_id a = SaleOrderLine.product_vendor_id b
  /\ SaleOrderLine.commission_payment_status a
     = SaleOrderLine.commission_payment_status b.

(** The value each compute method of the order assigns. *)
Definition total_cost_amount_value (order : SaleOrder.record) : M float :=
  ret (Spec.total_cost (SaleOrder.order_line order)).

Definition total_markup_amount_value (order : SaleOrder.record) : M float :=
  ret (SaleOrder.amount_untaxed order
       - SaleOrder.total_cost_amount order)%float.

Definition total_markup_percentage_value (order : SaleOrder.record)
  : M float :=
  if truthy (SaleOrder.amount_untaxed order)
     && truthy (SaleOrder.total_cost_amount order)
  then
    r ← round (Float (Spec.markup (SaleOrder.total_cost_amount order)
                        (SaleOrder.amount_untaxed order)));
    float_of_int r
  else ret 0%float.

Definition total_commission_factor_value (order : SaleOrder.record)
  : M float :=
  ret (if truthy (SaleOrder.amount_untaxed order)
          && (0 <? Spec.weighted_denominator
                     (SaleOrder.order_line order))%float
       then (Spec.weighted_numerator (SaleOrder.order_line order)
             / Spec.weighted_denominator (SaleOrder.order_line order))%float
       else 0%float).

Definition total_commission_amount_value (order : SaleOrder.record)
  : M float :=
  ret (if truthy (SaleOrder.amount_untaxed order)
          && truthy (SaleOrder.total_commission_factor order)
       then (SaleOrder.amount_untaxed order
             * SaleOrder.total_commission_factor order)%float
       else 0%float).

(** Two orders agree on the fields of the host model. *)
Definition same_order_inputs (a b : SaleOrder.record) : Prop :=
  SaleOrder.id a = SaleOrder.id b
  /\ SaleOrder.amount_untaxed a = SaleOrder.amount_untaxed b
  /\ SaleOrder.order_line a = SaleOrder.order_line b.

(** The only exceptions [round] and [float] can raise. *)
Definition rounding_error (e : exn) : Prop :=
  e = ValueError \/ e = OverflowError.

(** A computation that logs nothing and raises nothing but a rounding
    error. *)
Definition quiet {A} (m : M A) : Prop :=
  logs m = [] /\ forall e, result m = Raise e -> rounding_error e.

(** ** The payment status of a line *)

Definition set_commission_payment_status (v : SaleOrderLine.payment_status)
  (l : SaleOrderLine.record) : SaleOrderLine.record :=
  {| SaleOrderLine.id := SaleOrderLine.id l;
     SaleOrderLine.order_id := SaleOrderLine.order_id l;
     SaleOrderLine.price_unit := SaleOrderLine.price_unit l;
     SaleOrderLine.purchase_price := SaleOrderLine.purchase_price l;
     SaleOrderLine.product_uom_qty := SaleOrderLine.product_uom_qty l;
     SaleOrderLine.price_subtotal := SaleOrderLine.price_subtotal l;
     SaleOrderLine.product_vendor_id := SaleOrderLine.product_vendor_id l;
     SaleOrderLine.markup_percentage := SaleOrderLine.markup_percentage l;
     SaleOrderLine.markup_amount := SaleOrderLine.markup_amount l;
     SaleOrderLine.commission_factor := SaleOrderLine.commission_factor l;
     SaleOrderLine.commission_amount := SaleOrderLine.commission_amount l;
     SaleOrderLine.commission_payment_status := v |}.

(** [toggle_commission_payment_status] *)
Definition toggle_commission_payment_status
  (self : list SaleOrderLine.record) : M (list SaleOrderLine.record) :=
  for_records self (fun line =>
    ret (set_commission_payment_status
           (match SaleOrderLine.commission_payment_status line with
            | SaleOrderLine.pending => SaleOrderLine.paid
            | SaleOrderLine.paid => SaleOrderLine.pending
            end) line)).

(** The order of 500 with its totals computed. *)
Definition order_500_computed : SaleOrder.record :=
  SaleOrder.set_total_commission_amount 0
    (SaleOrder.set_total_commission_factor 0
       (SaleOrder.set_total_markup_percentage 17
          (SaleOrder.set_total_markup_amount 85
             (SaleOrder.set_total_cost_amount 415 order_500)))).

(** No row of the factor table is active. *)
Definition no_active_factor (factors : CommissionFactor.table) : Prop :=
  forall i e, factors !! i = Some e -> CommissionFactor.active e = false.

(** The two commission totals of an order, the factor before the amount
    that depends on it. *)
Definition compute_commission_totals (self : list SaleOrder.record)
  : M (list SaleOrder.record) :=
  s ← SaleOrder._compute_total_commission_factor self;
  SaleOrder._compute_total_commission_amount s.

(** * The VM configurator of [cloud_subscriptions_simplified] *)

(** ** [wizards/vm_configurator_wizard.py] *)

Module VmConfiguratorWizard.

Definition FLAVOR_TABLE : list (string * Z * Z) :=
  [ ("small1", 1, 2);
    ("small2", 1, 4);
    ("small3", 2, 4);
    ("medium1", 2, 6);
    ("medium2", 2, 8);
    ("medium3", 4, 8);
    ("medium4", 4, 12);
    ("large1", 4, 16);
    ("large2", 6, 12);
    ("large3", 6, 16);
    ("large4", 8, 16);
    ("large5", 8, 24) ]%string.

(** The [for] loop over the table returns at the first entry that
    matches. *)
Definition suggest_flavor (vcpus ram_gb : Z) : string :=
  if (vcpus =? 0) || (ram_gb =? 0) then ""
  else
    match List.find (fun '(name, tv, tr) => (vcpus =? tv) && (ram_gb =? tr))
                    FLAVOR_TABLE with
    | Some (name, _, _) => "ncs.g-" +:+ name
    | None =>
        if (vcpus <=? 2) && (ram_gb <=? 4) then "ncs.g-small.cus"
        else if (vcpus <=? 6) && (ram_gb <=? 8) then "ncs.g-medium.cus"
        else if (vcpus <=? 8) && (ram_gb <=? 24) then "ncs.g-large.cus"
        else "ncs.g-xlarge"
    end.

(** The fields of the wizard [action_apply] reads. *)
Record record : Type := {
  order_id : positive;
  vcpus : Z;
  ram_gb : Z;
  disk_gb : Z;
  backup_extra_points : Z
}.

(** What the wizard reads of a line of the order: [display_type] is
    [None] for the [False] of a product line. *)
Record order_line : Type := {
  display_type : option string;
  name : string;
  sequence : Z
}.

(** The [vals] of one call of [sale.order.line.create]: [None] for an
    absent key. *)
Record create_vals : Type := {
  v_order_id : positive;
  v_display_type : option string;
  v_name : option string;
  v_product_id : option positive;
  v_product_uom_qty : option Z;
  v_sequence : Z
}.



(** The lines [_unique_section_title] counts. *)
Definition is_section_of (section_prefix : string) (l : order_line) : bool :=
  bool_decide (display_type l = Some "line_section"%string)
  && String.prefix section_prefix (name l).

(** [_unique_section_title] *)
Definition _unique_section_title (lines : list order_line)
  (base_title : string) : string :=
  let section_prefix := "[VM] " +:+ base_title in
  let existing := List.filter (is_section_of section_prefix) lines in
  match existing with
  | [] => base_title
  | _ :: _ =>
      let count := Z.of_nat (length existing) + 1 in
      base_title +:+ "-" +:+ pretty count
  end.

(** The [vals] [_add_section] passes to [create]. *)
Definition _add_section (order : positive) (title : string) (seq : Z)
  : create_vals :=
  {| v_order_id := order;
     v_display_type := Some "line_section"%string;
     v_name := Some ("[VM] " +:+ title);
     v_product_id := None;
     v_product_uom_qty := None;
     v_sequence := seq |}.


Section Products.

(** [self.env["product.product"].search([("name", "=", n)], limit=1)]:
    the first product of that name, if there is one. *)
Variable get : string -> option positive.



End Products.

(** The line of the order a [create] with these [vals] adds, as the
    wizard reads it back; [label] is the name the host model gives a
    product line. *)
Definition created_line (label : string) (v : create_vals) : order_line :=
  {| display_type := v_display_type v;
     name := default label (v_name v);
     sequence := v_sequence v |}.

End VmConfiguratorWizard.

(** ** [models/sale_order_vm.py] *)

Module SaleOrderVm.

(** [flavor] is a Char field: [None] for the [False] of an empty one. *)
Record record : Type := {
  flavor : option string;
  vcpus : Z;
  ram_gb : Z
}.

Definition set_flavor (v : option string) (o : record) : record :=
  {| flavor := v; vcpus := vcpus o; ram_gb := ram_gb o |}.

(** The truth value of a Char field. *)
Definition truthy_str (s : option string) : bool :=
  match s with
  | None => false
  | Some s => negb (bool_decide (s = ""%string))
  end.

Definition table : list (string * Z * Z) :=
  [ ("small1", 1, 2);
    ("small2", 1, 4);
    ("small3", 2, 4);
    ("medium1", 2, 6);
    ("medium2", 2, 8);
    ("medium3", 4, 8);
    ("medium4", 4, 12);
    ("large1", 4, 16);
    ("large2", 6, 12);
    ("large3", 6, 16);
    ("large4", 8, 16);
    ("large5", 8, 24) ]%string.

(** The name the body of the loop builds for [v] vCPUs and [r] GB. *)
Definition tier_of (v r : Z) : string :=
  let tier :=
    match List.find (fun '(name, tv, tr) => (v =? tv) && (r =? tr)) table with
    | Some (name, _, _) => name
    | None => ""%string
    end in
  if bool_decide (tier = ""%string)
  then
    if (v <=? 2) && (r <=? 4) then "small" +:+ pretty (Z.max v 1)
    else if (v <=? 6) && (r <=? 8) then "medium" +:+ pretty (Z.max (v / 2) 1)
    else "large" +:+ pretty (Z.max (v / 2) 1)
  else tier.

(** [_compute_default_flavor] *)
Definition _compute_default_flavor (self : list record) : M (list record) :=
  for_records self (fun order =>
    if (vcpus order =? 0) || (ram_gb order =? 0)
    then ret order
    else
      let tier := tier_of (vcpus order) (ram_gb order) in
      if negb (truthy_str (flavor order))
      then ret (set_flavor (Some ("ncs.g-" +:+ tier)) order)
      else ret order).

End SaleOrderVm.

(** ** [models/ir_ui_menu.py] *)

Module IrUiMenu.

(** A node of the menu tree: a dict with the keys [id] and [children],
    either of which may be absent, and other keys, which [prune] neither
    reads nor writes. *)
#[warnings="-register-all"]
Inductive node : Type :=
| Node (id : option Z) (children : option (list node)) (other : string).

(** [node.get('id') in module_menu_ids] *)
Definition hidden (module_menu_ids : gset Z) (id : option Z) : bool :=
  match id with
  | Some i => bool_decide (i ∈ module_menu_ids)
  | None => false
  end.

(** [prune]: [None] when the call returns [False], which leaves the node
    as it is; otherwise the node as the call has left it. *)
Fixpoint prune (module_menu_ids : gset Z) (n : node) : option node :=
  match n with
  | Node id kids other =>
      if hidden module_menu_ids id then None
      else
        let kept :=
          match kids with
          | Some ks => omap (prune module_menu_ids) ks
          | None => []
          end in
        Some (Node id (Some kept) other)
  end.

(** What [super().load_menus] returns: a dict, with or without the key
    [children], a list of nodes, or something else. *)
Inductive menus : Type :=
| MenusDict (id : option Z) (children : option (list node)) (other : string)
| MenusList (nodes : list node)
| MenusOther (other : string).

(** [load_menus]: [company_name] is [self.env.company.name], [target_name]
    the configured parameter, [base] the result of [super().load_menus]. *)
Definition load_menus (company_name target_name : string)
  (module_menu_ids : gset Z) (base : menus) : menus :=
  if bool_decide (company_name = target_name) then base
  else
    match base with
    | MenusDict id (Some kids) other =>
        MenusDict id (Some (omap (prune module_menu_ids) kids)) other
    | MenusList nodes => MenusList (omap (prune module_menu_ids) nodes)
    | other => other
    end.

(** The ids below a node, the node's own included. *)
Fixpoint ids_of (n : node) : list Z :=
  match n with
  | Node id kids _ =>
      option_list id
      ++ match kids with
         | Some ks => concat (ids_of <$> ks)
         | None => []
         end
  end.

(** The ids the client receives below the root. *)
Definition ids_below (m : menus) : list Z :=
  match m with
  | MenusDict _ kids _ => concat (ids_of <$> default [] kids)
  | MenusList nodes => concat (ids_of <$> nodes)
  | MenusOther _ => []
  end.

(** Every node below has its [children] key set to a list. *)
Fixpoint children_set (n : node) : bool :=
  match n with
  | Node _ kids _ =>
      match kids with
      | Some ks => forallb children_set ks
      | None => false
      end
  end.

End IrUiMenu.

(** ** [models/subscription.py] *)

Module Subscription.

Record record : Type := {
  vcpus : Z;
  ram_gb : Z;
  vm_size_label : string
}.

Definition set_vm_size_label (v : string) (s : record) : record :=
  {| vcpus := vcpus s; ram_gb := ram_gb s; vm_size_label := v |}.

(** [_compute_vm_size_label] *)
Definition _compute_vm_size_label (self : list record) : M (list record) :=
  for_records self (fun s =>
    let base :=
      if (vcpus s <=? 2) && (ram_gb s <=? 4) then "small"
      else if (vcpus s <=? 4) && (ram_gb s <=? 8) then "medium"
      else "large" in
    ret (set_vm_size_label (base +:+ "-" +:+ pretty (vcpus s)) s)).

End Subscription.

(** * Properties *)

(** ** The monad *)

Lemma bind_ret_l {A B} (a : A) (k : A -> M B) : bind (ret a) k = k a.
Proof. unfold bind, ret. destruct (k a) as [l r]. reflexivity. Qed.

Lemma bind_ret_r {A} (m : M A) : bind m ret = m.
Proof.
  destruct m as [l [a | e]]; simpl; [| reflexivity].
  rewrite app_nil_r. reflexivity.
Qed.

Lemma bind_ext {A B} (m : M A) (k k' : A -> M B) :
  (forall a, k a = k' a) -> bind m k = bind m k'.
Proof.
  intros H. destruct m as [l [a | e]]; simpl; [rewrite H |]; reflexivity.
Qed.

Lemma bind_assoc {A B C} (m : M A) (k : A -> M B) (h : B -> M C) :
  bind (bind m k) h = bind m (fun a => bind (k a) h).
Proof.
  destruct m as [l [a | e]]; simpl; [| reflexivity].
  destruct (k a) as [l' [b | e]]; simpl; [| reflexivity].
  destruct (h b) as [l'' r]. rewrite app_assoc. reflexivity.
Qed.

Lemma bind_Ok_inv {A B} (m : M A) (k : A -> M B) l b :
  bind m k = (l, Ok b) ->
  exists l1 a l2, m = (l1, Ok a) /\ k a = (l2, Ok b) /\ l = l1 ++ l2.
Proof.
  destruct m as [l1 [a | e]]; simpl; [| discriminate].
  destruct (k a) as [l2 r] eqn:E. intros H. inversion H; subst.
  exists l1, a, l2. auto.
Qed.

Lemma try_except_never {A} (body handler : M A) :
  never_zero_division body ->
  try_except_ZeroDivisionError body handler = body.
Proof.
  unfold never_zero_division, try_except_ZeroDivisionError.
  destruct body as [l [a | []]]; simpl; congruence.
Qed.

Lemma never_zero_division_bind {A B} (m : M A) (k : A -> M B) :
  never_zero_division m -> (forall a, never_zero_division (k a)) ->
  never_zero_division (bind m k).
Proof.
  unfold never_zero_division. intros Hm Hk.
  destruct m as [l [a | e]]; simpl in *; [| congruence].
  specialize (Hk a). destruct (k a) as [l' r]. exact Hk.
Qed.

Lemma never_zero_division_ret {A} (a : A) : never_zero_division (ret a).
Proof. discriminate. Qed.

Lemma never_zero_division_round (x : num) : never_zero_division (round x).
Proof.
  destruct x as [n | f]; simpl; [discriminate |].
  unfold round_float. destruct (Prim2SF f); discriminate.
Qed.

Lemma never_zero_division_float_of_int (n : Z) :
  never_zero_division (float_of_int n).
Proof.
  unfold float_of_int. destruct (binary_normalize _ _ _ _ _); discriminate.
Qed.

Lemma truediv_truthy (x y : float) :
  truthy y = true -> truediv x y = ret (x / y)%float.
Proof.
  unfold truthy, truediv. intros H. apply negb_true_iff in H.
  rewrite H. reflexivity.
Qed.

Lemma for_records_singleton {A} (x : A) (body : A -> M A) :
  for_records [x] body = bind (body x) (fun x' => ret [x']).
Proof.
  simpl. f_equal.
Qed.

(** ** Floats *)

Lemma Prim2SF_is_zero (f : float) :
  PrimFloat.is_zero f = true ->
  Prim2SF f = S754_nan \/ exists s, Prim2SF f = S754_zero s.
Proof.
  intros Hz. unfold Prim2SF. rewrite Hz.
  destruct (is_nan f); eauto.
Qed.

Lemma Prim2SF_is_finite (f : float) :
  PrimFloat.is_finite f = true ->
  (exists s, Prim2SF f = S754_zero s)
  \/ exists s m e, Prim2SF f = S754_finite s m e.
Proof.
  unfold PrimFloat.is_finite, Prim2SF. intros Hf.
  apply negb_true_iff, orb_false_iff in Hf. destruct Hf as [-> ->].
  destruct (PrimFloat.is_zero f); [eauto |].
  destruct (Z.frexp f) as [r ex].
  destruct (shr_fexp _ _ _ _ _) as [sh e'].
  destruct (shr_m sh); eauto 6.
Qed.

(** [round] returns on every number that is an integer or a finite float. *)
Lemma round_finite (p : num) :
  num_finite p = true -> exists r, round p = ret r.
Proof.
  destruct p as [n | f]; simpl; [eauto |].
  intros Hf. unfold round_float.
  destruct (Prim2SF_is_finite f Hf) as [[s ->] | (s & m & e & ->)]; eauto.
Qed.

(** A float that rounds to a non-zero integer is itself non-zero. *)
Lemma round_nonzero_truthy (f : float) (r : Z) :
  round (Float f) = ret r -> r <> 0 -> truthy f = true.
Proof.
  simpl. unfold round_float, truthy. intros Hr Hne.
  destruct (PrimFloat.is_zero f) eqn:Hz; [| reflexivity].
  destruct (Prim2SF_is_zero f Hz) as [E | [s E]]; rewrite E in Hr;
    inversion Hr; congruence.
Qed.

(** A float above [0.0] is not zero. *)
Lemma ltb_zero_not_zero (x : float) :
  (0 <? x)%float = true -> PrimFloat.is_zero x = false.
Proof.
  unfold PrimFloat.is_zero. rewrite FloatAxioms.ltb_spec, FloatAxioms.eqb_spec.
  change (Prim2SF 0) with (S754_zero false).
  change (Prim2SF zero) with (S754_zero false).
  unfold SFltb, SFeqb.
  destruct (Prim2SF x) as [s | s | | s m e]; simpl; try discriminate;
    destruct s; simpl; try discriminate; reflexivity.
Qed.

(** The rounding of [round] is to nearest, ties to even. *)
Lemma round_half_even_nearest (m : positive) (e : Z) :
  e < 0 ->
  let q := round_half_even m e in
  Z.abs (2 * (q * 2 ^ (- e) - Zpos m)) <= 2 ^ (- e)
  /\ (Z.abs (2 * (q * 2 ^ (- e) - Zpos m)) = 2 ^ (- e) -> Z.even q = true).
Proof.
  intros He. unfold round_half_even.
  destruct (Z.leb_spec 0 e) as [? | _]; [lia |].
  set (d := 2 ^ (- e)).
  assert (Hd : 0 < d) by (apply Z.pow_pos_nonneg; lia).
  pose proof (Z.div_mod (Zpos m) d ltac:(lia)) as Hdm.
  pose proof (Z.mod_pos_bound (Zpos m) d Hd) as Hb.
  set (q := Zpos m / d) in *. set (r := Zpos m mod d) in *.
  destruct (Z.compare_spec (2 * r) d) as [Heq | Hlt | Hgt]; simpl.
  - destruct (Z.even q) eqn:Hev.
    + split; [nia | auto].
    + split; [nia |]. intros _.
      rewrite Z.even_add, Hev. reflexivity.
  - split; [nia | nia].
  - split; [nia | nia].
Qed.

(** ** The float of a rounded float

    [round] of a float gives an integer that [float] converts back without
    loss: the value a compute method stores in a Float field after
    [round] is that integer. *)

(** The bit length of a positive. *)
Lemma digits2_pos_bounds (p : positive) :
  2 ^ (Zpos (digits2_pos p) - 1) <= Zpos p < 2 ^ Zpos (digits2_pos p).
Proof.
  induction p as [p IH | p IH |]; simpl digits2_pos.
  - rewrite Pos2Z.inj_succ.
    replace (Z.succ (Z.pos (digits2_pos p)) - 1)
      with (Z.succ (Z.pos (digits2_pos p) - 1)) by lia.
    rewrite !Z.pow_succ_r by lia. lia.
  - rewrite Pos2Z.inj_succ.
    replace (Z.succ (Z.pos (digits2_pos p)) - 1)
      with (Z.succ (Z.pos (digits2_pos p) - 1)) by lia.
    rewrite !Z.pow_succ_r by lia. lia.
  - simpl. lia.
Qed.

Lemma digits2_pos_le (p : positive) (n : Z) :
  0 <= n -> Zpos p < 2 ^ n -> Zpos (digits2_pos p) <= n.
Proof.
  intros Hn Hp. pose proof (digits2_pos_bounds p) as [Hlo _].
  destruct (Z.le_gt_cases (Zpos (digits2_pos p)) n) as [| Hgt];
    [assumption | exfalso].
  assert (2 ^ n <= 2 ^ (Zpos (digits2_pos p) - 1))
    by (apply Z.pow_le_mono_r; lia).
  lia.
Qed.

Lemma iter_xO_Z (m k : positive) :
  Zpos (Pos.iter xO m k) = Zpos m * 2 ^ Zpos k.
Proof.
  induction k as [|k IH] using Pos.peano_ind.
  - simpl. lia.
  - rewrite Pos.iter_succ, Pos2Z.inj_succ, Z.pow_succ_r by lia.
    rewrite Pos2Z.inj_xO, IH. lia.
Qed.

Lemma iter_xO_digits (m k : positive) :
  digits2_pos (Pos.iter xO m k) = (digits2_pos m + k)%positive.
Proof.
  induction k as [|k IH] using Pos.peano_ind.
  - simpl. lia.
  - rewrite Pos.iter_succ. simpl. rewrite IH. lia.
Qed.

Lemma iter_pos_iter {A} (f : A -> A) (p : positive) (x : A) :
  SpecFloat.iter_pos f p x = Pos.iter f x p.
Proof.
  revert x. induction p as [p IH | p IH |]; intros x; simpl.
  - rewrite !IH, !Pos.iter_swap. reflexivity.
  - rewrite !IH. reflexivity.
  - reflexivity.
Qed.

Lemma iter_shr_1_exact (k m : positive) :
  SpecFloat.iter_pos shr_1 k (exact_record (Pos.iter xO m k)) = exact_record m.
Proof.
  rewrite iter_pos_iter.
  induction k as [|k IH] using Pos.peano_ind.
  - reflexivity.
  - rewrite Pos.iter_succ_r, Pos.iter_succ. exact IH.
Qed.

Lemma fexp_eq (d : Z) : fexp prec emax d = Z.max (d - 53) (-1074).
Proof. reflexivity. Qed.

Lemma shr_fexp_exact_noshift (m : positive) (e : Z) :
  fexp prec emax (Zpos (digits2_pos m) + e) = e ->
  shr_fexp prec emax (Zpos m) e loc_Exact = (exact_record m, e).
Proof.
  intros H. unfold shr_fexp. simpl Zdigits2. rewrite H, Z.sub_diag.
  reflexivity.
Qed.

Lemma shr_fexp_exact_shift (m k : positive) :
  fexp prec emax (Zpos (digits2_pos (Pos.iter xO m k)) + 0) = Zpos k ->
  shr_fexp prec emax (Zpos (Pos.iter xO m k)) 0 loc_Exact
  = (exact_record m, Zpos k).
Proof.
  intros H. unfold shr_fexp. simpl Zdigits2. rewrite H, Z.sub_0_r.
  unfold shr. simpl shr_record_of_loc.
  change {| shr_m := Z.pos (Pos.iter xO m k); shr_r := false; shr_s := false |}
    with (exact_record (Pos.iter xO m k)).
  rewrite iter_shr_1_exact. reflexivity.
Qed.

Lemma binary_round_aux_exact (s : bool) (n m : positive) (e0 e : Z) :
  shr_fexp prec emax (Zpos n) e0 loc_Exact = (exact_record m, e) ->
  fexp prec emax (Zpos (digits2_pos m) + e) = e ->
  e <= 971 ->
  binary_round_aux prec emax s (Zpos n) e0 loc_Exact = S754_finite s m e.
Proof.
  intros H1 H2 He. unfold binary_round_aux. rewrite H1.
  simpl round_nearest_even.
  rewrite (shr_fexp_exact_noshift m e H2). simpl shr_m. cbv iota.
  change (emax - prec) with 971.
  destruct (Z.leb_spec e 971); [reflexivity | lia].
Qed.

(** An integer [m * 2^e] with a 53-bit [m]: its float is [(m, e)]. *)
Lemma binary_round_shifted (s : bool) (m e : positive) :
  Zpos (digits2_pos m) = 53 -> Zpos e <= 971 ->
  binary_round prec emax s (Pos.iter xO m e) 0 = S754_finite s m (Zpos e).
Proof.
  intros Hd He.
  assert (Hf : fexp prec emax (Zpos (digits2_pos (Pos.iter xO m e)) + 0)
               = Zpos e).
  { rewrite iter_xO_digits, Pos2Z.inj_add, Hd, fexp_eq. lia. }
  unfold binary_round. rewrite Hf.
  unfold shl_align. rewrite Z.sub_0_r.
  apply binary_round_aux_exact.
  - by apply shr_fexp_exact_shift.
  - rewrite Hd, fexp_eq. lia.
  - exact He.
Qed.

(** An integer with at most 53 bits: its float is the integer shifted
    left to 53 bits. *)
Lemma binary_round_small (s : bool) (p : positive) :
  Zpos (digits2_pos p) <= 53 ->
  exists m e, binary_round prec emax s p 0 = S754_finite s m e
    /\ bounded prec emax m e = true
    /\ -52 <= e <= 0
    /\ Zpos m = Zpos p * 2 ^ (- e).
Proof.
  intros Hd.
  destruct (Z.eq_dec (Zpos (digits2_pos p)) 53) as [Heq | Hne].
  - exists p, 0. 
    assert (Hf : fexp prec emax (Zpos (digits2_pos p) + 0) = 0)
      by (rewrite Heq, fexp_eq; lia).
    split; [| split; [| split]].
    + unfold binary_round. rewrite Hf. unfold shl_align. simpl Z.sub.
      apply binary_round_aux_exact;
        [by apply shr_fexp_exact_noshift | exact Hf | lia].
    + unfold bounded, canonical_mantissa. rewrite Hf. reflexivity.
    + lia.
    + simpl. lia.
  - pose proof (Pos2Z.is_pos (digits2_pos p)) as Hpos.
    set (k := Z.to_pos (53 - Zpos (digits2_pos p))).
    assert (Hk : Zpos k = 53 - Zpos (digits2_pos p)) by (unfold k; lia).
    exists (Pos.iter xO p k), (- Zpos k).
    assert (Hf : fexp prec emax (Zpos (digits2_pos p) + 0) = - Zpos k)
      by (rewrite fexp_eq; lia).
    assert (Hc : fexp prec emax
                   (Zpos (digits2_pos (Pos.iter xO p k)) + - Zpos k)
                 = - Zpos k).
    { rewrite iter_xO_digits, Pos2Z.inj_add, fexp_eq. lia. }
    split; [| split; [| split]].
    + unfold binary_round. rewrite Hf. unfold shl_align.
      replace (- Zpos k - 0) with (Zneg k) by lia.
      apply binary_round_aux_exact;
        [by apply shr_fexp_exact_noshift | exact Hc | lia].
    + unfold bounded, canonical_mantissa. rewrite Hc, Z.eqb_refl.
      simpl. change (emax - prec) with 971.
      destruct (Z.leb_spec (- Zpos k) 971); [reflexivity | lia].
    + lia.
    + rewrite iter_xO_Z, Z.opp_involutive. reflexivity.
Qed.

Lemma bounded_digits (m : positive) (e : Z) :
  bounded prec emax m e = true ->
  Z.max (Zpos (digits2_pos m) + e - 53) (-1074) = e /\ e <= 971.
Proof.
  unfold bounded, canonical_mantissa. rewrite fexp_eq.
  intros H. apply andb_true_iff in H as [H1 H2].
  apply Z.eqb_eq in H1. apply Z.leb_le in H2.
  change (emax - prec) with 971 in H2. auto.
Qed.

Lemma round_half_even_exact (m p : positive) (e : Z) :
  -52 <= e <= 0 -> Zpos m = Zpos p * 2 ^ (- e) ->
  round_half_even m e = Zpos p.
Proof.
  intros He Hm. unfold round_half_even.
  destruct (Z.leb_spec 0 e) as [H0 | H0].
  - assert (e = 0) by lia. subst e. simpl in *. lia.
  - assert (Hd : 0 < 2 ^ (- e)) by (apply Z.pow_pos_nonneg; lia).
    rewrite Hm, Z.div_mul, Z.mod_mul by lia.
    cbv zeta. rewrite Z.mul_0_r.
    destruct (Z.compare_spec 0 (2 ^ (- e))); [lia | reflexivity | lia].
Qed.

Lemma round_half_even_bound (m : positive) (e : Z) :
  bounded prec emax m e = true -> e < 0 ->
  0 <= round_half_even m e <= 2 ^ 52.
Proof.
  intros Hb He. apply bounded_digits in Hb as [Hc _].
  assert (HD : Zpos (digits2_pos m) <= 53) by lia.
  pose proof (digits2_pos_bounds m) as [_ Hm].
  assert (Hm53 : Zpos m < 2 ^ 53).
  { eapply Z.lt_le_trans; [exact Hm |]. apply Z.pow_le_mono_r; lia. }
  unfold round_half_even.
  destruct (Z.leb_spec 0 e) as [? | _]; [lia |].
  set (d := 2 ^ (- e)).
  assert (Hd : 2 <= d).
  { unfold d. change 2 with (2 ^ 1) at 1. apply Z.pow_le_mono_r; lia. }
  assert (Hq0 : 0 <= Zpos m / d) by (apply Z.div_pos; lia).
  assert (Hq : Zpos m / d < 2 ^ 52).
  { apply Z.div_lt_upper_bound; [lia |].
    change (2 ^ 53) with (2 * 2 ^ 52) in Hm53. nia. }
  cbv zeta.
  destruct (2 * (Zpos m mod d) ?= d); [destruct (Z.even _) | |]; lia.
Qed.

(** The float of the integer a float rounds to: it exists, and it rounds
    to that integer again. *)
Lemma spec_round_trip (s : bool) (m : positive) (e : Z) :
  bounded prec emax m e = true ->
  let mag := round_half_even m e in
  mag = 0
  \/ exists m' e',
       binary_normalize prec emax (if s then - mag else mag) 0 false
       = S754_finite s m' e'
       /\ bounded prec emax m' e' = true
       /\ round_half_even m' e' = mag.
Proof.
  intros Hb mag.
  assert (Hsmall : forall p, mag = Zpos p -> Zpos (digits2_pos p) <= 53 ->
            exists m' e',
              binary_normalize prec emax (if s then - mag else mag) 0 false
              = S754_finite s m' e'
              /\ bounded prec emax m' e' = true
              /\ round_half_even m' e' = mag).
  { intros p Hp Hd.
    destruct (binary_round_small s p Hd) as (m' & e' & Hr & Hb' & He' & Hm').
    exists m', e'. rewrite Hp. split; [| split].
    - destruct s; exact Hr.
    - exact Hb'.
    - by apply round_half_even_exact. }
  destruct (bounded_digits m e Hb) as [Hc He].
  destruct (Z.lt_ge_cases e 0) as [Hneg | Hpos].
  - pose proof (round_half_even_bound m e Hb Hneg) as Hmag. fold mag in Hmag.
    destruct mag as [| p | p] eqn:Emag; [by left | right | lia].
    apply (Hsmall p eq_refl). apply digits2_pos_le; [lia |].
    change (2 ^ 53) with (2 * 2 ^ 52). lia.
  - right.
    assert (HD : Zpos (digits2_pos m) = 53) by lia.
    destruct e as [| k | k]; [| | lia].
    + apply (Hsmall m); [| lia].
      unfold mag, round_half_even. simpl. lia.
    + exists m, (Zpos k).
      assert (Emag : mag = Zpos (Pos.iter xO m k)).
      { unfold mag, round_half_even. simpl Z.leb. cbv iota.
        symmetry. apply iter_xO_Z. }
      rewrite Emag. split; [| split].
      * destruct s; simpl; by apply binary_round_shifted.
      * exact Hb.
      * rewrite <- Emag. reflexivity.
Qed.

Lemma float_of_int_round_float (x : float) (r : Z) :
  round (Float x) = ret r ->
  exists v, float_of_int r = ret v /\ round (Float v) = ret r.
Proof.
  simpl. unfold round_float.
  destruct (Prim2SF x) as [s0 | s0 | | s m e] eqn:E; intros H; inversion H;
    subst; clear H.
  - exists 0%float. split; reflexivity.
  - pose proof (Prim2SF_valid x) as Hv. rewrite E in Hv. simpl in Hv.
    destruct (spec_round_trip s m e Hv) as [H0 | (m' & e' & Hn & Hb & Hr)].
    + rewrite H0. exists 0%float. destruct s; split; reflexivity.
    + unfold float_of_int. rewrite Hn.
      exists (SF2Prim (S754_finite s m' e')). split; [reflexivity |].
      rewrite Prim2SF_SF2Prim by exact Hb. rewrite Hr. reflexivity.
Qed.

(** ** [search]: membership and order *)

#[local] Instance by_markup_total : Total CommissionFactor.by_markup.
Proof. intros a b. unfold CommissionFactor.by_markup. lia. Qed.

#[local] Instance by_markup_trans : Transitive CommissionFactor.by_markup.
Proof. intros a b c. unfold CommissionFactor.by_markup. lia. Qed.

Lemma elem_of_search t domain i e :
  (i, e) ∈ CommissionFactor.search t domain
  <-> t !! i = Some e /\ domain i e = true.
Proof.
  unfold CommissionFactor.search.
  rewrite merge_sort_Permutation, list_elem_of_filter, elem_of_map_to_list.
  simpl. tauto.
Qed.

Lemma search_sorted t domain :
  StronglySorted CommissionFactor.by_markup (CommissionFactor.search t domain).
Proof. apply StronglySorted_merge_sort; apply _. Qed.

Lemma search_NoDup t domain : NoDup (CommissionFactor.search t domain).
Proof.
  unfold CommissionFactor.search. rewrite merge_sort_Permutation.
  apply NoDup_filter, NoDup_map_to_list.
Qed.

Lemma search_nil t domain :
  (forall i e, t !! i = Some e -> domain i e = false) ->
  CommissionFactor.search t domain = [].
Proof.
  intros H. apply elem_of_nil_inv. intros [i e] Hin.
  apply elem_of_search in Hin as [Hl Hd].
  rewrite (H i e Hl) in Hd. discriminate.
Qed.

Lemma elem_of_all_factors t i e :
  (i, e) ∈ all_factors t <-> Spec.active_entry t i e.
Proof.
  unfold all_factors, Spec.active_entry. rewrite elem_of_search.
  destruct (CommissionFactor.active e); simpl; intuition congruence.
Qed.

Lemma sorted_head_least {A} (R : relation A) (x : A) (l : list A) :
  StronglySorted R (x :: l) -> forall y, y ∈ l -> R x y.
Proof.
  intros Hs y Hy. apply StronglySorted_inv in Hs as [_ Hall].
  rewrite Forall_forall in Hall. apply Hall, Hy.
Qed.

Lemma sorted_last_greatest {A} (R : relation A) (l : list A) (z : A) :
  StronglySorted R l -> last l = Some z ->
  forall y, y ∈ l -> y = z \/ R y z.
Proof.
  intros Hs Hl y Hy. apply last_Some in Hl as [l' ->].
  apply elem_of_app in Hy as [Hy | Hy].
  - right. eapply StronglySorted_app_1_elem_of; [exact Hs | exact Hy |].
    apply list_elem_of_singleton. reflexivity.
  - left. by apply list_elem_of_singleton in Hy.
Qed.

(** A duplicate-free list all of whose elements agree has at most one. *)
Lemma NoDup_all_equal {A} (l : list A) :
  NoDup l -> (forall x y, x ∈ l -> y ∈ l -> x = y) ->
  l = [] \/ exists x, l = [x].
Proof.
  intros Hnd Heq. destruct l as [| a [| b l]]; eauto.
  exfalso. apply NoDup_cons in Hnd as [Hni _]. apply Hni.
  rewrite (Heq a b); [left | left | right; left].
Qed.

Lemma get_commission_factor_round t p :
  CommissionFactor.get_commission_factor t p
  = bind (round p) (lookup_rounded t).
Proof.
  unfold CommissionFactor.get_commission_factor at 1.
  unfold mbind, M_bind. apply bind_ext. intros r.
  unfold lookup_rounded, CommissionFactor.get_commission_factor.
  unfold mbind, M_bind. simpl round. rewrite bind_ret_l. reflexivity.
Qed.

Lemma get_commission_factor_rounded t p r :
  round p = ret r ->
  CommissionFactor.get_commission_factor t p = lookup_rounded t r.
Proof.
  intros H. rewrite get_commission_factor_round, H. apply bind_ret_l.
Qed.

Lemma lookup_rounded_unfold t r :
  lookup_rounded t r =
  match all_factors t with
  | [] => ([(WARNING, NoFactorsConfigured)], Ok 0%float)
  | first :: _ =>
      match filter (fun f => CommissionFactor.markup_percentage f.2 = r)
                   (all_factors t) with
      | _ :: _ =>
          CommissionFactor.read_field CommissionFactor.commission_factor
            0%float
            (filter (fun f => CommissionFactor.markup_percentage f.2 = r)
                    (all_factors t))
      | [] =>
          let last_record := default first (last (all_factors t)) in
          if r <? CommissionFactor.markup_percentage first.2
          then ([(INFO, BelowMinimum r
                          (CommissionFactor.markup_percentage first.2)
                          (CommissionFactor.commission_factor first.2))],
                Ok (CommissionFactor.commission_factor first.2))
          else if CommissionFactor.markup_percentage last_record.2 <? r
          then ([(INFO, AboveMaximum r
                          (CommissionFactor.markup_percentage last_record.2)
                          (CommissionFactor.commission_factor last_record.2))],
                Ok (CommissionFactor.commission_factor last_record.2))
          else ([(WARNING, NoFactorInRange r)], Ok 0%float)
      end
  end.
Proof.
  unfold lookup_rounded, CommissionFactor.get_commission_factor.
  unfold mbind, M_bind. simpl round. rewrite bind_ret_l.
  fold (all_factors t).
  destruct (all_factors t) as [| first rest]; [reflexivity |].
  remember (filter _ (first :: rest)) as exact_match.
  destruct exact_match; [| reflexivity].
  cbv zeta.
  repeat match goal with |- context [if ?b then _ else _] => destruct b end;
    reflexivity.
Qed.

(** ** The four cases of the lookup *)

Lemma filter_none {A} (P : A -> Prop) `{!forall x, Decision (P x)}
  (l : list A) :
  (forall x, x ∈ l -> ~ P x) -> filter P l = [].
Proof.
  intros Hnone. apply elem_of_nil_inv. intros x Hx.
  apply list_elem_of_filter in Hx as [HP Hx]. exact (Hnone x Hx HP).
Qed.

Lemma active_entry_unique t i j e e' :
  CommissionFactor.unique_active t ->
  Spec.active_entry t i e -> Spec.active_entry t j e' ->
  CommissionFactor.markup_percentage e = CommissionFactor.markup_percentage e' ->
  (i, e) = (j, e').
Proof.
  intros Hu [Hi Ha] [Hj Ha'] Hp.
  assert (i = j) by (eapply Hu; eauto). subst j.
  congruence.
Qed.

Lemma exact_match_singleton t r i e :
  CommissionFactor.unique_active t ->
  Spec.active_entry t i e ->
  CommissionFactor.markup_percentage e = r ->
  filter (fun f => CommissionFactor.markup_percentage f.2 = r) (all_factors t)
  = [(i, e)].
Proof.
  intros Hu He Hr.
  set (l := filter _ _).
  assert (Hin : (i, e) ∈ l).
  { apply list_elem_of_filter. split; [exact Hr |].
    by apply elem_of_all_factors. }
  assert (Hnd : NoDup l) by apply NoDup_filter, search_NoDup.
  assert (Heq : forall x y, x ∈ l -> y ∈ l -> x = y).
  { intros [a ea] [b eb] Ha Hb.
    apply list_elem_of_filter in Ha as [Hpa Ha], Hb as [Hpb Hb].
    apply elem_of_all_factors in Ha, Hb. simpl in *.
    eapply active_entry_unique; eauto. congruence. }
  destruct (NoDup_all_equal l Hnd Heq) as [E | [x E]]; rewrite E in *.
  - by apply elem_of_nil in Hin.
  - apply list_elem_of_singleton in Hin. congruence.
Qed.

Lemma lookup_exact t r i e :
  CommissionFactor.unique_active t ->
  Spec.active_entry t i e ->
  CommissionFactor.markup_percentage e = r ->
  lookup_rounded t r = ret (CommissionFactor.commission_factor e).
Proof.
  intros Hu He Hr. rewrite lookup_rounded_unfold.
  rewrite (exact_match_singleton t r i e Hu He Hr).
  destruct (all_factors t) as [| first rest] eqn:E; [| reflexivity].
  apply elem_of_all_factors in He. rewrite E in He.
  by apply elem_of_nil in He.
Qed.

Lemma lookup_below t r i e :
  CommissionFactor.unique_active t ->
  Spec.min_entry t i e ->
  r < CommissionFactor.markup_percentage e ->
  lookup_rounded t r
  = ([(INFO, BelowMinimum r (CommissionFactor.markup_percentage e)
                  (CommissionFactor.commission_factor e))],
     Ok (CommissionFactor.commission_factor e)).
Proof.
  intros Hu [He Hmin] Hr. rewrite lookup_rounded_unfold.
  rewrite filter_none.
  2:{ intros [j e'] Hj. apply elem_of_all_factors in Hj.
      specialize (Hmin j e' Hj). simpl. lia. }
  pose proof (search_sorted t
    (fun _ r => Bool.eqb (CommissionFactor.active r) true)) as Hs.
  fold (all_factors t) in Hs.
  assert (Hin : (i, e) ∈ all_factors t) by by apply elem_of_all_factors.
  destruct (all_factors t) as [| [j e1] rest] eqn:E;
    [by apply elem_of_nil in Hin |].
  assert (H1 : Spec.active_entry t j e1).
  { apply elem_of_all_factors. rewrite E. left. }
  assert (Hle : CommissionFactor.markup_percentage e1
                <= CommissionFactor.markup_percentage e).
  { apply elem_of_cons in Hin as [Hin | Hin]; [inversion Hin; lia |].
    exact (sorted_head_least _ _ _ Hs _ Hin). }
  assert (Heq : (j, e1) = (i, e)).
  { eapply active_entry_unique; eauto. specialize (Hmin j e1 H1). lia. }
  inversion Heq; subst. cbv zeta. simpl.
  destruct (Z.ltb_spec r (CommissionFactor.markup_percentage e));
    [reflexivity | lia].
Qed.

Lemma lookup_above t r i e :
  CommissionFactor.unique_active t ->
  Spec.max_entry t i e ->
  CommissionFactor.markup_percentage e < r ->
  lookup_rounded t r
  = ([(INFO, AboveMaximum r (CommissionFactor.markup_percentage e)
                  (CommissionFactor.commission_factor e))],
     Ok (CommissionFactor.commission_factor e)).
Proof.
  intros Hu [He Hmax] Hr. rewrite lookup_rounded_unfold.
  rewrite filter_none.
  2:{ intros [j e'] Hj. apply elem_of_all_factors in Hj.
      specialize (Hmax j e' Hj). simpl. lia. }
  pose proof (search_sorted t
    (fun _ r => Bool.eqb (CommissionFactor.active r) true)) as Hs.
  fold (all_factors t) in Hs.
  assert (Hin : (i, e) ∈ all_factors t) by by apply elem_of_all_factors.
  assert (Hfirst : forall x, x ∈ all_factors t ->
            CommissionFactor.markup_percentage x.2 < r).
  { intros [j e'] Hj. apply elem_of_all_factors in Hj.
    specialize (Hmax j e' Hj). simpl. lia. }
  destruct (last (all_factors t)) as [[k e2] |] eqn:El.
  2:{ apply last_None in El. rewrite El in Hin. by apply elem_of_nil in Hin. }
  assert (H2 : Spec.active_entry t k e2).
  { apply elem_of_all_factors. by apply last_Some_elem_of. }
  assert (Hle : CommissionFactor.markup_percentage e
                <= CommissionFactor.markup_percentage e2).
  { destruct (sorted_last_greatest _ _ _ Hs El _ Hin) as [Heq | Hle];
      [inversion Heq; lia | exact Hle]. }
  assert (Heq : (k, e2) = (i, e)).
  { eapply active_entry_unique; eauto. specialize (Hmax k e2 H2). lia. }
  inversion Heq; subst.
  destruct (all_factors t) as [| first rest] eqn:E;
    [by apply elem_of_nil in Hin |].
  cbv zeta. simpl default.
  assert (Hf := Hfirst first ltac:(left)).
  destruct (Z.ltb_spec r (CommissionFactor.markup_percentage first.2));
    [lia |].
  simpl.
  destruct (Z.ltb_spec (CommissionFactor.markup_percentage e) r);
    [reflexivity | lia].
Qed.

Lemma lookup_gap t r :
  (forall i e, Spec.active_entry t i e ->
     CommissionFactor.markup_percentage e <> r) ->
  (exists i e, Spec.active_entry t i e
     /\ CommissionFactor.markup_percentage e < r) ->
  (exists i e, Spec.active_entry t i e
     /\ r < CommissionFactor.markup_percentage e) ->
  lookup_rounded t r = ([(WARNING, NoFactorInRange r)], Ok 0%float).
Proof.
  intros Hne (i & lo & Hlo & Hlt) (j & hi & Hhi & Hgt).
  rewrite lookup_rounded_unfold.
  rewrite filter_none.
  2:{ intros [k e'] Hk. apply elem_of_all_factors in Hk. simpl.
      exact (Hne k e' Hk). }
  pose proof (search_sorted t
    (fun _ r => Bool.eqb (CommissionFactor.active r) true)) as Hs.
  fold (all_factors t) in Hs.
  apply elem_of_all_factors in Hlo, Hhi.
  destruct (last (all_factors t)) as [z |] eqn:El.
  2:{ apply last_None in El. rewrite El in Hlo. by apply elem_of_nil in Hlo. }
  assert (Hz : CommissionFactor.markup_percentage hi
               <= CommissionFactor.markup_percentage z.2).
  { destruct (sorted_last_greatest _ _ _ Hs El _ Hhi) as [Heq | Hle];
      [subst z; simpl; lia | exact Hle]. }
  destruct (all_factors t) as [| first rest] eqn:E;
    [by apply elem_of_nil in Hlo |].
  assert (Hf : CommissionFactor.markup_percentage first.2
               <= CommissionFactor.markup_percentage lo).
  { apply elem_of_cons in Hlo as [Hlo | Hlo]; [subst first; simpl; lia |].
    exact (sorted_head_least _ _ _ Hs _ Hlo). }
  cbv zeta. simpl default.
  destruct (Z.ltb_spec r (CommissionFactor.markup_percentage first.2));
    [lia |].
  destruct (Z.ltb_spec (CommissionFactor.markup_percentage z.2) r);
    [lia | reflexivity].
Qed.

Lemma lookup_empty t r :
  (forall i e, t !! i = Some e -> CommissionFactor.active e = false) ->
  lookup_rounded t r = ([(WARNING, NoFactorsConfigured)], Ok 0%float).
Proof.
  intros H. rewrite lookup_rounded_unfold.
  unfold all_factors. rewrite search_nil; [reflexivity |].
  intros i e Hl. rewrite (H i e Hl). reflexivity.
Qed.

(** Uniqueness among active rows, decided on the list of rows. *)
Lemma NoDup_fmap_elem_eq {A B} (f : A -> B) (l : list A) x y :
  NoDup (f <$> l) -> x ∈ l -> y ∈ l -> f x = f y -> x = y.
Proof.
  induction l as [| a l IH]; intros Hnd Hx Hy Hf.
  - by apply elem_of_nil in Hx.
  - rewrite fmap_cons in Hnd. apply NoDup_cons in Hnd as [Hni Hnd].
    apply elem_of_cons in Hx as [-> | Hx], Hy as [-> | Hy]; auto.
    + exfalso. apply Hni. rewrite Hf. by apply list_elem_of_fmap_2.
    + exfalso. apply Hni. rewrite <- Hf. by apply list_elem_of_fmap_2.
Qed.

Lemma unique_active_by_rows (t : CommissionFactor.table) :
  NoDup ((fun ir => CommissionFactor.markup_percentage ir.2)
           <$> CommissionFactor.active_records t) ->
  CommissionFactor.unique_active t.
Proof.
  intros Hnd i j ri rj Hi Hj Ha Hb Hp.
  assert (Hin : forall k r, t !! k = Some r ->
            CommissionFactor.active r = true ->
            (k, r) ∈ CommissionFactor.active_records t).
  { intros k r Hk Hr. unfold CommissionFactor.active_records.
    apply list_elem_of_filter. split; [exact Hr |].
    by apply elem_of_map_to_list. }
  pose proof (NoDup_fmap_elem_eq _ _ (i, ri) (j, rj) Hnd
                (Hin _ _ Hi Ha) (Hin _ _ Hj Hb) Hp) as E.
  congruence.
Qed.

(** ** Claims on the factor table *)

(** C1: on a table whose active entries have pairwise distinct percentages
    (the invariant of the data model) and are not all absent, and for every
    input [p] that is a number ([int] or finite [float]), the lookup rounds
    [p] to an integer [r] and returns: the factor of the active entry whose
    percentage is [r] when there is one; the factor of the entry with the
    smallest percentage when [r] is below it; the factor of the entry with
    the largest percentage when [r] is above it; and [0.0] when [r] lies
    strictly between the smallest and the largest percentage and no entry
    has percentage [r]. *)
Theorem get_commission_factor_cases (t : CommissionFactor.table) (p : num) :
  CommissionFactor.unique_active t ->
  (exists i e, Spec.active_entry t i e) ->
  num_finite p = true ->
  exists r,
    round p = ret r
    /\ (forall i e, Spec.active_entry t i e ->
          CommissionFactor.markup_percentage e = r ->
          result (CommissionFactor.get_commission_factor t p)
          = Ok (CommissionFactor.commission_factor e))
    /\ (forall i e, Spec.min_entry t i e ->
          r < CommissionFactor.markup_percentage e ->
          result (CommissionFactor.get_commission_factor t p)
          = Ok (CommissionFactor.commission_factor e))
    /\ (forall i e, Spec.max_entry t i e ->
          CommissionFactor.markup_percentage e < r ->
          result (CommissionFactor.get_commission_factor t p)
          = Ok (CommissionFactor.commission_factor e))
    /\ (forall i lo j hi, Spec.min_entry t i lo -> Spec.max_entry t j hi ->
          CommissionFactor.markup_percentage lo < r ->
          r < CommissionFactor.markup_percentage hi ->
          (forall k e, Spec.active_entry t k e ->
             CommissionFactor.markup_percentage e <> r) ->
          result (CommissionFactor.get_commission_factor t p) = Ok 0%float).
Proof.
  intros Hu _ Hfin.
  destruct (round_finite p Hfin) as [r Hr].
  exists r. split; [exact Hr |].
  rewrite (get_commission_factor_rounded t p r Hr).
  repeat split.
  - intros i e He Hp. by rewrite (lookup_exact t r i e Hu He Hp).
  - intros i e He Hp. by rewrite (lookup_below t r i e Hu He Hp).
  - intros i e He Hp. by rewrite (lookup_above t r i e Hu He Hp).
  - intros i lo j hi [Hlo _] [Hhi _] Hl Hh Hne.
    rewrite (lookup_gap t r Hne); [reflexivity | eauto | eauto].
Qed.

Lemma get_commission_factor_cases_witness :
  exists r,
    round (Float 17) = ret r
    /\ (forall i e, Spec.active_entry table_10_15_20_30 i e ->
          CommissionFactor.markup_percentage e = r ->
          result (CommissionFactor.get_commission_factor
                    table_10_15_20_30 (Float 17))
          = Ok (CommissionFactor.commission_factor e))
    /\ (forall i e, Spec.min_entry table_10_15_20_30 i e ->
          r < CommissionFactor.markup_percentage e ->
          result (CommissionFactor.get_commission_factor
                    table_10_15_20_30 (Float 17))
          = Ok (CommissionFactor.commission_factor e))
    /\ (forall i e, Spec.max_entry table_10_15_20_30 i e ->
          CommissionFactor.markup_percentage e < r ->
          result (CommissionFactor.get_commission_factor
                    table_10_15_20_30 (Float 17))
          = Ok (CommissionFactor.commission_factor e))
    /\ (forall i lo j hi,
          Spec.min_entry table_10_15_20_30 i lo ->
          Spec.max_entry table_10_15_20_30 j hi ->
          CommissionFactor.markup_percentage lo < r ->
          r < CommissionFactor.markup_percentage hi ->
          (forall k e, Spec.active_entry table_10_15_20_30 k e ->
             CommissionFactor.markup_percentage e <> r) ->
          result (CommissionFactor.get_commission_factor
                    table_10_15_20_30 (Float 17)) = Ok 0%float).
Proof.
  apply (get_commission_factor_cases table_10_15_20_30 (Float 17)).
  - apply unique_active_by_rows.
    apply (bool_decide_eq_true_1 _). vm_compute. reflexivity.
  - exists 1%positive, (factor_entry 10 0.002 true).
    split; reflexivity.
  - reflexivity.
Defined.

(** C7: when no entry is active, the lookup of every number [p] ([int] or
    finite [float]) logs the warning "No commission factors configured" and
    returns [0.0]; it does not raise. *)
Theorem get_commission_factor_empty_table (t : CommissionFactor.table)
  (p : num) :
  (forall i e, t !! i = Some e -> CommissionFactor.active e = false) ->
  num_finite p = true ->
  CommissionFactor.get_commission_factor t p
  = ([(WARNING, NoFactorsConfigured)], Ok 0%float).
Proof.
  intros Hempty Hfin.
  destruct (round_finite p Hfin) as [r Hr].
  rewrite (get_commission_factor_rounded t p r Hr).
  by apply lookup_empty.
Qed.

Lemma get_commission_factor_empty_table_witness :
  CommissionFactor.get_commission_factor table_deactivated (Float 15)
  = ([(WARNING, NoFactorsConfigured)], Ok 0%float).
Proof.
  apply (get_commission_factor_empty_table table_deactivated (Float 15)).
  - intros i e H. unfold table_deactivated in H.
    apply lookup_singleton_Some in H as [_ <-]. reflexivity.
  - reflexivity.
Defined.

Lemma round_nearest_ties_even (f : float) (r : Z) :
  round (Float f) = ret r -> Spec.nearest_ties_even (Prim2SF f) r.
Proof.
  simpl. unfold round_float, Spec.nearest_ties_even.
  destruct (Prim2SF f) as [s | s | | s m e]; intros H; inversion H; subst;
    clear H; [reflexivity |].
  destruct (Z.leb_spec 0 e) as [He | He].
  - unfold round_half_even. destruct (Z.leb_spec 0 e); [| lia].
    destruct s; [change (Z.neg m) with (- Z.pos m); ring | reflexivity].
  - destruct (round_half_even_nearest m e He) as [Hn Hev].
    set (q := round_half_even m e) in *. set (d := 2 ^ (- e)) in *.
    destruct s; [| auto].
    replace (2 * (- q * d - Z.neg m)) with (- (2 * (q * d - Z.pos m)))
      by (change (Z.neg m) with (- Z.pos m); ring).
    rewrite Z.abs_opp, Z.even_opp. auto.
Qed.

(** C2, as amended: the argument of the lookup is rounded with Python's
    [round] before any comparison with the table, so the lookup of [p] is
    the lookup of the integer [round(p)]; in particular 14.4 is looked up as
    14 and 14.6 as 15.  The rounding is to the nearest integer with ties to
    the even integer. *)
Theorem get_commission_factor_rounds_first (t : CommissionFactor.table) :
  (forall p,
     CommissionFactor.get_commission_factor t p
     = bind (round p)
         (fun r => CommissionFactor.get_commission_factor t (Int r)))
  /\ CommissionFactor.get_commission_factor t (Float 14.4)
     = CommissionFactor.get_commission_factor t (Int 14)
  /\ CommissionFactor.get_commission_factor t (Float 14.6)
     = CommissionFactor.get_commission_factor t (Int 15)
  /\ (forall f r, round (Float f) = ret r ->
        Spec.nearest_ties_even (Prim2SF f) r).
Proof.
  split; [| split; [| split]].
  - intros p. apply get_commission_factor_round.
  - apply (get_commission_factor_rounded t (Float 14.4) 14). reflexivity.
  - apply (get_commission_factor_rounded t (Float 14.6) 15). reflexivity.
  - apply round_nearest_ties_even.
Qed.

Lemma get_commission_factor_rounds_first_witness :
  Spec.nearest_ties_even (Prim2SF 14.5) 14.
Proof.
  refine (proj2 (proj2 (proj2
            (get_commission_factor_rounds_first table_10_15_20_30)))
            14.5%float 14 _).
  reflexivity.
Defined.

(** C2 as stated fails: with ties away from zero 14.5 would be looked up as
    15, an exact match of the test table; the code looks it up as 14, which
    falls in a gap. *)
Lemma half_away_from_zero_counterexample :
  Spec.round_half_away_from_zero (Float 14.5) = ret 15
  /\ CommissionFactor.get_commission_factor table_10_15_20_30 (Float 14.5)
     = ([(WARNING, NoFactorInRange 14)], Ok 0%float)
  /\ CommissionFactor.get_commission_factor table_10_15_20_30 (Int 15)
     = ([], Ok 0.004%float)
  /\ CommissionFactor.get_commission_factor table_10_15_20_30 (Float 14.5)
     <> bind (Spec.round_half_away_from_zero (Float 14.5))
          (fun r =>
             CommissionFactor.get_commission_factor table_10_15_20_30 (Int r)).
Proof.
  repeat split; try (vm_compute; reflexivity).
  intros H. vm_compute in H. discriminate H.
Qed.

(** ** The compute methods on a single record *)

Lemma _compute_markup_percentage_singleton (line : SaleOrderLine.record) :
  SaleOrderLine._compute_markup_percentage [line]
  = if truthy (SaleOrderLine.price_unit line)
       && truthy (read_float (SaleOrderLine.purchase_price line))
    then
      bind (round (Float (Spec.markup
                            (read_float (SaleOrderLine.purchase_price line))
                            (SaleOrderLine.price_unit line))))
        (fun r => bind (float_of_int r)
           (fun v => ret [SaleOrderLine.set_markup_percentage v line]))
    else ret [SaleOrderLine.set_markup_percentage 0%float line].
Proof.
  unfold SaleOrderLine._compute_markup_percentage.
  rewrite for_records_singleton.
  destruct (truthy (SaleOrderLine.price_unit line)) eqn:Hp;
    [| reflexivity].
  destruct (truthy (read_float (SaleOrderLine.purchase_price line))) eqn:Hc;
    [| reflexivity].
  simpl andb. cbv iota. unfold mbind, M_bind.
  rewrite (truediv_truthy _ _ Hp), bind_ret_l.
  rewrite try_except_never.
  2:{ apply never_zero_division_bind; [apply never_zero_division_round |].
      intros r. apply never_zero_division_bind;
        [apply never_zero_division_float_of_int |].
      intros v. apply never_zero_division_ret. }
  rewrite bind_assoc. apply bind_ext. intros r. cbv beta.
  rewrite bind_assoc. apply bind_ext. intros v. cbv beta.
  rewrite bind_ret_l. reflexivity.
Qed.

Lemma _compute_markup_amount_singleton (line : SaleOrderLine.record) :
  SaleOrderLine._compute_markup_amount [line]
  = ret [SaleOrderLine.set_markup_amount
           (if truthy (SaleOrderLine.price_unit line)
               && truthy (read_float (SaleOrderLine.purchase_price line))
            then (SaleOrderLine.price_unit line
                  - read_float (SaleOrderLine.purchase_price line))%float
            else 0%float) line].
Proof.
  unfold SaleOrderLine._compute_markup_amount.
  rewrite for_records_singleton.
  destruct (_ && _); reflexivity.
Qed.

Lemma _compute_commission_factor_singleton factors
  (line : SaleOrderLine.record) :
  SaleOrderLine._compute_commission_factor factors [line]
  = if truthy (SaleOrderLine.markup_percentage line)
    then
      bind (CommissionFactor.get_commission_factor factors
              (Float (SaleOrderLine.markup_percentage line)))
        (fun f => ret [SaleOrderLine.set_commission_factor f line])
    else ret [SaleOrderLine.set_commission_factor 0%float line].
Proof.
  unfold SaleOrderLine._compute_commission_factor.
  rewrite for_records_singleton.
  destruct (truthy _); [| reflexivity].
  unfold mbind, M_bind. rewrite bind_assoc. apply bind_ext. intros f.
  cbv beta. rewrite bind_ret_l. reflexivity.
Qed.

Lemma _compute_commission_amount_singleton (line : SaleOrderLine.record) :
  SaleOrderLine._compute_commission_amount [line]
  = ret [SaleOrderLine.set_commission_amount
           (if truthy (SaleOrderLine.price_subtotal line)
               && truthy (SaleOrderLine.commission_factor line)
            then (SaleOrderLine.price_subtotal line
                  * SaleOrderLine.commission_factor line)%float
            else 0%float) line].
Proof.
  unfold SaleOrderLine._compute_commission_amount.
  rewrite for_records_singleton.
  destruct (_ && _); reflexivity.
Qed.

(** ** Claims on the line calculator *)

(** C3: on a line whose unit price and unit cost are both non-zero,
    [markup_percentage] is [round(((unit_cost / unit_price) - 1) * -100)]
    (the method returns whenever that value is finite, and the float it
    stores is exactly the rounded integer), [markup_amount] is
    [unit_price - unit_cost], and on every line [commission_amount] is
    [line_subtotal * commission_factor] when both are non-zero and [0.0]
    otherwise.  With the single active
    entry 20 -> 0.010, price 100, cost 80 and quantity 2 give 20, 20.0,
    0.010 and 2.0; price 100 and cost 83.33 give the percentage 17. *)
Theorem compute_line_formulas (line : SaleOrderLine.record) (c : float) :
  SaleOrderLine.purchase_price line = Some c ->
  truthy (SaleOrderLine.price_unit line) = true ->
  truthy c = true ->
  SaleOrderLine._compute_markup_percentage [line]
  = bind (round (Float (Spec.markup c (SaleOrderLine.price_unit line))))
      (fun r => bind (float_of_int r)
         (fun v => ret [SaleOrderLine.set_markup_percentage v line]))
  /\ (PrimFloat.is_finite (Spec.markup c (SaleOrderLine.price_unit line))
      = true ->
      exists r v,
        round (Float (Spec.markup c (SaleOrderLine.price_unit line))) = ret r
        /\ float_of_int r = ret v
        /\ round (Float v) = ret r
        /\ SaleOrderLine._compute_markup_percentage [line]
           = ret [SaleOrderLine.set_markup_percentage v line])
  /\ SaleOrderLine._compute_markup_amount [line]
     = ret [SaleOrderLine.set_markup_amount
              (SaleOrderLine.price_unit line - c)%float line]
  /\ SaleOrderLine._compute_commission_amount [line]
     = ret [SaleOrderLine.set_commission_amount
              (if truthy (SaleOrderLine.price_subtotal line)
                  && truthy (SaleOrderLine.commission_factor line)
               then (SaleOrderLine.price_subtotal line
                     * SaleOrderLine.commission_factor line)%float
               else 0%float) line]
  /\ SaleOrderLine.compute_line table_20
       [order_line 1 100 (Some 80%float) 2 200]
     = ret [with_derived 20 20 0.010 2
              (order_line 1 100 (Some 80%float) 2 200)]
  /\ SaleOrderLine._compute_markup_percentage
       [order_line 1 100 (Some 83.33%float) 1 100]
     = ret [SaleOrderLine.set_markup_percentage 17
              (order_line 1 100 (Some 83.33%float) 1 100)].
Proof.
  intros Hc Hp Hcz.
  assert (Hg : truthy (SaleOrderLine.price_unit line)
               && truthy (read_float (SaleOrderLine.purchase_price line))
               = true).
  { rewrite Hc. simpl. rewrite Hp, Hcz. reflexivity. }
  split; [| split; [| split; [| split; [| split]]]].
  - rewrite _compute_markup_percentage_singleton, Hg, Hc. reflexivity.
  - intros Hfin.
    destruct (round_finite (Float _) Hfin) as [r Hr].
    destruct (float_of_int_round_float _ _ Hr) as (v & Hv & Hrv).
    exists r, v. repeat split; try assumption.
    rewrite _compute_markup_percentage_singleton, Hg, Hc. simpl read_float.
    rewrite Hr, bind_ret_l, Hv, bind_ret_l. reflexivity.
  - rewrite _compute_markup_amount_singleton, Hg, Hc. reflexivity.
  - apply _compute_commission_amount_singleton.
  - vm_compute. reflexivity.
  - vm_compute. reflexivity.
Qed.

Lemma compute_line_formulas_witness :
  (exists r v,
     round (Float (Spec.markup 80 100)) = ret r
     /\ float_of_int r = ret v
     /\ round (Float v) = ret r
     /\ SaleOrderLine._compute_markup_percentage
          [order_line 1 100 (Some 80%float) 2 200]
        = ret [SaleOrderLine.set_markup_percentage v
                 (order_line 1 100 (Some 80%float) 2 200)])
  /\ SaleOrderLine._compute_markup_amount
       [order_line 1 100 (Some 80%float) 2 200]
     = ret [SaleOrderLine.set_markup_amount (100 - 80)%float
              (order_line 1 100 (Some 80%float) 2 200)].
Proof.
  split.
  - refine (proj1 (proj2 (compute_line_formulas
              (order_line 1 100 (Some 80%float) 2 200) 80%float _ _ _)) _);
      reflexivity.
  - refine (proj1 (proj2 (proj2 (compute_line_formulas
              (order_line 1 100 (Some 80%float) 2 200) 80%float _ _ _))));
      reflexivity.
Defined.

Lemma no_markup_data_guard (line : SaleOrderLine.record) :
  no_markup_data line ->
  truthy (SaleOrderLine.price_unit line)
  && truthy (read_float (SaleOrderLine.purchase_price line)) = false.
Proof.
  unfold truthy. intros [H | [H | (c & H & Hz)]]; rewrite H; simpl.
  - reflexivity.
  - apply andb_false_r.
  - rewrite Hz. apply andb_false_r.
Qed.

(** C4: on a line without markup data the four derived fields are all
    [0.0], whatever the table holds; and on a line whose
    [markup_percentage] is zero the factor is [0.0] without a lookup, even
    though a lookup of 0 in a table with an active entry for 0 percent
    returns that entry's factor. *)
Theorem compute_line_zero (factors : CommissionFactor.table)
  (line : SaleOrderLine.record) :
  (no_markup_data line ->
   SaleOrderLine.compute_line factors [line]
   = ret [with_derived 0 0 0 0 line])
  /\ (PrimFloat.is_zero (SaleOrderLine.markup_percentage line) = true ->
      SaleOrderLine._compute_commission_factor factors [line]
      = ret [SaleOrderLine.set_commission_factor 0%float line])
  /\ CommissionFactor.get_commission_factor table_0 (Float 0) = ret 0.5%float.
Proof.
  split; [| split].
  - intros Hno. apply no_markup_data_guard in Hno.
    unfold SaleOrderLine.compute_line, mbind, M_bind.
    rewrite _compute_markup_percentage_singleton, Hno, bind_ret_l.
    rewrite _compute_markup_amount_singleton. simpl SaleOrderLine.price_unit.
    simpl SaleOrderLine.purchase_price. rewrite Hno, bind_ret_l.
    rewrite _compute_commission_factor_singleton.
    simpl SaleOrderLine.markup_percentage.
    change (truthy 0) with false. cbv iota. rewrite bind_ret_l.
    rewrite _compute_commission_amount_singleton.
    simpl SaleOrderLine.commission_factor.
    change (truthy 0) with false. rewrite andb_false_r. reflexivity.
  - intros Hz. rewrite _compute_commission_factor_singleton.
    unfold truthy. rewrite Hz. reflexivity.
  - vm_compute. reflexivity.
Qed.

Lemma compute_line_zero_witness :
  SaleOrderLine.compute_line table_0 [order_line 1 100 None 2 200]
  = ret [with_derived 0 0 0 0 (order_line 1 100 None 2 200)]
  /\ SaleOrderLine._compute_commission_factor table_0
       [order_line 1 100 None 2 200]
     = ret [SaleOrderLine.set_commission_factor 0%float
              (order_line 1 100 None 2 200)].
Proof.
  split.
  - apply (proj1 (compute_line_zero table_0 (order_line 1 100 None 2 200))).
    right. left. reflexivity.
  - apply (proj1 (proj2 (compute_line_zero table_0
                           (order_line 1 100 None 2 200)))).
    reflexivity.
Defined.

(** C10, as amended: on a line with non-zero price and cost whose markup
    formula rounds to a negative integer [r], the recomputation stores [r]
    as the line's [markup_percentage], performs the lookup (the log carries
    its "below minimum" record) and, on a table whose active entries have
    distinct, non-negative percentages, stores as the line's factor the
    factor of the active entry with the smallest percentage. *)
Theorem negative_markup_minimum_factor (factors : CommissionFactor.table)
  (line : SaleOrderLine.record) (c : float) (r : Z)
  (i : positive) (e : CommissionFactor.record) :
  SaleOrderLine.purchase_price line = Some c ->
  truthy (SaleOrderLine.price_unit line) = true ->
  truthy c = true ->
  round (Float (Spec.markup c (SaleOrderLine.price_unit line))) = ret r ->
  r < 0 ->
  CommissionFactor.unique_active factors ->
  (forall j e', Spec.active_entry factors j e' ->
     0 <= CommissionFactor.markup_percentage e') ->
  Spec.min_entry factors i e ->
  exists v,
    float_of_int r = ret v
    /\ round (Float v) = ret r
    /\ truthy v = true
    /\ SaleOrderLine.compute_line factors [line]
       = ([(INFO, BelowMinimum r (CommissionFactor.markup_percentage e)
                    (CommissionFactor.commission_factor e))],
          Ok [with_derived v
                (SaleOrderLine.price_unit line - c)%float
                (CommissionFactor.commission_factor e)
                (if truthy (SaleOrderLine.price_subtotal line)
                    && truthy (CommissionFactor.commission_factor e)
                 then (SaleOrderLine.price_subtotal line
                       * CommissionFactor.commission_factor e)%float
                 else 0%float)
                line]).
Proof.
  intros Hc Hp Hcz Hr Hneg Hu Hrange Hmin.
  destruct (float_of_int_round_float _ _ Hr) as (v & Hv & Hrv).
  assert (Ht : truthy v = true)
    by (apply (round_nonzero_truthy v r Hrv); lia).
  exists v. split; [exact Hv |]. split; [exact Hrv |]. split; [exact Ht |].
  assert (Hg : truthy (SaleOrderLine.price_unit line)
               && truthy (read_float (SaleOrderLine.purchase_price line))
               = true).
  { rewrite Hc. simpl. rewrite Hp, Hcz. reflexivity. }
  unfold SaleOrderLine.compute_line, mbind, M_bind.
  rewrite _compute_markup_percentage_singleton, Hg, Hc.
  simpl read_float. rewrite Hr, bind_ret_l, Hv, !bind_ret_l.
  rewrite _compute_markup_amount_singleton.
  simpl SaleOrderLine.price_unit. simpl SaleOrderLine.purchase_price.
  rewrite Hg, Hc, bind_ret_l. simpl read_float.
  rewrite _compute_commission_factor_singleton.
  simpl SaleOrderLine.markup_percentage. rewrite Ht.
  rewrite (get_commission_factor_rounded _ _ _ Hrv).
  rewrite (lookup_below factors r i e Hu Hmin).
  2:{ destruct Hmin as [He _]. specialize (Hrange i e He). lia. }
  unfold bind at 2. unfold ret at 1. cbv iota beta.
  unfold bind. rewrite _compute_commission_amount_singleton.
  reflexivity.
Qed.

Lemma table_20_min_entry :
  Spec.min_entry table_20 1%positive (factor_entry 20 0.010 true).
Proof.
  split; [split; reflexivity |].
  intros j e' [H _]. unfold table_20 in H.
  apply lookup_singleton_Some in H as [_ <-]. reflexivity.
Qed.

Lemma table_20_unique_active : CommissionFactor.unique_active table_20.
Proof.
  apply unique_active_by_rows.
  apply (bool_decide_eq_true_1 _). vm_compute. reflexivity.
Qed.

Lemma negative_markup_minimum_factor_witness :
  exists v,
    float_of_int (-25) = ret v
    /\ round (Float v) = ret (-25)
    /\ truthy v = true
    /\ SaleOrderLine.compute_line table_20 [line_100_125]
       = ([(INFO, BelowMinimum (-25) 20 0.010)],
          Ok [with_derived v (100 - 125)%float 0.010%float
                (if truthy 100 && truthy 0.010 then (100 * 0.010)%float
                 else 0%float)
                line_100_125]).
Proof.
  apply (negative_markup_minimum_factor table_20 line_100_125 125%float
           (-25) 1%positive (factor_entry 20 0.010 true)).
  - reflexivity.
  - reflexivity.
  - reflexivity.
  - reflexivity.
  - lia.
  - apply table_20_unique_active.
  - intros j e' [H _]. unfold table_20 in H.
    apply lookup_singleton_Some in H as [_ <-]. simpl. lia.
  - apply table_20_min_entry.
Defined.

(** C10 as stated fails: a cost above the price need not give a non-zero
    percentage.  Price 100 and cost 100.4 give -0.4, which rounds to 0:
    the lookup is skipped and the factor is [0.0], not the 0.010 of the
    smallest entry. *)
Lemma cost_above_price_counterexample :
  let line := order_line 1 100 (Some 100.4%float) 1 100 in
  truthy (SaleOrderLine.price_unit line) = true
  /\ truthy (read_float (SaleOrderLine.purchase_price line)) = true
  /\ (SaleOrderLine.price_unit line
      <? read_float (SaleOrderLine.purchase_price line))%float = true
  /\ Spec.min_entry table_20 1%positive (factor_entry 20 0.010 true)
  /\ exists out,
       SaleOrderLine.compute_line table_20 [line] = ret [out]
       /\ SaleOrderLine.markup_percentage out = 0%float
       /\ SaleOrderLine.commission_factor out = 0%float
       /\ SaleOrderLine.commission_factor out
          <> CommissionFactor.commission_factor (factor_entry 20 0.010 true).
Proof.
  cbv zeta.
  split; [reflexivity |]. split; [reflexivity |]. split; [reflexivity |].
  split; [apply table_20_min_entry |].
  eexists. split; [vm_compute; reflexivity |].
  split; [reflexivity |]. split; [reflexivity |].
  simpl. intros H.
  apply (f_equal (fun x => PrimFloat.eqb x 0)) in H.
  vm_compute in H. discriminate H.
Qed.

(** ** The accumulation loops of the order aggregator *)

Lemma cost_loop (lines : list SaleOrderLine.record) (acc : float) :
  fold_left
    (fun total_cost line =>
       if truthy (read_float (SaleOrderLine.purchase_price line))
          && truthy (SaleOrderLine.product_uom_qty line)
       then (total_cost
             + read_float (SaleOrderLine.purchase_price line)
               * SaleOrderLine.product_uom_qty line)%float
       else total_cost)
    lines acc
  = fold_left (fun a x => (a + x)%float)
      (map (fun l => (read_float (SaleOrderLine.purchase_price l)
                      * SaleOrderLine.product_uom_qty l)%float)
           (List.filter Spec.costed lines))
      acc.
Proof.
  revert acc. induction lines as [| line lines IH]; intros acc;
    [reflexivity |].
  simpl.
  change (truthy (read_float (SaleOrderLine.purchase_price line))
          && truthy (SaleOrderLine.product_uom_qty line))
    with (Spec.costed line).
  destruct (Spec.costed line); simpl; apply IH.
Qed.

Lemma weighted_loop (lines : list SaleOrderLine.record) (w s : float) :
  fold_left
    (fun '(total_weighted_factor, total_subtotal) line =>
       if truthy (SaleOrderLine.price_subtotal line)
          && truthy (SaleOrderLine.commission_factor line)
       then
         ((total_weighted_factor
           + SaleOrderLine.price_subtotal line
             * SaleOrderLine.commission_factor line)%float,
          (total_subtotal + SaleOrderLine.price_subtotal line)%float)
       else (total_weighted_factor, total_subtotal))
    lines (w, s)
  = (fold_left (fun a x => (a + x)%float)
       (map (fun l => (SaleOrderLine.price_subtotal l
                       * SaleOrderLine.commission_factor l)%float)
            (List.filter Spec.qualifying lines))
       w,
     fold_left (fun a x => (a + x)%float)
       (map SaleOrderLine.price_subtotal (List.filter Spec.qualifying lines))
       s).
Proof.
  revert w s. induction lines as [| line lines IH]; intros w s;
    [reflexivity |].
  simpl.
  change (truthy (SaleOrderLine.price_subtotal line)
          && truthy (SaleOrderLine.commission_factor line))
    with (Spec.qualifying line).
  destruct (Spec.qualifying line); simpl; apply IH.
Qed.

Lemma _compute_total_cost_amount_singleton (order : SaleOrder.record) :
  SaleOrder._compute_total_cost_amount [order]
  = ret [SaleOrder.set_total_cost_amount
           (Spec.total_cost (SaleOrder.order_line order)) order].
Proof.
  unfold SaleOrder._compute_total_cost_amount.
  rewrite for_records_singleton. cbv zeta.
  rewrite cost_loop. reflexivity.
Qed.

Lemma _compute_total_markup_percentage_singleton (order : SaleOrder.record) :
  SaleOrder._compute_total_markup_percentage [order]
  = if truthy (SaleOrder.amount_untaxed order)
       && truthy (SaleOrder.total_cost_amount order)
    then
      bind (round (Float (Spec.markup (SaleOrder.total_cost_amount order)
                            (SaleOrder.amount_untaxed order))))
        (fun r => bind (float_of_int r)
           (fun v => ret [SaleOrder.set_total_markup_percentage v order]))
    else ret [SaleOrder.set_total_markup_percentage 0%float order].
Proof.
  unfold SaleOrder._compute_total_markup_percentage.
  rewrite for_records_singleton.
  destruct (truthy (SaleOrder.amount_untaxed order)) eqn:Ha;
    [| reflexivity].
  destruct (truthy (SaleOrder.total_cost_amount order)) eqn:Hc;
    [| reflexivity].
  simpl andb. cbv iota. unfold mbind, M_bind.
  rewrite (truediv_truthy _ _ Ha), bind_ret_l.
  rewrite try_except_never.
  2:{ apply never_zero_division_bind; [apply never_zero_division_round |].
      intros r. apply never_zero_division_bind;
        [apply never_zero_division_float_of_int |].
      intros v. apply never_zero_division_ret. }
  rewrite bind_assoc. apply bind_ext. intros r. cbv beta.
  rewrite bind_assoc. apply bind_ext. intros v. cbv beta.
  rewrite bind_ret_l. reflexivity.
Qed.

Lemma _compute_total_commission_factor_singleton (order : SaleOrder.record) :
  SaleOrder._compute_total_commission_factor [order]
  = ret [SaleOrder.set_total_commission_factor
           (if truthy (SaleOrder.amount_untaxed order)
               && (0 <? Spec.weighted_denominator
                          (SaleOrder.order_line order))%float
            then (Spec.weighted_numerator (SaleOrder.order_line order)
                  / Spec.weighted_denominator (SaleOrder.order_line order))%float
            else 0%float) order].
Proof.
  unfold SaleOrder._compute_total_commission_factor.
  rewrite for_records_singleton.
  destruct (truthy (SaleOrder.amount_untaxed order)); [| reflexivity].
  simpl andb.
  destruct (bool_decide (SaleOrder.order_line order = [])) eqn:El.
  - apply bool_decide_eq_true in El. rewrite El. reflexivity.
  - simpl negb. cbv iota. rewrite weighted_loop.
    fold (Spec.fsum
            (map (fun l => (SaleOrderLine.price_subtotal l
                            * SaleOrderLine.commission_factor l)%float)
                 (List.filter Spec.qualifying (SaleOrder.order_line order)))).
    fold (Spec.fsum
            (map SaleOrderLine.price_subtotal
                 (List.filter Spec.qualifying (SaleOrder.order_line order)))).
    fold (Spec.weighted_numerator (SaleOrder.order_line order)).
    fold (Spec.weighted_denominator (SaleOrder.order_line order)).
    cbv beta iota.
    destruct (0 <? Spec.weighted_denominator (SaleOrder.order_line order))%float
      eqn:Hd; [| reflexivity].
    unfold mbind, M_bind. rewrite truediv_truthy, bind_ret_l.
    + reflexivity.
    + unfold truthy. rewrite (ltb_zero_not_zero _ Hd). reflexivity.
Qed.

Lemma _compute_total_commission_amount_singleton (order : SaleOrder.record) :
  SaleOrder._compute_total_commission_amount [order]
  = ret [SaleOrder.set_total_commission_amount
           (if truthy (SaleOrder.amount_untaxed order)
               && truthy (SaleOrder.total_commission_factor order)
            then (SaleOrder.amount_untaxed order
                  * SaleOrder.total_commission_factor order)%float
            else 0%float) order].
Proof.
  unfold SaleOrder._compute_total_commission_amount.
  rewrite for_records_singleton.
  destruct (_ && _); reflexivity.
Qed.

(** ** Claims on the order aggregator *)

(** C5, as amended: [total_commission_factor] is the subtotal-weighted
    average of the line factors over the lines whose subtotal and factor
    are both non-zero, sum(subtotal_i * factor_i) / sum(subtotal_i), when
    [amount_untaxed] is non-zero and that denominator is above zero, and
    [0.0] in every other case; [total_commission_amount] is
    [amount_untaxed * total_commission_factor], [0.0] when either is zero.
    Subtotals 200 and 100 with factors 0.010 and 0.004 give the factor
    0.008 and, on the total 300, the amount 2.4. *)
Theorem total_commission_weighted_average (order : SaleOrder.record) :
  SaleOrder._compute_total_commission_factor [order]
  = ret [SaleOrder.set_total_commission_factor
           (if truthy (SaleOrder.amount_untaxed order)
               && (0 <? Spec.weighted_denominator
                          (SaleOrder.order_line order))%float
            then (Spec.weighted_numerator (SaleOrder.order_line order)
                  / Spec.weighted_denominator (SaleOrder.order_line order))%float
            else 0%float) order]
  /\ SaleOrder._compute_total_commission_amount [order]
     = ret [SaleOrder.set_total_commission_amount
              (if truthy (SaleOrder.amount_untaxed order)
                  && truthy (SaleOrder.total_commission_factor order)
               then (SaleOrder.amount_untaxed order
                     * SaleOrder.total_commission_factor order)%float
               else 0%float) order]
  /\ exists computed,
       SaleOrder.compute_order_totals [order_300] = ret [computed]
       /\ SaleOrder.total_commission_factor computed = 0.008%float
       /\ SaleOrder.total_commission_amount computed = 2.4%float.
Proof.
  split; [apply _compute_total_commission_factor_singleton |].
  split; [apply _compute_total_commission_amount_singleton |].
  eexists. split; [vm_compute; reflexivity |].
  split; reflexivity.
Qed.

(** C5 as stated fails on an order whose qualifying subtotals sum below
    zero: the weighted average of the specification is 0.010, the code
    stores [0.0]. *)
Lemma weighted_average_counterexample :
  Spec.qualifying <$> SaleOrder.order_line order_return = [true]
  /\ Spec.weighted_average (SaleOrder.order_line order_return) = 0.010%float
  /\ SaleOrder._compute_total_commission_factor [order_return]
     = ret [SaleOrder.set_total_commission_factor 0%float order_return]
  /\ SaleOrder._compute_total_commission_factor [order_return]
     <> ret [SaleOrder.set_total_commission_factor
               (Spec.weighted_average (SaleOrder.order_line order_return))
               order_return].
Proof.
  split; [reflexivity |]. split; [reflexivity |].
  split; [vm_compute; reflexivity |].
  intros H.
  apply (f_equal (fun m =>
           match result m with
           | Ok [o] => PrimFloat.eqb (SaleOrder.total_commission_factor o) 0
           | _ => false
           end)) in H.
  vm_compute in H. discriminate H.
Qed.

(** A line whose cost is unset adds nothing to the total cost. *)
Lemma total_cost_skips_unset_cost line lines :
  SaleOrderLine.purchase_price line = None ->
  Spec.total_cost (line :: lines) = Spec.total_cost lines.
Proof.
  intros H. unfold Spec.total_cost. simpl.
  unfold Spec.costed at 1. rewrite H. reflexivity.
Qed.

(** C6: [total_cost_amount] is the sum of [unit_cost * quantity] over the
    lines whose cost and quantity are both set and non-zero;
    [total_markup_amount] is [amount_untaxed - total_cost_amount];
    [total_markup_percentage] is the rounded markup formula on
    (total cost, amount untaxed), [0.0] when either is zero.  Three lines
    with subtotals and costs 200/160, 150/120 and 150/135 give 415, 85
    and 17. *)
Theorem total_cost_and_markup (order : SaleOrder.record) :
  SaleOrder._compute_total_cost_amount [order]
  = ret [SaleOrder.set_total_cost_amount
           (Spec.total_cost (SaleOrder.order_line order)) order]
  /\ SaleOrder._compute_total_markup_amount [order]
     = ret [SaleOrder.set_total_markup_amount
              (SaleOrder.amount_untaxed order
               - SaleOrder.total_cost_amount order)%float order]
  /\ SaleOrder._compute_total_markup_percentage [order]
     = (if truthy (SaleOrder.amount_untaxed order)
           && truthy (SaleOrder.total_cost_amount order)
        then
          bind (round (Float (Spec.markup (SaleOrder.total_cost_amount order)
                                (SaleOrder.amount_untaxed order))))
            (fun r => bind (float_of_int r)
               (fun v => ret [SaleOrder.set_total_markup_percentage v order]))
        else ret [SaleOrder.set_total_markup_percentage 0%float order])
  /\ exists computed,
       SaleOrder.compute_order_totals [order_500] = ret [computed]
       /\ SaleOrder.total_cost_amount computed = 415%float
       /\ SaleOrder.total_markup_amount computed = 85%float
       /\ SaleOrder.total_markup_percentage computed = 17%float.
Proof.
  split; [apply _compute_total_cost_amount_singleton |].
  split; [reflexivity |].
  split; [apply _compute_total_markup_percentage_singleton |].
  eexists. split; [vm_compute; reflexivity |].
  repeat split; reflexivity.
Qed.

(** ** The guard on the vendor field *)

Lemma can_edit_iff_state db (line : SaleOrderLine.record) :
  SaleOrderLine.can_edit_product_vendor db line = true
  <-> SaleOrderLine.order_id_state db line = Some "draft"%string
      \/ SaleOrderLine.order_id_state db line = Some "sent"%string.
Proof.
  unfold SaleOrderLine.can_edit_product_vendor.
  destruct (SaleOrderLine.order_id_state db line) as [st |].
  - rewrite bool_decide_eq_true, !elem_of_cons, elem_of_nil.
    split; [intros [-> | [-> | []]]; auto |].
    intros [H | H]; inversion H; auto.
  - split; [discriminate | intros [H | H]; discriminate].
Qed.

Lemma vendor_guard_passes db self :
  (forall i, i ∈ self ->
     exists line, SaleOrderLine.line_table db !! i = Some line
       /\ SaleOrderLine.can_edit_product_vendor db line = true) ->
  vendor_guard db self = ret tt.
Proof.
  induction self as [| i self IH]; intros H; [reflexivity |].
  destruct (H i ltac:(left)) as (line & Hl & He).
  unfold vendor_guard in *. simpl.
  unfold mbind, M_bind, SaleOrderLine.browse. rewrite Hl, bind_ret_l, He.
  simpl negb. cbv iota. rewrite bind_ret_l.
  apply IH. intros j Hj. apply H. by right.
Qed.

Lemma vendor_guard_blocks db self i line :
  (forall j, j ∈ self -> is_Some (SaleOrderLine.line_table db !! j)) ->
  i ∈ self ->
  SaleOrderLine.line_table db !! i = Some line ->
  SaleOrderLine.can_edit_product_vendor db line = false ->
  vendor_guard db self = raise (ValidationError VendorLocked).
Proof.
  induction self as [| j self IH]; intros Hex Hi Hl He.
  - by apply elem_of_nil in Hi.
  - destruct (Hex j ltac:(left)) as [lj Hj].
    unfold vendor_guard in *. simpl.
    unfold mbind, M_bind, SaleOrderLine.browse. rewrite Hj, bind_ret_l.
    destruct (SaleOrderLine.can_edit_product_vendor db lj) eqn:Ej.
    + simpl negb. cbv iota. rewrite bind_ret_l.
      apply IH; auto.
      * intros k Hk. apply Hex. by right.
      * apply elem_of_cons in Hi as [-> | Hi]; [congruence | exact Hi].
    + reflexivity.
Qed.

Lemma write_unfold {value} super_write db self (vals : gmap string value) :
  SaleOrderLine.write super_write db self vals
  = match (if bool_decide (is_Some (vals !! "product_vendor_id"%string))
           then vendor_guard db self else ret tt) with
    | (l, Raise e) => (db, (l, Raise e))
    | (l, Ok _) =>
        let (db', r) := super_write db self vals in
        (db', (l ++ logs r, result r))
    end.
Proof. reflexivity. Qed.

Lemma write_passes {value} super_write db self (vals : gmap string value) :
  (if bool_decide (is_Some (vals !! "product_vendor_id"%string))
   then vendor_guard db self else ret tt) = ret tt ->
  SaleOrderLine.write super_write db self vals = super_write db self vals.
Proof.
  intros H. rewrite write_unfold, H. unfold ret.
  destruct (super_write db self vals) as [db' [l r]]. reflexivity.
Qed.

(** C8: a write that carries [product_vendor_id] to a line goes through to
    the host [write] when the state of the line's order, read at the time
    of the write, is "draft" or "sent", and otherwise raises the validation
    error and leaves the database, hence the field, as it was; so, where
    the host [write] succeeds, the write succeeds exactly in these two
    states.  A write that does not carry the field is the host [write]. *)
Theorem write_vendor_guard {value : Type}
  (super_write : SaleOrderLine.database -> list positive ->
                 gmap string value -> SaleOrderLine.database * M bool)
  (db : SaleOrderLine.database) (i : positive) (line : SaleOrderLine.record)
  (vals : gmap string value) :
  SaleOrderLine.line_table db !! i = Some line ->
  let editable :=
    SaleOrderLine.order_id_state db line = Some "draft"%string
    \/ SaleOrderLine.order_id_state db line = Some "sent"%string in
  (is_Some (vals !! "product_vendor_id"%string) ->
     (editable ->
      SaleOrderLine.write super_write db [i] vals = super_write db [i] vals)
     /\ (~ editable ->
         SaleOrderLine.write super_write db [i] vals
         = (db, raise (ValidationError VendorLocked)))
     /\ (result (super_write db [i] vals).2 = Ok true ->
         (result (SaleOrderLine.write super_write db [i] vals).2 = Ok true
          <-> editable)))
  /\ (vals !! "product_vendor_id"%string = None ->
      forall self,
        SaleOrderLine.write super_write db self vals
        = super_write db self vals).
Proof.
  intros Hl editable. split.
  - intros Hv.
    assert (Hpass : editable ->
              SaleOrderLine.write super_write db [i] vals
              = super_write db [i] vals).
    { intros He. apply write_passes.
      rewrite (bool_decide_eq_true_2 _ Hv).
      apply vendor_guard_passes. intros j Hj.
      apply list_elem_of_singleton in Hj as ->.
      exists line. split; [exact Hl | by apply can_edit_iff_state]. }
    assert (Hblock : ~ editable ->
              SaleOrderLine.write super_write db [i] vals
              = (db, raise (ValidationError VendorLocked))).
    { intros He. rewrite write_unfold, (bool_decide_eq_true_2 _ Hv).
      rewrite (vendor_guard_blocks db [i] i line); [reflexivity | | | |].
      - intros j Hj. apply list_elem_of_singleton in Hj as ->. eauto.
      - left.
      - exact Hl.
      - destruct (SaleOrderLine.can_edit_product_vendor db line) eqn:E;
          [| reflexivity].
        exfalso. apply He. by apply can_edit_iff_state. }
    split; [exact Hpass |]. split; [exact Hblock |].
    intros Hhost. split.
    + intros Hok.
      destruct (SaleOrderLine.can_edit_product_vendor db line) eqn:E.
      * by apply can_edit_iff_state.
      * rewrite Hblock in Hok; [discriminate Hok |].
        intros He. apply can_edit_iff_state in He. congruence.
    + intros He. rewrite (Hpass He). exact Hhost.
  - intros Hnone self. apply write_passes.
    rewrite bool_decide_eq_false_2; [reflexivity |].
    rewrite Hnone. by intros [? ?].
Qed.

Lemma write_vendor_guard_witness :
  SaleOrderLine.write host_write example_database [1%positive] vendor_vals
  = host_write example_database [1%positive] vendor_vals
  /\ SaleOrderLine.write host_write example_database [2%positive] vendor_vals
     = (example_database, raise (ValidationError VendorLocked))
  /\ SaleOrderLine.write host_write example_database [2%positive]
       (∅ : gmap string (option positive))
     = host_write example_database [2%positive] ∅.
Proof.
  split; [| split].
  - refine (proj1 (proj1 (write_vendor_guard host_write example_database
              1%positive (line_of_order 1 7) vendor_vals _) _) _).
    + reflexivity.
    + exists (Some 6%positive). reflexivity.
    + left. reflexivity.
  - refine (proj1 (proj2 (proj1 (write_vendor_guard host_write
              example_database 2%positive (line_of_order 2 8) vendor_vals _)
              _)) _).
    + reflexivity.
    + exists (Some 6%positive). reflexivity.
    + intros [H | H]; vm_compute in H; discriminate H.
  - refine (proj2 (write_vendor_guard host_write example_database
              2%positive (line_of_order 2 8) ∅ _) _ [2%positive]).
    + reflexivity.
    + reflexivity.
Defined.

(** ** Uniqueness among active entries and the write path *)

Lemma for_each_Ok_inv {A} (xs : list A) (body : A -> M unit) l u :
  for_each xs body = (l, Ok u) ->
  forall x, x ∈ xs -> exists l', body x = (l', Ok tt).
Proof.
  revert l. induction xs as [| a xs IH]; intros l H x Hx.
  - by apply elem_of_nil in Hx.
  - simpl in H. apply bind_Ok_inv in H as (l1 & [] & l2 & Ha & Hrest & _).
    apply elem_of_cons in Hx as [-> | Hx]; eauto.
Qed.

(** A passing uniqueness check: every record of the set exists, and no
    other active row carries its percentage. *)
Lemma _check_unique_markup_percentage_Ok t self l u :
  CommissionFactor._check_unique_markup_percentage t self = (l, Ok u) ->
  forall i, i ∈ self ->
    exists r, t !! i = Some r
      /\ forall j rj, t !! j = Some rj ->
           CommissionFactor.active rj = true ->
           CommissionFactor.markup_percentage rj
           = CommissionFactor.markup_percentage r ->
           j = i.
Proof.
  intros H i Hi.
  destruct (for_each_Ok_inv _ _ _ _ H i Hi) as [l' Hb].
  unfold mbind, M_bind, CommissionFactor.browse in Hb.
  destruct (t !! i) as [r |] eqn:Hr; [| discriminate Hb].
  rewrite bind_ret_l in Hb.
  exists r. split; [reflexivity |]. intros j rj Hj Ha Hp.
  destruct (decide (j = i)) as [-> | Hne]; [reflexivity | exfalso].
  match type of Hb with
  | context [CommissionFactor.search t ?d] =>
      assert (Hin : (j, rj) ∈ CommissionFactor.search t d)
  end.
  { apply elem_of_search. split; [exact Hj |].
    rewrite Hp, Ha, Z.eqb_refl. simpl.
    apply Pos.eqb_neq in Hne. rewrite Hne. reflexivity. }
  destruct (CommissionFactor.search t _); [| discriminate Hb].
  by apply elem_of_nil in Hin.
Qed.

Lemma _validate_fields_unique t self names l u :
  CommissionFactor._validate_fields t self names = (l, Ok u) ->
  CommissionFactor.triggered ["markup_percentage"%string] names = true ->
  exists l',
    CommissionFactor._check_unique_markup_percentage t self = (l', Ok tt).
Proof.
  intros H Ht. unfold CommissionFactor._validate_fields in H.
  pose proof (for_each_Ok_inv _ _ _ _ H
    (["markup_percentage"%string],
     CommissionFactor._check_unique_markup_percentage)) as Hc.
  cbv beta iota delta [fst snd] in Hc. rewrite Ht in Hc. apply Hc.
  unfold CommissionFactor.constraint_methods. right. right. left.
Qed.

Lemma store_lookup_other t self v i :
  i ∉ self -> CommissionFactor.store t self v !! i = t !! i.
Proof.
  induction self as [| j self IH]; intros Hi; [reflexivity |].
  apply not_elem_of_cons in Hi as [Hne Hi].
  simpl. rewrite lookup_alter_ne by congruence. by apply IH.
Qed.

(** A successful [write] that carries [markup_percentage] keeps the
    percentages of the active entries distinct. *)
Lemma write_markup_preserves_unique_active t self v t' l b :
  CommissionFactor.unique_active t ->
  is_Some (CommissionFactor.v_markup_percentage v) ->
  CommissionFactor.write t self v = (t', (l, Ok b)) ->
  CommissionFactor.unique_active t'.
Proof.
  intros Hu Hm Hw. unfold CommissionFactor.write in Hw.
  destruct (CommissionFactor._validate_fields _ _ _) as [l0 [u | e]] eqn:Hv;
    [| discriminate Hw].
  inversion Hw; subst. clear Hw.
  destruct (_validate_fields_unique _ _ _ _ _ Hv) as [l' Hc].
  { unfold CommissionFactor.keys.
    rewrite (bool_decide_eq_true_2 _ Hm). reflexivity. }
  pose proof (_check_unique_markup_percentage_Ok _ _ _ _ Hc) as Hchk.
  intros i j ri rj Hi Hj Hai Haj Hp.
  destruct (decide (i ∈ self)) as [Hin | Hni].
  - destruct (Hchk i Hin) as (r & Hr & Hother).
    assert (r = ri) by congruence. subst r.
    symmetry. apply (Hother j rj Hj Haj). congruence.
  - destruct (decide (j ∈ self)) as [Hjn | Hnj].
    + destruct (Hchk j Hjn) as (r & Hr & Hother).
      assert (r = rj) by congruence. subst r.
      apply (Hother i ri Hi Hai). congruence.
    + rewrite store_lookup_other in Hi, Hj by assumption.
      eapply Hu; eauto.
Qed.

Lemma apply_vals_idempotent v r :
  CommissionFactor.apply_vals v (CommissionFactor.apply_vals v r)
  = CommissionFactor.apply_vals v r.
Proof.
  destruct v as [[p |] [f |] [a |]]; reflexivity.
Qed.

Lemma store_lookup_Some t self v i r' :
  CommissionFactor.store t self v !! i = Some r' ->
  exists r, t !! i = Some r
    /\ (r' = r \/ r' = CommissionFactor.apply_vals v r).
Proof.
  revert r'. induction self as [| j self IH]; intros r' H; [eauto |].
  simpl in H. destruct (decide (j = i)) as [-> | Hne].
  - rewrite lookup_alter_eq in H.
    destruct (CommissionFactor.store t self v !! i) as [r1 |] eqn:E;
      [| discriminate H].
    simpl in H. inversion H; subst r'.
    destruct (IH r1 eq_refl) as (r & Hr & [-> | ->]); exists r;
      rewrite ?apply_vals_idempotent; auto.
  - rewrite lookup_alter_ne in H by exact Hne. by apply IH.
Qed.

(** A successful [write] that carries neither [markup_percentage] nor
    [active = True] keeps them distinct too: it activates nothing and moves
    no percentage. *)
Lemma write_other_preserves_unique_active t self v t' l b :
  CommissionFactor.unique_active t ->
  CommissionFactor.v_markup_percentage v = None ->
  CommissionFactor.v_active v <> Some true ->
  CommissionFactor.write t self v = (t', (l, Ok b)) ->
  CommissionFactor.unique_active t'.
Proof.
  intros Hu Hm Ha Hw. unfold CommissionFactor.write in Hw.
  destruct (CommissionFactor._validate_fields _ _ _) as [l0 [u | e]];
    [| discriminate Hw].
  inversion Hw; subst. clear Hw.
  assert (Hkeep : forall i r', CommissionFactor.store t self v !! i = Some r' ->
            CommissionFactor.active r' = true ->
            exists r, t !! i = Some r /\ CommissionFactor.active r = true
              /\ CommissionFactor.markup_percentage r
                 = CommissionFactor.markup_percentage r').
  { intros i r' Hi Hact.
    destruct (store_lookup_Some _ _ _ _ _ Hi) as (r & Hr & [-> | ->]);
      exists r; [auto |].
    unfold CommissionFactor.apply_vals in *. rewrite Hm in *. simpl in *.
    destruct (CommissionFactor.v_active v) as [[|] |]; simpl in *;
      [congruence | discriminate | auto]. }
  intros i j ri rj Hi Hj Hai Haj Hp.
  destruct (Hkeep i ri Hi Hai) as (r1 & H1 & A1 & P1).
  destruct (Hkeep j rj Hj Haj) as (r2 & H2 & A2 & P2).
  eapply Hu; eauto. congruence.
Qed.

(** A successful [create] keeps them distinct as well. *)
Lemma create_preserves_unique_active t pct factor act t' l id :
  CommissionFactor.unique_active t ->
  CommissionFactor.create t pct factor act = (t', (l, Ok id)) ->
  CommissionFactor.unique_active t'.
Proof.
  intros Hu Hw. unfold CommissionFactor.create in Hw.
  destruct (CommissionFactor._validate_fields _ _ _) as [l0 [u | e]] eqn:Hv;
    [| discriminate Hw].
  inversion Hw; subst. clear Hw.
  destruct (_validate_fields_unique _ _ _ _ _ Hv) as [l' Hc];
    [reflexivity |].
  pose proof (_check_unique_markup_percentage_Ok _ _ _ _ Hc
                (fresh (dom t)) ltac:(left)) as (r & Hr & Hother).
  intros i j ri rj Hi Hj Hai Haj Hp.
  destruct (decide (i = fresh (dom t))) as [-> | Hni].
  - assert (r = ri) by congruence. subst r.
    symmetry. apply (Hother j rj Hj Haj). congruence.
  - destruct (decide (j = fresh (dom t))) as [-> | Hnj].
    + assert (r = rj) by congruence. subst r.
      apply (Hother i ri Hi Hai). congruence.
    + rewrite lookup_insert_ne in Hi, Hj by congruence.
      eapply Hu; eauto.
Qed.

(** *** The reactivation scenario *)

(** C9, the failing input: create an entry for 15 percent, deactivate it,
    create a second entry for 15 percent, then reactivate the first with a
    write that carries only [active].  Every step succeeds: the uniqueness
    check is declared on [markup_percentage] alone, so the last write runs
    no check.  The table then holds two active entries for 15 percent, and
    a lookup of 15 raises. *)
Theorem reactivation_breaks_uniqueness :
  CommissionFactor.create ∅ 15 0.004 None
  = ({[1%positive := factor_entry 15 0.004 true]}, ret 1%positive)
  /\ CommissionFactor.write {[1%positive := factor_entry 15 0.004 true]}
       [1%positive] (only_active false)
     = ({[1%positive := factor_entry 15 0.004 false]}, ret true)
  /\ CommissionFactor.create {[1%positive := factor_entry 15 0.004 false]}
       15 0.006 None
     = (table_15_reused, ret 2%positive)
  /\ CommissionFactor.unique_active table_15_reused
  /\ CommissionFactor.write table_15_reused [1%positive] (only_active true)
     = (table_15_twice, ret true)
  /\ ~ CommissionFactor.unique_active table_15_twice
  /\ CommissionFactor.get_commission_factor table_15_twice (Float 15)
     = raise ValueError.
Proof.
  split; [vm_compute; reflexivity |].
  split; [vm_compute; reflexivity |].
  split; [vm_compute; reflexivity |].
  split.
  { apply unique_active_by_rows.
    apply (bool_decide_eq_true_1 _). vm_compute. reflexivity. }
  split; [vm_compute; reflexivity |].
  split; [| vm_compute; reflexivity].
  intros Hu.
  specialize (Hu 1%positive 2%positive (factor_entry 15 0.004 true)
                (factor_entry 15 0.006 true)).
  discriminate Hu; reflexivity.
Qed.

(** ** The cases of the test suite

    The assertions of [tests/test_commission_calculation.py] on the lookup
    and on the line calculator, evaluated on the embedding. *)

Example test_suite_lookups :
  let lookup (p : float) :=
    result (CommissionFactor.get_commission_factor table_10_15_20_30
              (Float p)) in
  (lookup 15 = Ok 0.004 /\ lookup 20 = Ok 0.010
   /\ lookup 5 = Ok 0.002 /\ lookup 8 = Ok 0.002
   /\ lookup 35 = Ok 0.015 /\ lookup 50 = Ok 0.015
   /\ lookup 17 = Ok 0
   /\ lookup 14.4 = Ok 0 /\ lookup 14.6 = Ok 0.004)%float.
Proof. vm_compute. repeat split. Qed.

Example test_suite_lines :
  result (SaleOrderLine.compute_line table_10_15_20_30
            [order_line 1 100 (Some 95%float) 1 100])
  = Ok [with_derived 5 (100 - 95) 0.002 (100 * 0.002)
          (order_line 1 100 (Some 95%float) 1 100)]
  /\ result (SaleOrderLine.compute_line table_10_15_20_30
               [order_line 2 100 (Some 60%float) 1 100])
     = Ok [with_derived 40 (100 - 60) 0.015 (100 * 0.015)
             (order_line 2 100 (Some 60%float) 1 100)]
  /\ result (SaleOrderLine.compute_line table_10_15_20_30
               [order_line 3 100 (Some 100%float) 1 100])
     = Ok [with_derived 0 0 0 0 (order_line 3 100 (Some 100%float) 1 100)].
Proof. vm_compute. repeat split. Qed.
(** ** The write path of the factor table: what every table satisfies *)

Lemma _validate_fields_Ok t self names l u
  (c : list string * (CommissionFactor.table -> list positive -> M unit)) :
  CommissionFactor._validate_fields t self names = (l, Ok u) ->
  c ∈ CommissionFactor.constraint_methods ->
  CommissionFactor.triggered c.1 names = true ->
  exists l', c.2 t self = (l', Ok tt).
Proof.
  intros H Hc Ht. unfold CommissionFactor._validate_fields in H.
  destruct (for_each_Ok_inv _ _ _ _ H c Hc) as [l' Hb].
  cbv beta in Hb. rewrite Ht in Hb. eauto.
Qed.

Lemma _check_markup_percentage_Ok t self l u :
  CommissionFactor._check_markup_percentage t self = (l, Ok u) ->
  forall i, i ∈ self ->
    exists r, t !! i = Some r
      /\ 0 <= CommissionFactor.markup_percentage r <= 1000.
Proof.
  intros H i Hi.
  destruct (for_each_Ok_inv _ _ _ _ H i Hi) as [l' Hb].
  unfold mbind, M_bind, CommissionFactor.browse in Hb.
  destruct (t !! i) as [r |] eqn:Hr; [| discriminate Hb].
  rewrite bind_ret_l in Hb. exists r. split; [reflexivity |].
  destruct (Z.ltb_spec (CommissionFactor.markup_percentage r) 0);
    [discriminate Hb |].
  destruct (Z.ltb_spec 1000 (CommissionFactor.markup_percentage r));
    [discriminate Hb | lia].
Qed.

Lemma _check_commission_factor_Ok t self l u :
  CommissionFactor._check_commission_factor t self = (l, Ok u) ->
  forall i, i ∈ self ->
    exists r, t !! i = Some r
      /\ (CommissionFactor.commission_factor r <? 0)%float = false
      /\ (1 <? CommissionFactor.commission_factor r)%float = false.
Proof.
  intros H i Hi.
  destruct (for_each_Ok_inv _ _ _ _ H i Hi) as [l' Hb].
  unfold mbind, M_bind, CommissionFactor.browse in Hb.
  destruct (t !! i) as [r |] eqn:Hr; [| discriminate Hb].
  rewrite bind_ret_l in Hb. exists r. split; [reflexivity |].
  destruct (CommissionFactor.commission_factor r <? 0)%float;
    [discriminate Hb |].
  destruct (1 <? CommissionFactor.commission_factor r)%float;
    [discriminate Hb | auto].
Qed.

Lemma triggered_markup v :
  is_Some (CommissionFactor.v_markup_percentage v) ->
  CommissionFactor.triggered ["markup_percentage"%string]
    (CommissionFactor.keys v) = true.
Proof.
  intros H. unfold CommissionFactor.keys.
  rewrite (bool_decide_eq_true_2 _ H). reflexivity.
Qed.

Lemma triggered_factor v :
  is_Some (CommissionFactor.v_commission_factor v) ->
  CommissionFactor.triggered ["commission_factor"%string]
    (CommissionFactor.keys v) = true.
Proof.
  intros H. unfold CommissionFactor.keys.
  rewrite (bool_decide_eq_true_2 _ H).
  destruct (bool_decide _); reflexivity.
Qed.

Lemma write_Ok_inv t self v t' l b :
  CommissionFactor.write t self v = (t', (l, Ok b)) ->
  t' = CommissionFactor.store t self v
  /\ exists u, CommissionFactor._validate_fields t' self
                 (CommissionFactor.keys v) = (l, Ok u).
Proof.
  unfold CommissionFactor.write. intros H.
  destruct (CommissionFactor._validate_fields _ _ _) as [l0 [u | e]] eqn:Hv;
    [| discriminate H].
  inversion H; subst. eauto.
Qed.

Lemma create_Ok_inv t pct factor act t' l id :
  CommissionFactor.create t pct factor act = (t', (l, Ok id)) ->
  id = fresh (dom t)
  /\ t' = <[id := created_row pct factor act]> t
  /\ exists u, CommissionFactor._validate_fields t' [id]
                 ["markup_percentage"; "commission_factor"; "active"]%string
               = (l, Ok u).
Proof.
  unfold CommissionFactor.create. intros H.
  destruct (CommissionFactor._validate_fields _ _ _) as [l0 [u | e]] eqn:Hv;
    [| discriminate H].
  inversion H; subst. eauto.
Qed.

Lemma store_lookup_in t self v i :
  i ∈ self ->
  CommissionFactor.store t self v !! i
  = CommissionFactor.apply_vals v <$> t !! i.
Proof.
  induction self as [| j self IH]; intros Hi; [by apply elem_of_nil in Hi |].
  simpl. destruct (decide (j = i)) as [-> | Hne].
  - rewrite lookup_alter_eq.
    destruct (decide (i ∈ self)) as [Hin | Hni].
    + rewrite (IH Hin). destruct (t !! i); simpl; [| reflexivity].
      by rewrite apply_vals_idempotent.
    + by rewrite store_lookup_other.
  - rewrite lookup_alter_ne by exact Hne. apply IH.
    apply elem_of_cons in Hi as [-> | Hi]; [congruence | exact Hi].
Qed.

Lemma orm_step_markup_in_range t t' :
  markup_in_range t -> orm_step t t' -> markup_in_range t'.
Proof.
  intros Hr [pct factor act t1 l id Hc | self v t1 l b Hw].
  - apply create_Ok_inv in Hc as (-> & -> & u & Hv).
    destruct (_validate_fields_Ok _ _ _ _ _
                (["markup_percentage"%string],
                 CommissionFactor._check_markup_percentage) Hv)
      as [l' Hchk]; [left | reflexivity |].
    intros i r Hi.
    destruct (decide (i = fresh (dom t))) as [-> | Hne].
    + destruct (_check_markup_percentage_Ok _ _ _ _ Hchk
                  (fresh (dom t)) ltac:(left)) as (r0 & Hr0 & Hb).
      simpl in Hr0. congruence.
    + rewrite lookup_insert_ne in Hi by congruence. eauto.
  - apply write_Ok_inv in Hw as (-> & u & Hv).
    intros i r Hi.
    destruct (CommissionFactor.v_markup_percentage v) as [p |] eqn:Hp.
    + destruct (decide (i ∈ self)) as [Hin | Hni].
      * destruct (_validate_fields_Ok _ _ _ _ _
                    (["markup_percentage"%string],
                     CommissionFactor._check_markup_percentage) Hv)
          as [l' Hchk]; [left | apply triggered_markup; rewrite Hp; eauto |].
        destruct (_check_markup_percentage_Ok _ _ _ _ Hchk i Hin)
          as (r0 & Hr0 & Hb).
        simpl in Hr0. congruence.
      * rewrite store_lookup_other in Hi by exact Hni. eauto.
    + destruct (store_lookup_Some _ _ _ _ _ Hi) as (r0 & Hr0 & [-> | ->]);
        [eauto |].
      unfold CommissionFactor.apply_vals. rewrite Hp. simpl. eauto.
Qed.

Lemma orm_step_factor_in_range t t' :
  factor_in_range t -> orm_step t t' -> factor_in_range t'.
Proof.
  intros Hr [pct factor act t1 l id Hc | self v t1 l b Hw].
  - apply create_Ok_inv in Hc as (-> & -> & u & Hv).
    destruct (_validate_fields_Ok _ _ _ _ _
                (["commission_factor"%string],
                 CommissionFactor._check_commission_factor) Hv)
      as [l' Hchk]; [right; left | reflexivity |].
    intros i r Hi.
    destruct (decide (i = fresh (dom t))) as [-> | Hne].
    + destruct (_check_commission_factor_Ok _ _ _ _ Hchk
                  (fresh (dom t)) ltac:(left)) as (r0 & Hr0 & Hb).
      simpl in Hr0. congruence.
    + rewrite lookup_insert_ne in Hi by congruence. eauto.
  - apply write_Ok_inv in Hw as (-> & u & Hv).
    intros i r Hi.
    destruct (CommissionFactor.v_commission_factor v) as [p |] eqn:Hp.
    + destruct (decide (i ∈ self)) as [Hin | Hni].
      * destruct (_validate_fields_Ok _ _ _ _ _
                    (["commission_factor"%string],
                     CommissionFactor._check_commission_factor) Hv)
          as [l' Hchk];
          [right; left | apply triggered_factor; rewrite Hp; eauto |].
        destruct (_check_commission_factor_Ok _ _ _ _ Hchk i Hin)
          as (r0 & Hr0 & Hb).
        simpl in Hr0. congruence.
      * rewrite store_lookup_other in Hi by exact Hni. eauto.
    + destruct (store_lookup_Some _ _ _ _ _ Hi) as (r0 & Hr0 & [-> | ->]);
        [eauto |].
      unfold CommissionFactor.apply_vals. rewrite Hp. simpl. eauto.
Qed.

(** X1: every table the write path produces from the empty table, by any
    sequence of successful [create]s and [write]s, holds only percentages
    between 0 and 1000 and only factors that are neither below 0 nor
    above 1. *)
Theorem reachable_in_range (t : CommissionFactor.table) :
  reachable t -> markup_in_range t /\ factor_in_range t.
Proof.
  induction 1 as [| t t' _ [IHm IHf] Hstep].
  - split; intros i r Hi; by rewrite stdpp.fin_maps.lookup_empty in Hi.
  - split; [eapply orm_step_markup_in_range | eapply orm_step_factor_in_range];
      eauto.
Qed.

Lemma reactivation_steps :
  CommissionFactor.create ∅ 15 0.004 None
  = ({[1%positive := factor_entry 15 0.004 true]}, ret 1%positive)
  /\ CommissionFactor.write {[1%positive := factor_entry 15 0.004 true]}
       [1%positive] (only_active false)
     = ({[1%positive := factor_entry 15 0.004 false]}, ret true)
  /\ CommissionFactor.create {[1%positive := factor_entry 15 0.004 false]}
       15 0.006 None
     = (table_15_reused, ret 2%positive)
  /\ CommissionFactor.write table_15_reused [1%positive] (only_active true)
     = (table_15_twice, ret true).
Proof. repeat split; vm_compute; reflexivity. Qed.

Lemma reachable_table_15_reused : reachable table_15_reused.
Proof.
  destruct reactivation_steps as (H1 & H2 & H3 & _).
  eapply reachable_step; [| eapply step_create; exact H3].
  eapply reachable_step; [| eapply step_write; exact H2].
  eapply reachable_step; [| eapply step_create; exact H1].
  apply reachable_empty.
Qed.

Lemma reachable_table_15_twice : reachable table_15_twice.
Proof.
  destruct reactivation_steps as (_ & _ & _ & H4).
  eapply reachable_step; [apply reachable_table_15_reused |].
  eapply step_write; exact H4.
Qed.

Lemma reachable_in_range_witness :
  markup_in_range table_15_twice /\ factor_in_range table_15_twice.
Proof. apply (reachable_in_range table_15_twice reachable_table_15_twice). Defined.

(** *** When a [create] succeeds *)

Lemma fresh_lookup_None (t : CommissionFactor.table) :
  t !! fresh (dom t) = None.
Proof. apply not_elem_of_dom, is_fresh. Qed.

Lemma search_other_nil t id row pct :
  t !! id = None ->
  CommissionFactor.search (<[id := row]> t)
    (fun i r =>
       (CommissionFactor.markup_percentage r =? pct)
       && negb (Pos.eqb i id)
       && Bool.eqb (CommissionFactor.active r) true) = []
  <-> free_among_active t pct.
Proof.
  intros Hid. split.
  - intros Hnil j rj Hj Ha Hp.
    assert (Hne : j <> id) by congruence.
    assert (Hin : (j, rj) ∈ @nil (positive * CommissionFactor.record));
      [| by apply elem_of_nil in Hin].
    rewrite <- Hnil. apply elem_of_search.
    split; [by rewrite lookup_insert_ne |].
    rewrite Hp, Ha, Z.eqb_refl. apply Pos.eqb_neq in Hne. rewrite Hne.
    reflexivity.
  - intros Hfree. apply search_nil. intros j rj Hj.
    destruct (Pos.eqb_spec j id) as [-> | Hne];
      [by rewrite andb_false_r |].
    rewrite lookup_insert_ne in Hj by congruence.
    destruct (CommissionFactor.active rj) eqn:Ha;
      [| by rewrite andb_false_r].
    destruct (Z.eqb_spec (CommissionFactor.markup_percentage rj) pct) as [E |];
      [| reflexivity].
    destruct (Hfree j rj Hj Ha E).
Qed.

(** X2: a [create] succeeds exactly when the percentage is between 0 and
    1000, the factor is neither below 0 nor above 1, and no active row
    holds the percentage, whether the new row is active or not.  It then
    stores the row under an id the table did not have; otherwise the table
    is left as it was. *)
Theorem create_succeeds_iff (t : CommissionFactor.table) (pct : Z)
  (factor : float) (act : option bool) :
  let accepted :=
    0 <= pct <= 1000
    /\ (factor <? 0)%float = false /\ (1 <? factor)%float = false
    /\ free_among_active t pct in
  (accepted ->
   t !! fresh (dom t) = None
   /\ CommissionFactor.create t pct factor act
      = (<[fresh (dom t) := created_row pct factor act]> t,
         ret (fresh (dom t))))
  /\ (~ accepted ->
      exists l msg,
        CommissionFactor.create t pct factor act
        = (t, (l, Raise (ValidationError msg)))).
Proof.
  cbv zeta.
  pose proof (fresh_lookup_None t) as Hid.
  pose proof (search_other_nil t (fresh (dom t))
                (created_row pct factor act) pct Hid) as Hsearch.
  unfold CommissionFactor.create, CommissionFactor._validate_fields.
  fold (created_row pct factor act).
  simpl for_each.
  unfold CommissionFactor._check_markup_percentage,
    CommissionFactor._check_commission_factor,
    CommissionFactor._check_unique_markup_percentage.
  simpl for_each. unfold mbind, M_bind, CommissionFactor.browse.
  rewrite lookup_insert_eq, !bind_ret_l.
  simpl CommissionFactor.markup_percentage.
  simpl CommissionFactor.commission_factor.
  destruct (Z.ltb_spec pct 0) as [Hlo | Hlo].
  { split; [intros (? & _); lia | intros _; eexists _, _; reflexivity]. }
  destruct (Z.ltb_spec 1000 pct) as [Hhi | Hhi].
  { split; [intros (? & _); lia | intros _; eexists _, _; reflexivity]. }
  rewrite !bind_ret_l.
  destruct (factor <? 0)%float eqn:Hf0.
  { split; [intros (_ & ? & _); discriminate
           | intros _; eexists _, _; reflexivity]. }
  destruct (1 <? factor)%float eqn:Hf1.
  { split; [intros (_ & _ & ? & _); discriminate
           | intros _; eexists _, _; reflexivity]. }
  rewrite !bind_ret_l.
  destruct (CommissionFactor.search _ _) as [| x xs] eqn:Hs.
  - split; [intros _; split; [exact Hid | reflexivity] |].
    intros Hn. exfalso. apply Hn. repeat split; try lia.
    by apply Hsearch.
  - split; [| intros _; eexists _, _; reflexivity].
    intros (_ & _ & _ & Hfree). apply Hsearch in Hfree. discriminate Hfree.
Qed.

Lemma create_succeeds_iff_witness :
  (table_15_reused !! fresh (dom table_15_reused) = None
   /\ CommissionFactor.create table_15_reused 20 0.010 None
      = (<[fresh (dom table_15_reused) := created_row 20 0.010 None]>
           table_15_reused,
         ret (fresh (dom table_15_reused))))
  /\ exists l msg,
       CommissionFactor.create table_15_reused 15 0.010 (Some false)
       = (table_15_reused, (l, Raise (ValidationError msg))).
Proof.
  split.
  - apply (proj1 (create_succeeds_iff table_15_reused 20 0.010 None)).
    split; [lia |]. split; [reflexivity |]. split; [reflexivity |].
    intros j rj Hj _. unfold table_15_reused in Hj.
    apply lookup_insert_Some in Hj as [[_ <-] | [_ Hj]]; [discriminate |].
    apply lookup_singleton_Some in Hj as [_ <-]. discriminate.
  - apply (proj2 (create_succeeds_iff table_15_reused 15 0.010 (Some false))).
    intros (_ & _ & _ & Hfree).
    apply (Hfree 2%positive (factor_entry 15 0.006 true)); reflexivity.
Defined.

(** *** Writes that carry only [active] *)

(** X3: a [write] whose values carry only [active] runs no constraint
    method: it always succeeds, on any table and any set of ids, sets the
    flag on the rows of the set and touches nothing else. *)
Theorem write_only_active_succeeds (t : CommissionFactor.table)
  (self : list positive) (b : bool) :
  CommissionFactor.write t self (only_active b)
  = (CommissionFactor.store t self (only_active b), ret true)
  /\ (forall i, i ∈ self ->
        CommissionFactor.store t self (only_active b) !! i
        = (fun r => {| CommissionFactor.markup_percentage :=
                         CommissionFactor.markup_percentage r;
                       CommissionFactor.commission_factor :=
                         CommissionFactor.commission_factor r;
                       CommissionFactor.active := b |}) <$> t !! i)
  /\ (forall i, i ∉ self ->
        CommissionFactor.store t self (only_active b) !! i = t !! i).
Proof.
  split; [reflexivity |]. split.
  - intros i Hi. by rewrite store_lookup_in.
  - intros i Hi. by apply store_lookup_other.
Qed.

Lemma write_only_active_succeeds_witness :
  CommissionFactor.store table_15_reused [1%positive] (only_active true)
    !! 1%positive
  = Some (factor_entry 15 0.004 true).
Proof.
  refine (proj1 (proj2 (write_only_active_succeeds table_15_reused
            [1%positive] true)) 1%positive _).
  left.
Defined.

(** X4: once every row of the table has been deactivated by one [write],
    the lookup of every number returns [0.0] with the warning. *)
Theorem deactivate_all_then_lookup (t : CommissionFactor.table)
  (self : list positive) (p : num) :
  (forall i, is_Some (t !! i) -> i ∈ self) ->
  num_finite p = true ->
  exists t',
    CommissionFactor.write t self (only_active false) = (t', ret true)
    /\ CommissionFactor.get_commission_factor t' p
       = ([(WARNING, NoFactorsConfigured)], Ok 0%float).
Proof.
  intros Hall Hfin.
  exists (CommissionFactor.store t self (only_active false)).
  split; [reflexivity |].
  destruct (round_finite p Hfin) as [r Hr].
  rewrite (get_commission_factor_rounded _ p r Hr).
  apply lookup_empty. intros i e Hi.
  destruct (store_lookup_Some _ _ _ _ _ Hi) as (r0 & Hr0 & He).
  rewrite store_lookup_in in Hi by (apply Hall; eauto).
  rewrite Hr0 in Hi. inversion Hi. reflexivity.
Qed.

Lemma deactivate_all_then_lookup_witness :
  exists t',
    CommissionFactor.write table_10_15_20_30
      [1; 2; 3; 4]%positive (only_active false) = (t', ret true)
    /\ CommissionFactor.get_commission_factor t' (Float 15)
       = ([(WARNING, NoFactorsConfigured)], Ok 0%float).
Proof.
  apply (deactivate_all_then_lookup table_10_15_20_30
           [1; 2; 3; 4]%positive (Float 15)).
  - intros i [r Hi]. unfold table_10_15_20_30 in Hi.
    repeat (apply lookup_insert_Some in Hi as [[<- _] | [_ Hi]];
            [set_solver |]).
    apply lookup_singleton_Some in Hi as [<- _]. set_solver.
  - reflexivity.
Defined.

(** X5: a successful [create], and a successful [write] that carries
    [markup_percentage] or does not carry [active = True], keep the
    percentages of the active rows pairwise distinct. *)
Theorem unique_active_preserved (t t' : CommissionFactor.table) :
  CommissionFactor.unique_active t ->
  (exists pct factor act l id,
     CommissionFactor.create t pct factor act = (t', (l, Ok id)))
  \/ (exists self v l b,
        CommissionFactor.write t self v = (t', (l, Ok b))
        /\ (is_Some (CommissionFactor.v_markup_percentage v)
            \/ CommissionFactor.v_active v <> Some true)) ->
  CommissionFactor.unique_active t'.
Proof.
  intros Hu [(pct & factor & act & l & id & Hc)
            | (self & v & l & b & Hw & Hv)].
  - eapply create_preserves_unique_active; eauto.
  - destruct (CommissionFactor.v_markup_percentage v) as [p |] eqn:Hp.
    + eapply write_markup_preserves_unique_active; eauto.
    + destruct Hv as [[? Hv] | Hv]; [discriminate Hv |].
      eapply write_other_preserves_unique_active; eauto.
Qed.

Lemma unique_active_preserved_witness :
  CommissionFactor.unique_active table_15_reused.
Proof.
  apply (unique_active_preserved
           {[1%positive := factor_entry 15 0.004 false]} table_15_reused).
  - apply unique_active_by_rows.
    apply (bool_decide_eq_true_1 _). vm_compute. reflexivity.
  - left. exists 15, 0.006%float, None, [], 2%positive.
    vm_compute. reflexivity.
Defined.

(** *** The outcome of the lookup on any table *)

Lemma exact_match_elem t r i e :
  (i, e) ∈ filter (fun f => CommissionFactor.markup_percentage f.2 = r)
                  (all_factors t)
  <-> Spec.active_entry t i e /\ CommissionFactor.markup_percentage e = r.
Proof.
  rewrite list_elem_of_filter, elem_of_all_factors. simpl. tauto.
Qed.

Lemma exact_match_two t r :
  (exists a b rest,
     filter (fun f => CommissionFactor.markup_percentage f.2 = r)
            (all_factors t) = a :: b :: rest)
  <-> duplicated_active t r.
Proof.
  set (l := filter _ _).
  assert (Hnd : NoDup l) by apply NoDup_filter, search_NoDup.
  split.
  - intros ([i e] & [j e'] & rest & E). rewrite E in Hnd.
    assert (Ha : (i, e) ∈ l) by (rewrite E; left).
    assert (Hb : (j, e') ∈ l) by (rewrite E; right; left).
    apply exact_match_elem in Ha as [Ha Hpa], Hb as [Hb Hpb].
    exists i, j, e, e'. split; [| tauto].
    intros ->. apply NoDup_cons in Hnd as [Hni _]. apply Hni.
    destruct Ha as [Ha _], Hb as [Hb _].
    assert (e = e') by congruence. subst e'. left.
  - intros (i & j & e & e' & Hne & Ha & Hb & Hpa & Hpb).
    assert (Hia : (i, e) ∈ l) by (apply exact_match_elem; tauto).
    assert (Hib : (j, e') ∈ l) by (apply exact_match_elem; tauto).
    destruct l as [| a [| b rest]]; [by apply elem_of_nil in Hia | | eauto].
    apply list_elem_of_singleton in Hia, Hib. congruence.
Qed.

Lemma all_factors_head t first rest :
  all_factors t = first :: rest ->
  Spec.active_entry t first.1 first.2
  /\ Spec.active_entry t (default first (last (all_factors t))).1
                         (default first (last (all_factors t))).2.
Proof.
  intros E. split.
  - apply elem_of_all_factors. rewrite <- surjective_pairing, E. left.
  - apply elem_of_all_factors. rewrite <- surjective_pairing.
    destruct (last (all_factors t)) as [z |] eqn:Hl; simpl.
    + apply last_Some in Hl as [l' ->]. apply elem_of_app. right. left.
    + rewrite E. left.
Qed.

(** X6: on any table and for every number [p], the lookup raises nothing
    but the [ValueError] of the singleton rule, and raises it exactly when
    two distinct active rows hold the rounded percentage.  Otherwise it
    returns [0.0] or the factor of an active row, with at most one log
    record, and with none exactly when an active row holds the rounded
    percentage. *)
Theorem get_commission_factor_outcome (t : CommissionFactor.table)
  (p : num) (r : Z) :
  round p = ret r ->
  (duplicated_active t r ->
   CommissionFactor.get_commission_factor t p = ([], Raise ValueError))
  /\ (~ duplicated_active t r ->
      exists l f,
        CommissionFactor.get_commission_factor t p = (l, Ok f)
        /\ (f = 0%float
            \/ exists i e, Spec.active_entry t i e
                 /\ CommissionFactor.commission_factor e = f)
        /\ (length l <= 1)%nat
        /\ (l = [] <-> exists i e, Spec.active_entry t i e
                         /\ CommissionFactor.markup_percentage e = r)).
Proof.
  intros Hr. rewrite (get_commission_factor_rounded t p r Hr).
  rewrite lookup_rounded_unfold.
  pose proof (exact_match_two t r) as Htwo.
  pose proof (exact_match_elem t r) as Hel.
  destruct (all_factors t) as [| first rest] eqn:E.
  { split.
    - intros Hd. apply Htwo in Hd as (a & b & rest & Hd). discriminate Hd.
    - intros _. eexists _, _. split; [reflexivity |].
      split; [by left |]. split; [simpl; lia |].
      split; [discriminate |].
      intros (i & e & He & Hp).
      assert (Hin : (i, e) ∈ @nil (positive * CommissionFactor.record))
        by (apply Hel; tauto).
      by apply elem_of_nil in Hin. }
  pose proof (all_factors_head t first rest E) as [Hfirst Hlast].
  rewrite E in Hlast.
  destruct (filter _ (first :: rest)) as [| a [| b more]] eqn:Hex.
  - split.
    { intros Hd. apply Htwo in Hd as (a & b & more & Hd). discriminate Hd. }
    intros _. cbv zeta.
    assert (Hnone : ~ exists i e, Spec.active_entry t i e
                      /\ CommissionFactor.markup_percentage e = r).
    { intros (i & e & He).
      assert (Hin : (i, e) ∈ @nil (positive * CommissionFactor.record))
        by (apply Hel; tauto).
      by apply elem_of_nil in Hin. }
    destruct (r <? _).
    { eexists _, _. split; [reflexivity |].
      split; [right; eauto |]. split; [simpl; lia |].
      split; [discriminate | intros H; destruct (Hnone H)]. }
    destruct (_ <? r).
    { eexists _, _. split; [reflexivity |].
      split; [right; eauto |]. split; [simpl; lia |].
      split; [discriminate | intros H; destruct (Hnone H)]. }
    eexists _, _. split; [reflexivity |].
    split; [by left |]. split; [simpl; lia |].
    split; [discriminate | intros H; destruct (Hnone H)].
  - split.
    { intros Hd. apply Htwo in Hd as (a' & b & more & Hd). discriminate Hd. }
    intros _. destruct a as [i e].
    assert (Hin : Spec.active_entry t i e
                  /\ CommissionFactor.markup_percentage e = r)
      by (apply Hel; left).
    eexists _, _. split; [reflexivity |].
    split; [right; exists i, e; tauto |]. split; [simpl; lia |].
    split; [intros _; eauto | reflexivity].
  - split; [reflexivity |].
    intros Hn. exfalso. apply Hn, Htwo. eauto.
Qed.

Lemma get_commission_factor_outcome_witness :
  CommissionFactor.get_commission_factor table_15_twice (Float 15.2)
  = ([], Raise ValueError).
Proof.
  apply (proj1 (get_commission_factor_outcome table_15_twice
                  (Float 15.2) 15 eq_refl)).
  exists 1%positive, 2%positive,
    (factor_entry 15 0.004 true), (factor_entry 15 0.006 true).
  repeat split; discriminate.
Defined.

Lemma round_cases (p : num) :
  (exists r, round p = ret r) \/ (exists e, round p = raise e).
Proof.
  destruct p as [z | x]; simpl; [eauto |].
  unfold round_float. destruct (Prim2SF x); eauto.
Qed.

Lemma lookup_rounded_Ok t r l f :
  lookup_rounded t r = (l, Ok f) ->
  f = 0%float
  \/ exists i e, Spec.active_entry t i e
        /\ CommissionFactor.commission_factor e = f.
Proof.
  rewrite lookup_rounded_unfold.
  pose proof (exact_match_elem t r) as Hel.
  destruct (all_factors t) as [| first rest] eqn:E.
  { intros H. inversion H. by left. }
  pose proof (all_factors_head t first rest E) as [Hfirst Hlast].
  rewrite E in Hlast.
  destruct (filter _ (first :: rest)) as [| [i e] [| b more]] eqn:Hex.
  - cbv zeta. destruct (r <? _).
    { intros H. inversion H. right. eauto. }
    destruct (_ <? r); intros H; inversion H; [right; eauto | by left].
  - intros H. inversion H. right. exists i, e. split; [| reflexivity].
    apply Hel. left.
  - discriminate.
Qed.

(** X7: when every stored factor passes the comparisons of
    [_check_commission_factor], every factor the lookup returns is
    neither below 0 nor above 1. *)
Theorem get_commission_factor_in_range (t : CommissionFactor.table)
  (p : num) (l : list log_record) (f : float) :
  factor_in_range t ->
  CommissionFactor.get_commission_factor t p = (l, Ok f) ->
  (f <? 0)%float = false /\ (1 <? f)%float = false.
Proof.
  intros Hrange Hget.
  destruct (round_cases p) as [[r Hr] | [e Hr]].
  2:{ rewrite get_commission_factor_round, Hr in Hget. discriminate Hget. }
  rewrite (get_commission_factor_rounded t p r Hr) in Hget.
  destruct (lookup_rounded_Ok t r l f Hget) as [-> | (i & e & [Hi _] & <-)].
  - split; reflexivity.
  - exact (Hrange i e Hi).
Qed.

Lemma get_commission_factor_in_range_witness :
  (0.015 <? 0)%float = false /\ (1 <? 0.015)%float = false.
Proof.
  apply (get_commission_factor_in_range table_10_15_20_30 (Float 42)
           [(INFO, AboveMaximum 42 30 0.015%float)] 0.015%float).
  - intros i r Hi. unfold table_10_15_20_30 in Hi.
    repeat (apply lookup_insert_Some in Hi as [[_ <-] | [_ Hi]];
            [split; reflexivity |]).
    apply lookup_singleton_Some in Hi as [_ <-]. split; reflexivity.
  - vm_compute. reflexivity.
Defined.

(** *** One percentage written to several rows *)

(** X22: a [write] that carries [markup_percentage] never succeeds on a
    set that holds two distinct rows which are active once the values are
    stored: the rows would share the percentage written.  It raises and
    leaves the table as it was. *)
Theorem write_percentage_to_two_active (t : CommissionFactor.table)
  (self : list positive) (v : CommissionFactor.vals) (p : Z)
  (i j : positive) (ri rj : CommissionFactor.record) :
  i ∈ self -> j ∈ self -> i <> j ->
  t !! i = Some ri -> t !! j = Some rj ->
  CommissionFactor.v_markup_percentage v = Some p ->
  CommissionFactor.active (CommissionFactor.apply_vals v ri) = true ->
  CommissionFactor.active (CommissionFactor.apply_vals v rj) = true ->
  exists l e, CommissionFactor.write t self v = (t, (l, Raise e)).
Proof.
  intros Hi Hj Hne Hri Hrj Hp Hai Haj. unfold CommissionFactor.write.
  destruct (CommissionFactor._validate_fields _ _ _) as [l [u | e]] eqn:Hv;
    [exfalso | eauto].
  destruct (_validate_fields_unique _ _ _ _ _ Hv) as [l' Hc].
  { unfold CommissionFactor.keys. rewrite Hp.
    rewrite bool_decide_eq_true_2 by eauto. reflexivity. }
  destruct (_check_unique_markup_percentage_Ok _ _ _ _ Hc i Hi)
    as (r & Hr & Hother).
  rewrite store_lookup_in, Hri in Hr by exact Hi.
  inversion Hr; subst r. clear Hr.
  apply Hne. symmetry.
  apply (Hother j (CommissionFactor.apply_vals v rj)).
  - rewrite store_lookup_in, Hrj by exact Hj. reflexivity.
  - exact Haj.
  - simpl. rewrite Hp. reflexivity.
Qed.

Lemma write_percentage_to_two_active_witness :
  exists l e,
    CommissionFactor.write table_10_15_20_30 [1; 2]%positive
      {| CommissionFactor.v_markup_percentage := Some 25;
         CommissionFactor.v_commission_factor := None;
         CommissionFactor.v_active := None |}
    = (table_10_15_20_30, (l, Raise e)).
Proof.
  apply (write_percentage_to_two_active table_10_15_20_30 [1; 2]%positive
           _ 25 1%positive 2%positive
           (factor_entry 10 0.002 true) (factor_entry 15 0.004 true));
    try reflexivity; try discriminate.
  - left.
  - right. left.
Defined.

(** ** Loops over a recordset *)

Lemma for_records_ext {A} (self : list A) (body body' : A -> M A) :
  (forall x, body x = body' x) ->
  for_records self body = for_records self body'.
Proof.
  intros H. induction self as [| x xs IH]; [reflexivity |].
  simpl. rewrite H, IH. reflexivity.
Qed.

Lemma for_records_cons_Ok {A} (body : A -> M A) x xs l s :
  for_records (x :: xs) body = (l, Ok s)
  <-> exists lx x' lxs xs',
        body x = (lx, Ok x') /\ for_records xs body = (lxs, Ok xs')
        /\ l = lx ++ lxs /\ s = x' :: xs'.
Proof.
  simpl. split.
  - intros H.
    apply bind_Ok_inv in H as (lx & x' & l2 & Hx & H & ->).
    apply bind_Ok_inv in H as (lxs & xs' & l3 & Hxs & H & ->).
    inversion H; subst. rewrite app_nil_r. eauto 10.
  - intros (lx & x' & lxs & xs' & Hx & Hxs & -> & ->).
    rewrite Hx, Hxs. simpl. rewrite app_nil_r. reflexivity.
Qed.

Lemma assigns_Ok {A V} (value : A -> M V) (set : V -> A -> A) x l x' :
  assigns value set x = (l, Ok x')
  <-> exists v, value x = (l, Ok v) /\ x' = set v x.
Proof.
  unfold assigns, mbind, M_bind. split.
  - intros H. apply bind_Ok_inv in H as (l1 & v & l2 & Hv & H & ->).
    inversion H; subst. rewrite app_nil_r. eauto.
  - intros (v & -> & ->). simpl. rewrite app_nil_r. reflexivity.
Qed.

(** A loop of assignments keeps every relation each assignment keeps. *)
Lemma for_records_assigns_Forall2 {A V} (value : A -> M V)
  (set : V -> A -> A) (R : A -> A -> Prop) self l s :
  (forall lx v x, value x = (lx, Ok v) -> R x (set v x)) ->
  for_records self (assigns value set) = (l, Ok s) ->
  Forall2 R self s.
Proof.
  intros HR. revert l s. induction self as [| x xs IH]; intros l s H.
  - inversion H. constructor.
  - apply for_records_cons_Ok in H
      as (lx & x' & lxs & xs' & Hx & Hxs & -> & ->).
    apply assigns_Ok in Hx as (v & Hv & ->).
    constructor; [eapply HR, Hv | eapply IH, Hxs].
Qed.

(** Run again on its own result, a loop of assignments whose value does
    not read the field it assigns returns that result, with the same
    log. *)
Lemma for_records_assigns_fixed {A V} (value : A -> M V)
  (set : V -> A -> A) self l s :
  (forall v x, value (set v x) = value x) ->
  (forall v x, set v (set v x) = set v x) ->
  for_records self (assigns value set) = (l, Ok s) ->
  for_records s (assigns value set) = (l, Ok s).
Proof.
  intros Hvalue Hset. revert l s.
  induction self as [| x xs IH]; intros l s H.
  - inversion H. reflexivity.
  - apply for_records_cons_Ok in H
      as (lx & x' & lxs & xs' & Hx & Hxs & -> & ->).
    apply assigns_Ok in Hx as (v & Hv & ->).
    apply for_records_cons_Ok. exists lx, (set v x), lxs, xs'.
    split; [| split; [eapply IH, Hxs | auto]].
    apply assigns_Ok. exists v. rewrite Hvalue, Hset. auto.
Qed.

(** A loop of assignments that leaves a recordset as it is still does so
    after a second loop has assigned a field the first does not read. *)
Lemma for_records_assigns_stable {A V W} (value : A -> M V)
  (set : V -> A -> A) (value' : A -> M W) (set' : W -> A -> A) s l s' l' :
  (forall w x, value (set' w x) = value x) ->
  (forall v w x, set v (set' w x) = set' w (set v x)) ->
  for_records s (assigns value set) = (l, Ok s) ->
  for_records s (assigns value' set') = (l', Ok s') ->
  for_records s' (assigns value set) = (l, Ok s').
Proof.
  intros Hvalue Hcomm. revert l s' l'.
  induction s as [| x xs IH]; intros l s' l' H H'.
  - inversion H'. exact H.
  - apply for_records_cons_Ok in H
      as (lx & x1 & lxs & xs1 & Hx & Hxs & -> & E).
    inversion E; subst x1 xs1. clear E.
    apply for_records_cons_Ok in H'
      as (ly & y & lys & ys & Hy & Hys & -> & ->).
    apply assigns_Ok in Hx as (v & Hv & Ev).
    apply assigns_Ok in Hy as (w & Hw & ->).
    apply for_records_cons_Ok. exists lx, (set' w x), lxs, ys.
    split; [| split; [eapply IH; eauto | auto]].
    apply assigns_Ok. exists v. rewrite Hvalue, Hcomm, <- Ev. auto.
Qed.

(** A loop whose body never logs and raises only exceptions of one kind
    does the same. *)
Lemma for_records_quiet {A} (body : A -> M A) (E : exn -> Prop) self :
  (forall x, logs (body x) = []
             /\ forall e, result (body x) = Raise e -> E e) ->
  logs (for_records self body) = []
  /\ forall e, result (for_records self body) = Raise e -> E e.
Proof.
  intros H. induction self as [| x xs [IHl IHe]].
  - split; [reflexivity | discriminate].
  - simpl. destruct (H x) as [Hl He].
    destruct (body x) as [lx [x' | ex]]; simpl in Hl, He; subst lx.
    + destruct (for_records xs body) as [lxs [xs' | exs]];
        simpl in IHl, IHe; subst lxs; simpl.
      * split; [reflexivity | discriminate].
      * split; [reflexivity | exact IHe].
    + simpl. split; [reflexivity |].
      intros e Heq. apply He. congruence.
Qed.

(** ** The compute methods as loops of assignments *)

Lemma _compute_markup_percentage_assigns (self : list SaleOrderLine.record) :
  SaleOrderLine._compute_markup_percentage self
  = for_records self
      (assigns markup_percentage_value SaleOrderLine.set_markup_percentage).
Proof.
  unfold SaleOrderLine._compute_markup_percentage.
  apply for_records_ext. intros line.
  unfold assigns, markup_percentage_value.
  destruct (truthy (SaleOrderLine.price_unit line)) eqn:Hp;
    [| reflexivity].
  destruct (truthy (read_float (SaleOrderLine.purchase_price line))) eqn:Hc;
    [| reflexivity].
  simpl andb. cbv iota. unfold mbind, M_bind.
  rewrite (truediv_truthy _ _ Hp), bind_ret_l.
  rewrite try_except_never.
  2:{ apply never_zero_division_bind; [apply never_zero_division_round |].
      intros r. apply never_zero_division_bind;
        [apply never_zero_division_float_of_int |].
      intros v. apply never_zero_division_ret. }
  rewrite bind_assoc. reflexivity.
Qed.

Lemma _compute_markup_amount_assigns (self : list SaleOrderLine.record) :
  SaleOrderLine._compute_markup_amount self
  = for_records self
      (assigns markup_amount_value SaleOrderLine.set_markup_amount).
Proof.
  apply for_records_ext. intros line.
  unfold assigns, markup_amount_value. destruct (_ && _); reflexivity.
Qed.

Lemma _compute_commission_factor_assigns factors
  (self : list SaleOrderLine.record) :
  SaleOrderLine._compute_commission_factor factors self
  = for_records self
      (assigns (commission_factor_value factors)
               SaleOrderLine.set_commission_factor).
Proof.
  apply for_records_ext. intros line.
  unfold assigns, commission_factor_value.
  destruct (truthy _); reflexivity.
Qed.

Lemma _compute_commission_amount_assigns (self : list SaleOrderLine.record) :
  SaleOrderLine._compute_commission_amount self
  = for_records self
      (assigns commission_amount_value SaleOrderLine.set_commission_amount).
Proof.
  apply for_records_ext. intros line.
  unfold assigns, commission_amount_value. destruct (_ && _); reflexivity.
Qed.

Lemma same_inputs_trans a b c :
  same_inputs a b -> same_inputs b c -> same_inputs a c.
Proof. unfold same_inputs. intuition congruence. Qed.

(** X8: when the recomputation of a recordset of lines returns, it has
    changed none of the fields it does not assign, and run again on its
    own result it returns that result with the same log: the four derived
    fields are a function of the other fields and of the factor table. *)
Theorem compute_line_idempotent (factors : CommissionFactor.table)
  (self s' : list SaleOrderLine.record) (l : list log_record) :
  SaleOrderLine.compute_line factors self = (l, Ok s') ->
  Forall2 same_inputs self s'
  /\ SaleOrderLine.compute_line factors s' = (l, Ok s').
Proof.
  unfold SaleOrderLine.compute_line, mbind, M_bind.
  rewrite !_compute_markup_percentage_assigns.
  intros H.
  apply bind_Ok_inv in H as (l1 & s1 & la & H1 & H & ->).
  apply bind_Ok_inv in H as (l2 & s2 & lb & H2 & H & ->).
  apply bind_Ok_inv in H as (l3 & s3 & l4 & H3 & H4 & ->).
  rewrite _compute_markup_amount_assigns in H2.
  rewrite _compute_commission_factor_assigns in H3.
  rewrite _compute_commission_amount_assigns in H4.
  split.
  - eapply Forall2_trans; [apply same_inputs_trans | |].
    { eapply (for_records_assigns_Forall2 _ _ same_inputs), H1.
      intros lx v x _. repeat split. }
    eapply Forall2_trans; [apply same_inputs_trans | |].
    { eapply (for_records_assigns_Forall2 _ _ same_inputs), H2.
      intros lx v x _. repeat split. }
    eapply Forall2_trans; [apply same_inputs_trans | |].
    { eapply (for_records_assigns_Forall2 _ _ same_inputs), H3.
      intros lx v x _. repeat split. }
    eapply (for_records_assigns_Forall2 _ _ same_inputs), H4.
    intros lx v x _. repeat split.
  - assert (F1 := for_records_assigns_fixed
                    markup_percentage_value
                    SaleOrderLine.set_markup_percentage _ _ _
                    ltac:(reflexivity) ltac:(reflexivity) H1).
    assert (F2 := for_records_assigns_fixed
                    markup_amount_value
                    SaleOrderLine.set_markup_amount _ _ _
                    ltac:(reflexivity) ltac:(reflexivity) H2).
    assert (F3 := for_records_assigns_fixed
                    (commission_factor_value factors)
                    SaleOrderLine.set_commission_factor _ _ _
                    ltac:(reflexivity) ltac:(reflexivity) H3).
    assert (F4 := for_records_assigns_fixed
                    commission_amount_value
                    SaleOrderLine.set_commission_amount _ _ _
                    ltac:(reflexivity) ltac:(reflexivity) H4).
    assert (S12 := for_records_assigns_stable
                     markup_percentage_value
                     SaleOrderLine.set_markup_percentage
                     markup_amount_value
                     SaleOrderLine.set_markup_amount _ _ _ _
                     ltac:(reflexivity) ltac:(reflexivity) F1 H2).
    assert (S13 := for_records_assigns_stable
                     markup_percentage_value
                     SaleOrderLine.set_markup_percentage
                     (commission_factor_value factors)
                     SaleOrderLine.set_commission_factor _ _ _ _
                     ltac:(reflexivity) ltac:(reflexivity) S12 H3).
    assert (S14 := for_records_assigns_stable
                     markup_percentage_value
                     SaleOrderLine.set_markup_percentage
                     commission_amount_value
                     SaleOrderLine.set_commission_amount _ _ _ _
                     ltac:(reflexivity) ltac:(reflexivity) S13 H4).
    assert (S23 := for_records_assigns_stable
                     markup_amount_value
                     SaleOrderLine.set_markup_amount
                     (commission_factor_value factors)
                     SaleOrderLine.set_commission_factor _ _ _ _
                     ltac:(reflexivity) ltac:(reflexivity) F2 H3).
    assert (S24 := for_records_assigns_stable
                     markup_amount_value
                     SaleOrderLine.set_markup_amount
                     commission_amount_value
                     SaleOrderLine.set_commission_amount _ _ _ _
                     ltac:(reflexivity) ltac:(reflexivity) S23 H4).
    assert (S34 := for_records_assigns_stable
                     (commission_factor_value factors)
                     SaleOrderLine.set_commission_factor
                     commission_amount_value
                     SaleOrderLine.set_commission_amount _ _ _ _
                     ltac:(reflexivity) ltac:(reflexivity) F3 H4).
    rewrite S14. simpl bind.
    rewrite _compute_markup_amount_assigns, S24. simpl bind.
    rewrite _compute_commission_factor_assigns, S34. simpl bind.
    rewrite _compute_commission_amount_assigns, F4. reflexivity.
Qed.

Lemma compute_line_idempotent_witness :
  Forall2 same_inputs
    [order_line 1 100 (Some 80%float) 2 200]
    [with_derived 20 20 0.010 2 (order_line 1 100 (Some 80%float) 2 200)]
  /\ SaleOrderLine.compute_line table_20
       [with_derived 20 20 0.010 2 (order_line 1 100 (Some 80%float) 2 200)]
     = ret [with_derived 20 20 0.010 2
              (order_line 1 100 (Some 80%float) 2 200)].
Proof.
  apply (compute_line_idempotent table_20
           [order_line 1 100 (Some 80%float) 2 200]).
  vm_compute. reflexivity.
Defined.

(** ** The order totals over whole recordsets *)

Lemma _compute_total_cost_amount_assigns (self : list SaleOrder.record) :
  SaleOrder._compute_total_cost_amount self
  = for_records self
      (assigns total_cost_amount_value SaleOrder.set_total_cost_amount).
Proof.
  apply for_records_ext. intros order.
  unfold assigns, total_cost_amount_value. cbv zeta. rewrite cost_loop.
  reflexivity.
Qed.

Lemma _compute_total_markup_amount_assigns (self : list SaleOrder.record) :
  SaleOrder._compute_total_markup_amount self
  = for_records self
      (assigns total_markup_amount_value SaleOrder.set_total_markup_amount).
Proof. reflexivity. Qed.

Lemma _compute_total_markup_percentage_assigns
  (self : list SaleOrder.record) :
  SaleOrder._compute_total_markup_percentage self
  = for_records self
      (assigns total_markup_percentage_value
               SaleOrder.set_total_markup_percentage).
Proof.
  unfold SaleOrder._compute_total_markup_percentage.
  apply for_records_ext. intros order.
  unfold assigns, total_markup_percentage_value.
  destruct (truthy (SaleOrder.amount_untaxed order)) eqn:Ha;
    [| reflexivity].
  destruct (truthy (SaleOrder.total_cost_amount order)) eqn:Hc;
    [| reflexivity].
  simpl andb. cbv iota. unfold mbind, M_bind.
  rewrite (truediv_truthy _ _ Ha), bind_ret_l.
  rewrite try_except_never.
  2:{ apply never_zero_division_bind; [apply never_zero_division_round |].
      intros r. apply never_zero_division_bind;
        [apply never_zero_division_float_of_int |].
      intros v. apply never_zero_division_ret. }
  rewrite bind_assoc. reflexivity.
Qed.

Lemma _compute_total_commission_factor_assigns
  (self : list SaleOrder.record) :
  SaleOrder._compute_total_commission_factor self
  = for_records self
      (assigns total_commission_factor_value
               SaleOrder.set_total_commission_factor).
Proof.
  unfold SaleOrder._compute_total_commission_factor.
  apply for_records_ext. intros order.
  unfold assigns, total_commission_factor_value.
  destruct (truthy (SaleOrder.amount_untaxed order)); [| reflexivity].
  simpl andb.
  destruct (bool_decide (SaleOrder.order_line order = [])) eqn:El.
  - apply bool_decide_eq_true in El. rewrite El. reflexivity.
  - simpl negb. cbv iota. rewrite weighted_loop.
    fold (Spec.fsum
            (map (fun l => (SaleOrderLine.price_subtotal l
                            * SaleOrderLine.commission_factor l)%float)
                 (List.filter Spec.qualifying (SaleOrder.order_line order)))).
    fold (Spec.fsum
            (map SaleOrderLine.price_subtotal
                 (List.filter Spec.qualifying (SaleOrder.order_line order)))).
    fold (Spec.weighted_numerator (SaleOrder.order_line order)).
    fold (Spec.weighted_denominator (SaleOrder.order_line order)).
    cbv beta iota.
    destruct (0 <? Spec.weighted_denominator (SaleOrder.order_line order))%float
      eqn:Hd; [| reflexivity].
    unfold mbind, M_bind. rewrite truediv_truthy, !bind_ret_l.
    + reflexivity.
    + unfold truthy. rewrite (ltb_zero_not_zero _ Hd). reflexivity.
Qed.

Lemma _compute_total_commission_amount_assigns
  (self : list SaleOrder.record) :
  SaleOrder._compute_total_commission_amount self
  = for_records self
      (assigns total_commission_amount_value
               SaleOrder.set_total_commission_amount).
Proof.
  apply for_records_ext. intros order.
  unfold assigns, total_commission_amount_value.
  destruct (_ && _); reflexivity.
Qed.

Lemma same_order_inputs_trans a b c :
  same_order_inputs a b -> same_order_inputs b c -> same_order_inputs a c.
Proof. unfold same_order_inputs. intuition congruence. Qed.

(** X9: when the recomputation of the totals of a recordset of orders
    returns, it has changed neither the id, nor the untaxed amount, nor
    the lines of any order, and run again on its own result it returns
    that result with the same log. *)
Theorem compute_order_totals_idempotent (self s' : list SaleOrder.record)
  (l : list log_record) :
  SaleOrder.compute_order_totals self = (l, Ok s') ->
  Forall2 same_order_inputs self s'
  /\ SaleOrder.compute_order_totals s' = (l, Ok s').
Proof.
  unfold SaleOrder.compute_order_totals, mbind, M_bind.
  rewrite !_compute_total_cost_amount_assigns.
  intros H.
  apply bind_Ok_inv in H as (l1 & s1 & la & H1 & H & ->).
  apply bind_Ok_inv in H as (l2 & s2 & lb & H2 & H & ->).
  apply bind_Ok_inv in H as (l3 & s3 & lc & H3 & H & ->).
  apply bind_Ok_inv in H as (l4 & s4 & l5 & H4 & H5 & ->).
  rewrite _compute_total_markup_amount_assigns in H2.
  rewrite _compute_total_markup_percentage_assigns in H3.
  rewrite _compute_total_commission_factor_assigns in H4.
  rewrite _compute_total_commission_amount_assigns in H5.
  split.
  - eapply Forall2_trans; [apply same_order_inputs_trans | |].
    { eapply (for_records_assigns_Forall2 _ _ same_order_inputs), H1.
      intros lx v x _. repeat split. }
    eapply Forall2_trans; [apply same_order_inputs_trans | |].
    { eapply (for_records_assigns_Forall2 _ _ same_order_inputs), H2.
      intros lx v x _. repeat split. }
    eapply Forall2_trans; [apply same_order_inputs_trans | |].
    { eapply (for_records_assigns_Forall2 _ _ same_order_inputs), H3.
      intros lx v x _. repeat split. }
    eapply Forall2_trans; [apply same_order_inputs_trans | |].
    { eapply (for_records_assigns_Forall2 _ _ same_order_inputs), H4.
      intros lx v x _. repeat split. }
    eapply (for_records_assigns_Forall2 _ _ same_order_inputs), H5.
    intros lx v x _. repeat split.
  - assert (F1 := for_records_assigns_fixed
                    total_cost_amount_value
                    SaleOrder.set_total_cost_amount _ _ _
                    ltac:(reflexivity) ltac:(reflexivity) H1).
    assert (F2 := for_records_assigns_fixed
                    total_markup_amount_value
                    SaleOrder.set_total_markup_amount _ _ _
                    ltac:(reflexivity) ltac:(reflexivity) H2).
    assert (F3 := for_records_assigns_fixed
                    total_markup_percentage_value
                    SaleOrder.set_total_markup_percentage _ _ _
                    ltac:(reflexivity) ltac:(reflexivity) H3).
    assert (F4 := for_records_assigns_fixed
                    total_commission_factor_value
                    SaleOrder.set_total_commission_factor _ _ _
                    ltac:(reflexivity) ltac:(reflexivity) H4).
    assert (F5 := for_records_assigns_fixed
                    total_commission_amount_value
                    SaleOrder.set_total_commission_amount _ _ _
                    ltac:(reflexivity) ltac:(reflexivity) H5).
    assert (S12 := for_records_assigns_stable
                     total_cost_amount_value
                     SaleOrder.set_total_cost_amount
                     total_markup_amount_value
                     SaleOrder.set_total_markup_amount _ _ _ _
                     ltac:(reflexivity) ltac:(reflexivity) F1 H2).
    assert (S13 := for_records_assigns_stable
                     total_cost_amount_value
                     SaleOrder.set_total_cost_amount
                     total_markup_percentage_value
                     SaleOrder.set_total_markup_percentage _ _ _ _
                     ltac:(reflexivity) ltac:(reflexivity) S12 H3).
    assert (S14 := for_records_assigns_stable
                     total_cost_amount_value
                     SaleOrder.set_total_cost_amount
                     total_commission_factor_value
                     SaleOrder.set_total_commission_factor _ _ _ _
                     ltac:(reflexivity) ltac:(reflexivity) S13 H4).
    assert (S15 := for_records_assigns_stable
                     total_cost_amount_value
                     SaleOrder.set_total_cost_amount
                     total_commission_amount_value
                     SaleOrder.set_total_commission_amount _ _ _ _
                     ltac:(reflexivity) ltac:(reflexivity) S14 H5).
    assert (S23 := for_records_assigns_stable
                     total_markup_amount_value
                     SaleOrder.set_total_markup_amount
                     total_markup_percentage_value
                     SaleOrder.set_total_markup_percentage _ _ _ _
                     ltac:(reflexivity) ltac:(reflexivity) F2 H3).
    assert (S24 := for_records_assigns_stable
                     total_markup_amount_value
                     SaleOrder.set_total_markup_amount
                     total_commission_factor_value
                     SaleOrder.set_total_commission_factor _ _ _ _
                     ltac:(reflexivity) ltac:(reflexivity) S23 H4).
    assert (S25 := for_records_assigns_stable
                     total_markup_amount_value
                     SaleOrder.set_total_markup_amount
                     total_commission_amount_value
                     SaleOrder.set_total_commission_amount _ _ _ _
                     ltac:(reflexivity) ltac:(reflexivity) S24 H5).
    assert (S34 := for_records_assigns_stable
                     total_markup_percentage_value
                     SaleOrder.set_total_markup_percentage
                     total_commission_factor_value
                     SaleOrder.set_total_commission_factor _ _ _ _
                     ltac:(reflexivity) ltac:(reflexivity) F3 H4).
    assert (S35 := for_records_assigns_stable
                     total_markup_percentage_value
                     SaleOrder.set_total_markup_percentage
                     total_commission_amount_value
                     SaleOrder.set_total_commission_amount _ _ _ _
                     ltac:(reflexivity) ltac:(reflexivity) S34 H5).
    assert (S45 := for_records_assigns_stable
                     total_commission_factor_value
                     SaleOrder.set_total_commission_factor
                     total_commission_amount_value
                     SaleOrder.set_total_commission_amount _ _ _ _
                     ltac:(reflexivity) ltac:(reflexivity) F4 H5).
    rewrite S15. simpl bind.
    rewrite _compute_total_markup_amount_assigns, S25. simpl bind.
    rewrite _compute_total_markup_percentage_assigns, S35. simpl bind.
    rewrite _compute_total_commission_factor_assigns, S45. simpl bind.
    rewrite _compute_total_commission_amount_assigns, F5. reflexivity.
Qed.

Lemma compute_order_totals_idempotent_witness :
  Forall2 same_order_inputs [order_500] [order_500_computed]
  /\ SaleOrder.compute_order_totals [order_500_computed]
     = ret [order_500_computed].
Proof.
  apply (compute_order_totals_idempotent [order_500]).
  vm_compute. reflexivity.
Defined.

(** ** The handlers of [ZeroDivisionError] *)

Lemma quiet_ret {A} (a : A) : quiet (ret a).
Proof. split; [reflexivity | discriminate]. Qed.

Lemma quiet_bind {A B} (m : M A) (k : A -> M B) :
  quiet m -> (forall a, quiet (k a)) -> quiet (bind m k).
Proof.
  intros [Hl He] Hk. destruct m as [l [a | e]]; simpl in Hl, He; subst l.
  - destruct (Hk a) as [Hl' He']. simpl.
    destruct (k a) as [l' r]. simpl in *. subst l'. split; [reflexivity |].
    exact He'.
  - split; [reflexivity |]. simpl. intros e' H. apply He. congruence.
Qed.

Lemma quiet_round (x : num) : quiet (round x).
Proof.
  destruct x as [n | f]; [apply quiet_ret |].
  simpl. unfold round_float.
  destruct (Prim2SF f); split; try reflexivity; try discriminate;
    intros e H; inversion H; [right | left]; reflexivity.
Qed.

Lemma quiet_float_of_int (n : Z) : quiet (float_of_int n).
Proof.
  unfold float_of_int.
  destruct (binary_normalize _ _ _ _ _); split; try reflexivity;
    try discriminate.
  intros e H. inversion H. right. reflexivity.
Qed.

Lemma quiet_for_records {A} (body : A -> M A) self :
  (forall x, quiet (body x)) -> quiet (for_records self body).
Proof. intros H. apply for_records_quiet. exact H. Qed.

Lemma quiet_assigns {A V} (value : A -> M V) (set : V -> A -> A) x :
  quiet (value x) -> quiet (assigns value set x).
Proof.
  intros H. unfold assigns, mbind, M_bind.
  apply quiet_bind; [exact H | intros v; apply quiet_ret].
Qed.

Lemma quiet_rounded (x : float) :
  quiet (bind (round (Float x)) float_of_int).
Proof.
  apply quiet_bind; [apply quiet_round | apply quiet_float_of_int].
Qed.

(** X10: the two handlers of [ZeroDivisionError] never run.  On every
    recordset of lines [_compute_markup_percentage] logs nothing and
    raises nothing but the [ValueError] or [OverflowError] of [round]; on
    every recordset of orders so does the whole recomputation of the
    totals, whose division in [_compute_total_commission_factor] is
    guarded as well. *)
Theorem zero_division_handlers_unreachable
  (lines : list SaleOrderLine.record) (orders : list SaleOrder.record) :
  quiet (SaleOrderLine._compute_markup_percentage lines)
  /\ quiet (SaleOrder.compute_order_totals orders).
Proof.
  split.
  - rewrite _compute_markup_percentage_assigns.
    apply quiet_for_records. intros line. apply quiet_assigns.
    unfold markup_percentage_value.
    destruct (_ && _); [apply quiet_rounded | apply quiet_ret].
  - unfold SaleOrder.compute_order_totals, mbind, M_bind.
    apply quiet_bind.
    { rewrite _compute_total_cost_amount_assigns.
      apply quiet_for_records. intros o. apply quiet_assigns, quiet_ret. }
    intros s1. apply quiet_bind.
    { rewrite _compute_total_markup_amount_assigns.
      apply quiet_for_records. intros o. apply quiet_assigns, quiet_ret. }
    intros s2. apply quiet_bind.
    { rewrite _compute_total_markup_percentage_assigns.
      apply quiet_for_records. intros o. apply quiet_assigns.
      unfold total_markup_percentage_value.
      destruct (_ && _); [apply quiet_rounded | apply quiet_ret]. }
    intros s3. apply quiet_bind.
    { rewrite _compute_total_commission_factor_assigns.
      apply quiet_for_records. intros o. apply quiet_assigns, quiet_ret. }
    intros s4.
    rewrite _compute_total_commission_amount_assigns.
    apply quiet_for_records. intros o. apply quiet_assigns, quiet_ret.
Qed.

(** ** The payment status *)

Lemma toggle_twice (line : SaleOrderLine.record) :
  let toggled v :=
    match v with
    | SaleOrderLine.pending => SaleOrderLine.paid
    | SaleOrderLine.paid => SaleOrderLine.pending
    end in
  set_commission_payment_status
    (toggled (toggled (SaleOrderLine.commission_payment_status line)))
    (set_commission_payment_status
       (toggled (SaleOrderLine.commission_payment_status line)) line)
  = line.
Proof.
  destruct line as [? ? ? ? ? ? ? ? ? ? ? []]; reflexivity.
Qed.

(** X11: [toggle_commission_payment_status] always returns; it changes
    the status of every line of the recordset and no other field, and a
    second call gives the recordset back. *)
Theorem toggle_commission_payment_status_involution
  (self : list SaleOrderLine.record) :
  exists s',
    toggle_commission_payment_status self = ret s'
    /\ toggle_commission_payment_status s' = ret self
    /\ Forall2
         (fun x x' =>
            SaleOrderLine.commission_payment_status x'
            <> SaleOrderLine.commission_payment_status x
            /\ x' = set_commission_payment_status
                      (SaleOrderLine.commission_payment_status x') x)
         self s'.
Proof.
  induction self as [| x xs (s' & H1 & H2 & H3)].
  - exists []. repeat split. constructor.
  - eexists (_ :: s'). unfold toggle_commission_payment_status in *.
    split; [| split].
    + simpl. rewrite H1. reflexivity.
    + simpl. rewrite H2. simpl. rewrite (toggle_twice x). reflexivity.
    + constructor; [| exact H3].
      split; [| reflexivity].
      simpl. destruct (SaleOrderLine.commission_payment_status x);
        discriminate.
Qed.

(** ** The guard on the vendor field, on whole recordsets *)

(** X12: a write that carries [product_vendor_id] to a recordset of
    existing lines is all or nothing: when every line of the set is
    editable it is the host [write]; when one line of the set is not, and
    in particular when one line has no order, it raises the validation
    error and leaves the database as it was, the editable lines of the
    set included. *)
Theorem write_recordset_all_or_nothing {value : Type}
  (super_write : SaleOrderLine.database -> list positive ->
                 gmap string value -> SaleOrderLine.database * M bool)
  (db : SaleOrderLine.database) (self : list positive)
  (vals : gmap string value) :
  (forall i, i ∈ self -> is_Some (SaleOrderLine.line_table db !! i)) ->
  is_Some (vals !! "product_vendor_id"%string) ->
  ((forall i line, i ∈ self ->
      SaleOrderLine.line_table db !! i = Some line ->
      SaleOrderLine.can_edit_product_vendor db line = true) ->
   SaleOrderLine.write super_write db self vals = super_write db self vals)
  /\ (forall i line, i ∈ self ->
        SaleOrderLine.line_table db !! i = Some line ->
        SaleOrderLine.can_edit_product_vendor db line = false
        \/ SaleOrderLine.order_id line = None ->
        SaleOrderLine.write super_write db self vals
        = (db, raise (ValidationError VendorLocked))).
Proof.
  intros Hex Hv. split.
  - intros Hall. apply write_passes.
    rewrite (bool_decide_eq_true_2 _ Hv).
    apply vendor_guard_passes. intros i Hi.
    destruct (Hex i Hi) as [line Hl]. eauto.
  - intros i line Hi Hl Hlocked.
    rewrite write_unfold, (bool_decide_eq_true_2 _ Hv).
    rewrite (vendor_guard_blocks db self i line Hex Hi Hl); [reflexivity |].
    destruct Hlocked as [H | H]; [exact H |].
    unfold SaleOrderLine.can_edit_product_vendor,
      SaleOrderLine.order_id_state.
    rewrite H. reflexivity.
Qed.

Lemma write_recordset_all_or_nothing_witness :
  SaleOrderLine.write host_write example_database [1; 2]%positive vendor_vals
  = (example_database, raise (ValidationError VendorLocked)).
Proof.
  refine (proj2 (write_recordset_all_or_nothing host_write example_database
            [1; 2]%positive vendor_vals _ _) 2%positive (line_of_order 2 8)
            _ _ _).
  - intros i Hi.
    apply elem_of_cons in Hi as [-> | Hi]; [by eexists |].
    apply list_elem_of_singleton in Hi as ->. by eexists.
  - exists (Some 6%positive). reflexivity.
  - right. left.
  - reflexivity.
  - left. reflexivity.
Defined.

(** ** A table without active factor *)

Lemma commission_factor_value_no_active factors line l v :
  no_active_factor factors ->
  commission_factor_value factors line = (l, Ok v) -> v = 0%float.
Proof.
  intros Hno. unfold commission_factor_value.
  destruct (truthy _); [| intros H; inversion H; reflexivity].
  destruct (round_cases (Float (SaleOrderLine.markup_percentage line)))
    as [[r Hr] | [e Hr]].
  - rewrite (get_commission_factor_rounded _ _ r Hr).
    rewrite (lookup_empty factors r Hno). intros H. inversion H. reflexivity.
  - rewrite get_commission_factor_round, Hr. discriminate.
Qed.

Lemma no_qualifying_line (lines : list SaleOrderLine.record) :
  Forall (fun line => SaleOrderLine.commission_factor line = 0%float) lines ->
  List.filter Spec.qualifying lines = [].
Proof.
  induction 1 as [| line lines Hz _ IH]; [reflexivity |].
  simpl. unfold Spec.qualifying at 1. rewrite Hz, IH.
  rewrite andb_false_r. reflexivity.
Qed.

(** X13: while no row of the factor table is active, every line the
    recomputation returns has factor and commission [0.0], and an order
    made of such lines gets the total factor [0.0] and the total
    commission [0.0], whatever its amounts. *)
Theorem no_active_factor_no_commission (factors : CommissionFactor.table)
  (self s' : list SaleOrderLine.record) (l : list log_record) :
  no_active_factor factors ->
  SaleOrderLine.compute_line factors self = (l, Ok s') ->
  Forall (fun line =>
            SaleOrderLine.commission_factor line = 0%float
            /\ SaleOrderLine.commission_amount line = 0%float) s'
  /\ forall order, SaleOrder.order_line order = s' ->
       compute_commission_totals [order]
       = ret [SaleOrder.set_total_commission_amount 0
                (SaleOrder.set_total_commission_factor 0 order)].
Proof.
  intros Hno H.
  assert (Hlines : Forall (fun line =>
            SaleOrderLine.commission_factor line = 0%float
            /\ SaleOrderLine.commission_amount line = 0%float) s').
  { unfold SaleOrderLine.compute_line, mbind, M_bind in H.
    apply bind_Ok_inv in H as (l1 & s1 & la & _ & H & ->).
    apply bind_Ok_inv in H as (l2 & s2 & lb & _ & H & ->).
    apply bind_Ok_inv in H as (l3 & s3 & l4 & H3 & H4 & ->).
    rewrite _compute_commission_factor_assigns in H3.
    rewrite _compute_commission_amount_assigns in H4.
    assert (F3 : Forall2 (fun _ x' =>
              SaleOrderLine.commission_factor x' = 0%float) s2 s3).
    { eapply for_records_assigns_Forall2, H3.
      intros lx v x Hv. simpl.
      eapply commission_factor_value_no_active; eauto. }
    assert (F4 : Forall2 (fun x x' =>
              SaleOrderLine.commission_factor x = 0%float ->
              SaleOrderLine.commission_factor x' = 0%float
              /\ SaleOrderLine.commission_amount x' = 0%float) s3 s').
    { eapply for_records_assigns_Forall2, H4.
      intros lx v x Hv Hz. simpl. split; [exact Hz |].
      unfold commission_amount_value in Hv. rewrite Hz in Hv.
      rewrite andb_false_r in Hv. inversion Hv. reflexivity. }
    clear H3 H4. revert s' F4.
    induction F3 as [| x2 x3 s2 s3 Hz _ IH]; intros s' F4;
      inversion F4; subst; constructor; auto. }
  split; [exact Hlines |].
  intros order Ho. unfold compute_commission_totals, mbind, M_bind.
  rewrite _compute_total_commission_factor_singleton.
  assert (Hq : List.filter Spec.qualifying (SaleOrder.order_line order) = []).
  { rewrite Ho. apply no_qualifying_line.
    eapply Forall_impl; [exact Hlines | intros x [Hx _]; exact Hx]. }
  unfold Spec.weighted_denominator. rewrite Hq. simpl map.
  rewrite andb_false_r, bind_ret_l.
  rewrite _compute_total_commission_amount_singleton.
  simpl SaleOrder.total_commission_factor.
  rewrite andb_false_r. reflexivity.
Qed.

Lemma no_active_factor_no_commission_witness :
  Forall (fun line =>
            SaleOrderLine.commission_factor line = 0%float
            /\ SaleOrderLine.commission_amount line = 0%float)
    [with_derived 20 20 0 0 (order_line 1 100 (Some 80%float) 2 200)]
  /\ forall order,
       SaleOrder.order_line order
       = [with_derived 20 20 0 0 (order_line 1 100 (Some 80%float) 2 200)] ->
       compute_commission_totals [order]
       = ret [SaleOrder.set_total_commission_amount 0
                (SaleOrder.set_total_commission_factor 0 order)].
Proof.
  apply (no_active_factor_no_commission table_deactivated
           [order_line 1 100 (Some 80%float) 2 200] _
           [(WARNING, NoFactorsConfigured)]).
  - intros i e Hi. unfold table_deactivated in Hi.
    apply lookup_singleton_Some in Hi as [_ <-]. reflexivity.
  - vm_compute. reflexivity.
Defined.

(** * The VM configurator *)

(** ** [suggest_flavor] *)

Lemma find_flavor_Some (v r : Z) name tv tr :
  List.find (fun '(name, tv, tr) => (v =? tv) && (r =? tr))
            VmConfiguratorWizard.FLAVOR_TABLE = Some (name, tv, tr) ->
  (name, tv, tr) ∈ VmConfiguratorWizard.FLAVOR_TABLE /\ v = tv /\ r = tr.
Proof.
  intros H. apply find_some in H as [Hin Heq].
  apply andb_true_iff in Heq as [Hv Hr].
  apply Z.eqb_eq in Hv, Hr. split; [| auto].
  by apply list_elem_of_In.
Qed.

Lemma find_flavor_None (v r : Z) :
  List.find (fun '(name, tv, tr) => (v =? tv) && (r =? tr))
            VmConfiguratorWizard.FLAVOR_TABLE = None ->
  forall name, (name, v, r) ∉ VmConfiguratorWizard.FLAVOR_TABLE.
Proof.
  intros H name Hin. apply list_elem_of_In in Hin.
  pose proof (find_none _ _ H _ Hin) as Hf. simpl in Hf.
  rewrite !Z.eqb_refl in Hf. discriminate Hf.
Qed.

(** The sizes of the table are pairwise distinct, and so are its names. *)
Lemma FLAVOR_TABLE_functional name name' tv tr tv' tr' :
  (name, tv, tr) ∈ VmConfiguratorWizard.FLAVOR_TABLE ->
  (name', tv', tr') ∈ VmConfiguratorWizard.FLAVOR_TABLE ->
  (name = name' <-> tv = tv' /\ tr = tr').
Proof.
  unfold VmConfiguratorWizard.FLAVOR_TABLE.
  rewrite !elem_of_cons, !elem_of_nil. intros H H'.
  repeat (destruct H as [H | H]; [inversion H; subst; clear H |]);
    [.. | destruct H];
    repeat (destruct H' as [H' | H']; [inversion H'; subst; clear H' |]);
    try (destruct H');
    (split; [intros E; first [discriminate E | split; reflexivity]
            | intros [E1 E2]; first [discriminate E1 | discriminate E2
                                     | reflexivity]]).
Qed.

(** X14: [suggest_flavor] returns the empty string exactly when one of
    the two sizes is zero; every other result is [ncs.g-] followed by a
    non-empty name. *)
Theorem suggest_flavor_empty_iff (vcpus ram_gb : Z) :
  (VmConfiguratorWizard.suggest_flavor vcpus ram_gb = ""%string
   <-> vcpus = 0 \/ ram_gb = 0)
  /\ (vcpus <> 0 -> ram_gb <> 0 ->
      exists name,
        name <> ""%string
        /\ VmConfiguratorWizard.suggest_flavor vcpus ram_gb
           = "ncs.g-" +:+ name).
Proof.
  assert (Hname : vcpus <> 0 -> ram_gb <> 0 ->
    exists name,
      name <> ""%string
      /\ VmConfiguratorWizard.suggest_flavor vcpus ram_gb
         = "ncs.g-" +:+ name).
  { intros Hv Hr. unfold VmConfiguratorWizard.suggest_flavor.
    destruct (Z.eqb_spec vcpus 0); [contradiction |].
    destruct (Z.eqb_spec ram_gb 0); [contradiction |].
    simpl orb. cbv iota.
    destruct (List.find _ _) as [[[name tv] tr] |] eqn:Hf.
    - exists name. split; [| reflexivity].
      apply find_flavor_Some in Hf as (Hin & _ & _).
      intros ->. revert Hin. unfold VmConfiguratorWizard.FLAVOR_TABLE.
      rewrite !elem_of_cons, !elem_of_nil.
      intros H. repeat (destruct H as [H | H]; [discriminate H |]).
      destruct H.
    - destruct (_ && _); [by exists "small.cus"%string |].
      destruct (_ && _); [by exists "medium.cus"%string |].
      destruct (_ && _); [by exists "large.cus"%string |].
      by exists "xlarge"%string. }
  split; [| exact Hname].
  split.
  - intros Hempty.
    destruct (decide (vcpus = 0)) as [| Hv]; [by left |].
    destruct (decide (ram_gb = 0)) as [| Hr]; [by right |].
    destruct (Hname Hv Hr) as (name & _ & E).
    rewrite E in Hempty. discriminate Hempty.
  - unfold VmConfiguratorWizard.suggest_flavor.
    intros [-> | ->]; [reflexivity |].
    rewrite orb_true_r. reflexivity.
Qed.

(** X15: a numbered name of the table is returned for the size the table
    gives it and for no other. *)
Theorem suggest_flavor_table (name : string) (tv tr vcpus ram_gb : Z) :
  (name, tv, tr) ∈ VmConfiguratorWizard.FLAVOR_TABLE ->
  VmConfiguratorWizard.suggest_flavor vcpus ram_gb = "ncs.g-" +:+ name
  <-> vcpus = tv /\ ram_gb = tr.
Proof.
  intros Hin. split.
  - unfold VmConfiguratorWizard.suggest_flavor.
    destruct (_ || _); [discriminate |].
    destruct (List.find _ _) as [[[name' tv'] tr'] |] eqn:Hf.
    + apply find_flavor_Some in Hf as (Hin' & -> & ->).
      intros E. assert (name' = name) by (simpl in E; injection E; auto).
      by apply (FLAVOR_TABLE_functional name' name tv' tr' tv tr).
    + revert Hin. unfold VmConfiguratorWizard.FLAVOR_TABLE.
      rewrite !elem_of_cons, !elem_of_nil. intros H E. exfalso.
      repeat (destruct H as [H | H];
              [inversion H; subst; clear H;
               repeat (destruct (_ && _); try discriminate E) |]).
      destruct H.
  - intros [-> ->]. revert Hin. unfold VmConfiguratorWizard.FLAVOR_TABLE.
    rewrite !elem_of_cons, !elem_of_nil. intros H.
    repeat (destruct H as [H | H]; [inversion H; reflexivity |]).
    destruct H.
Qed.

Lemma suggest_flavor_table_witness :
  VmConfiguratorWizard.suggest_flavor 4 12 = "ncs.g-medium4"%string
  <-> 4 = 4 /\ 12 = 12.
Proof.
  apply (suggest_flavor_table "medium4" 4 12 4 12).
  unfold VmConfiguratorWizard.FLAVOR_TABLE. set_solver.
Defined.

(** X16: beyond 8 vCPUs or 24 GB every non-zero size is [ncs.g-xlarge];
    the function does not reject negative sizes: two negative sizes are
    [ncs.g-small.cus]. *)
Theorem suggest_flavor_out_of_table (vcpus ram_gb : Z) :
  (vcpus <> 0 -> ram_gb <> 0 -> 8 < vcpus \/ 24 < ram_gb ->
   VmConfiguratorWizard.suggest_flavor vcpus ram_gb = "ncs.g-xlarge"%string)
  /\ (vcpus < 0 -> ram_gb < 0 ->
      VmConfiguratorWizard.suggest_flavor vcpus ram_gb
      = "ncs.g-small.cus"%string).
Proof.
  assert (Hnone : vcpus < 1 \/ 8 < vcpus \/ ram_gb < 2 \/ 24 < ram_gb ->
    List.find (fun '(name, tv, tr) => (vcpus =? tv) && (ram_gb =? tr))
              VmConfiguratorWizard.FLAVOR_TABLE = None).
  { intros Hout.
    destruct (List.find _ _) as [[[name tv] tr] |] eqn:Hf; [| reflexivity].
    apply find_flavor_Some in Hf as (Hin & -> & ->). exfalso.
    revert Hin. unfold VmConfiguratorWizard.FLAVOR_TABLE.
    rewrite !elem_of_cons, !elem_of_nil. intros H.
    repeat (destruct H as [H | H]; [inversion H; subst; lia |]).
    destruct H. }
  unfold VmConfiguratorWizard.suggest_flavor. split.
  - intros Hv Hr Hbig.
    destruct (Z.eqb_spec vcpus 0); [contradiction |].
    destruct (Z.eqb_spec ram_gb 0); [contradiction |].
    simpl orb. cbv iota. rewrite Hnone by lia.
    destruct (Z.leb_spec vcpus 2), (Z.leb_spec ram_gb 4),
      (Z.leb_spec vcpus 6), (Z.leb_spec ram_gb 8),
      (Z.leb_spec vcpus 8), (Z.leb_spec ram_gb 24);
      simpl; try reflexivity; lia.
  - intros Hv Hr.
    destruct (Z.eqb_spec vcpus 0); [lia |].
    destruct (Z.eqb_spec ram_gb 0); [lia |].
    simpl orb. cbv iota. rewrite Hnone by lia.
    destruct (Z.leb_spec vcpus 2), (Z.leb_spec ram_gb 4);
      simpl; try reflexivity; lia.
Qed.

Lemma suggest_flavor_out_of_table_witness :
  VmConfiguratorWizard.suggest_flavor 16 8 = "ncs.g-xlarge"%string.
Proof.
  apply (proj1 (suggest_flavor_out_of_table 16 8)); lia.
Defined.

(** ** [_next_sequence], [_unique_section_title] and [action_apply] *)





Lemma prefix_app (s t : string) : String.prefix s (s +:+ t) = true.
Proof.
  induction s as [| a s IH]; simpl; [by destruct t |].
  destruct (Ascii.ascii_dec a a); [exact IH | contradiction].
Qed.

Lemma append_inj_r (s t t' : string) : s +:+ t = s +:+ t' -> t = t'.
Proof.
  induction s as [| a s IH]; [auto |].
  change (String a (s +:+ t) = String a (s +:+ t') -> t = t').
  intros H. injection H. exact IH.
Qed.

Lemma append_nil_r (s : string) : s +:+ "" = s.
Proof.
  induction s as [| a s IH]; [reflexivity |].
  change (String a (s +:+ "") = String a s). by rewrite IH.
Qed.

Lemma append_assoc (s t u : string) : s +:+ (t +:+ u) = (s +:+ t) +:+ u.
Proof.
  induction s as [| a s IH]; [reflexivity |].
  change (String a (s +:+ (t +:+ u)) = String a ((s +:+ t) +:+ u)).
  by rewrite IH.
Qed.

Lemma section_counted (base suffix : string) order seq label :
  VmConfiguratorWizard.is_section_of ("[VM] " +:+ base)
    (VmConfiguratorWizard.created_line label
       (VmConfiguratorWizard._add_section order (base +:+ suffix) seq))
  = true.
Proof.
  unfold VmConfiguratorWizard.is_section_of,
    VmConfiguratorWizard.created_line, VmConfiguratorWizard._add_section.
  cbv beta iota delta [VmConfiguratorWizard.display_type
    VmConfiguratorWizard.name VmConfiguratorWizard.v_display_type
    VmConfiguratorWizard.v_name default].
  rewrite bool_decide_eq_true_2 by reflexivity.
  rewrite append_assoc. apply prefix_app.
Qed.

(** X18: the section a call adds is counted by the next call for the
    same flavor: on the order with that section added,
    [_unique_section_title] returns the base title with the suffix of the
    number of sections counted before plus two, which differs from the
    title of the first call. *)
Theorem unique_section_title_next
  (lines : list VmConfiguratorWizard.order_line) (base label : string)
  (order : positive) (seq : Z) :
  let title := VmConfiguratorWizard._unique_section_title lines base in
  let counted :=
    List.filter (VmConfiguratorWizard.is_section_of ("[VM] " +:+ base))
                lines in
  let lines' :=
    lines ++ [VmConfiguratorWizard.created_line label
                (VmConfiguratorWizard._add_section order title seq)] in
  VmConfiguratorWizard._unique_section_title lines' base
  = base +:+ "-" +:+ pretty (Z.of_nat (length counted) + 2)
  /\ VmConfiguratorWizard._unique_section_title lines' base <> title.
Proof.
  cbv zeta.
  set (counted := List.filter _ lines).
  assert (Htitle : exists suffix,
            VmConfiguratorWizard._unique_section_title lines base
            = base +:+ suffix
            /\ (suffix = ""%string
                \/ suffix = "-" +:+ pretty (Z.of_nat (length counted) + 1))).
  { unfold VmConfiguratorWizard._unique_section_title. cbv zeta.
    fold counted. destruct counted as [| x xs].
    - exists ""%string. split; [| by left].
      by rewrite append_nil_r.
    - eexists. split; [reflexivity | by right]. }
  destruct Htitle as (suffix & Ht & Hsuffix).
  assert (Hnext :
    VmConfiguratorWizard._unique_section_title
      (lines ++ [VmConfiguratorWizard.created_line label
                   (VmConfiguratorWizard._add_section order
                      (VmConfiguratorWizard._unique_section_title lines base)
                      seq)]) base
    = base +:+ "-" +:+ pretty (Z.of_nat (length counted) + 2)).
  { unfold VmConfiguratorWizard._unique_section_title at 1. cbv zeta.
    rewrite List.filter_app. fold counted.
    match goal with
    | |- context [List.filter ?f [?x]] =>
        change (List.filter f [x]) with (if f x then [x] else [])
    end.
    rewrite Ht, section_counted. cbv iota.
    destruct (counted ++ _) as [| x xs] eqn:E.
    { apply app_eq_nil in E as [_ E]. discriminate E. }
    rewrite <- E, length_app. simpl length.
    do 3 f_equal. clearbody counted. lia. }
  split; [exact Hnext |].
  rewrite Hnext, Ht. intros E. apply append_inj_r in E.
  destruct Hsuffix as [-> | ->]; [inversion E |].
  apply append_inj_r in E. apply (inj pretty) in E.
  clearbody counted. lia.
Qed.

(** ** [_compute_default_flavor] *)

Lemma pretty_N_go_ne_dot (x : N) (s s' : string) :
  s <> "." +:+ s' -> pretty_N_go x s <> "." +:+ s'.
Proof.
  revert s. induction (N.lt_wf_0 x) as [x _ IH]; intros s Hs.
  assert (x = 0 \/ 0 < x)%N as [-> | Hx] by lia.
  - by rewrite pretty_N_go_0.
  - rewrite pretty_N_go_step by done. apply IH.
    { by apply N.div_lt. }
    unfold pretty_N_char. by repeat case_match.
Qed.

(** The decimal form of a positive number does not start with a dot. *)
Lemma pretty_pos_ne_dot (n : Z) (s : string) :
  0 < n -> pretty n <> "." +:+ s.
Proof.
  destruct n as [| p | p]; try lia. intros _.
  unfold pretty, pretty_Z, pretty, pretty_positive, pretty, pretty_N.
  case_decide; [discriminate |].
  by apply pretty_N_go_ne_dot.
Qed.

Lemma tables_agree : SaleOrderVm.table = VmConfiguratorWizard.FLAVOR_TABLE.
Proof. reflexivity. Qed.

(** X19: [_compute_default_flavor] always returns and never replaces a
    flavor that is set: an order with a non-empty flavor, or with a size
    of zero, is left as it is.  On an order without flavor and with
    non-zero sizes it stores a name that is the one [suggest_flavor]
    gives exactly when the size is in the table: outside the table the
    two functions name the same size differently. *)
Theorem default_flavor_agrees_iff (o : SaleOrderVm.record) :
  (SaleOrderVm.truthy_str (SaleOrderVm.flavor o) = true
   \/ SaleOrderVm.vcpus o = 0 \/ SaleOrderVm.ram_gb o = 0 ->
   SaleOrderVm._compute_default_flavor [o] = ret [o])
  /\ (SaleOrderVm.truthy_str (SaleOrderVm.flavor o) = false ->
      SaleOrderVm.vcpus o <> 0 -> SaleOrderVm.ram_gb o <> 0 ->
      exists name,
        SaleOrderVm._compute_default_flavor [o]
        = ret [SaleOrderVm.set_flavor (Some name) o]
        /\ (name = VmConfiguratorWizard.suggest_flavor
                     (SaleOrderVm.vcpus o) (SaleOrderVm.ram_gb o)
            <-> exists n, (n, SaleOrderVm.vcpus o, SaleOrderVm.ram_gb o)
                          ∈ VmConfiguratorWizard.FLAVOR_TABLE)).
Proof.
  unfold SaleOrderVm._compute_default_flavor. split.
  - intros H. simpl.
    destruct (Z.eqb_spec (SaleOrderVm.vcpus o) 0) as [| Hv];
      [reflexivity |].
    destruct (Z.eqb_spec (SaleOrderVm.ram_gb o) 0) as [| Hr];
      [reflexivity |].
    destruct H as [-> | [H | H]]; [reflexivity | contradiction ..].
  - intros Hf Hv Hr. simpl. rewrite Hf.
    destruct (Z.eqb_spec (SaleOrderVm.vcpus o) 0); [contradiction |].
    destruct (Z.eqb_spec (SaleOrderVm.ram_gb o) 0); [contradiction |].
    simpl. eexists. split; [reflexivity |].
    unfold SaleOrderVm.tier_of, VmConfiguratorWizard.suggest_flavor.
    rewrite tables_agree.
    destruct (Z.eqb_spec (SaleOrderVm.vcpus o) 0); [contradiction |].
    destruct (Z.eqb_spec (SaleOrderVm.ram_gb o) 0); [contradiction |].
    simpl orb. cbv iota.
    set (v := SaleOrderVm.vcpus o) in *.
    set (r := SaleOrderVm.ram_gb o) in *.
    destruct (List.find _ _) as [[[name tv] tr] |] eqn:Hfind.
    + pose proof (find_flavor_Some _ _ _ _ _ Hfind) as (Hin & <- & <-).
      assert (Hne : name <> ""%string).
      { intros ->. revert Hin. unfold VmConfiguratorWizard.FLAVOR_TABLE.
        rewrite !elem_of_cons, !elem_of_nil.
        intros H. repeat (destruct H as [H | H]; [discriminate H |]).
        destruct H. }
      rewrite (bool_decide_eq_false_2 _ Hne).
      split; [eauto | reflexivity].
    + pose proof (find_flavor_None _ _ Hfind) as Hnone.
      rewrite (bool_decide_eq_true_2 _ eq_refl).
      split; [| intros [nm Hn]; destruct (Hnone nm Hn)].
      intros E. exfalso.
      assert (H1 : 0 < Z.max v 1) by lia.
      assert (H2 : 0 < Z.max (v / 2) 1) by lia.
      destruct ((v <=? 2) && (r <=? 4)).
      { repeat (injection E as E).
        exact (pretty_pos_ne_dot _ "cus" H1 E). }
      destruct ((v <=? 6) && (r <=? 8)).
      { repeat (injection E as E).
        exact (pretty_pos_ne_dot _ "cus" H2 E). }
      destruct ((v <=? 8) && (r <=? 24)).
      { repeat (injection E as E).
        exact (pretty_pos_ne_dot _ "cus" H2 E). }
      inversion E.
Qed.

Lemma default_flavor_agrees_iff_witness :
  SaleOrderVm._compute_default_flavor
    [ {| SaleOrderVm.flavor := Some "custom"%string;
         SaleOrderVm.vcpus := 2; SaleOrderVm.ram_gb := 4 |} ]
  = ret [ {| SaleOrderVm.flavor := Some "custom"%string;
             SaleOrderVm.vcpus := 2; SaleOrderVm.ram_gb := 4 |} ].
Proof.
  apply (proj1 (default_flavor_agrees_iff
                  {| SaleOrderVm.flavor := Some "custom"%string;
                     SaleOrderVm.vcpus := 2; SaleOrderVm.ram_gb := 4 |})).
  left. reflexivity.
Defined.

(** ** [load_menus] *)

Lemma node_ind' (P : IrUiMenu.node -> Prop) :
  (forall id other, P (IrUiMenu.Node id None other)) ->
  (forall id ks other,
     Forall P ks -> P (IrUiMenu.Node id (Some ks) other)) ->
  forall n, P n.
Proof.
  intros Hleaf Hnode. fix IH 1. intros [id [ks |] other]; [| apply Hleaf].
  apply Hnode. revert ks. fix IHks 1.
  intros [| k ks]; constructor; [apply IH | apply IHks].
Qed.

Lemma prune_unfold ids id kids other :
  IrUiMenu.prune ids (IrUiMenu.Node id kids other)
  = if IrUiMenu.hidden ids id then None
    else Some (IrUiMenu.Node id
                 (Some (match kids with
                        | Some ks => omap (IrUiMenu.prune ids) ks
                        | None => []
                        end)) other).
Proof. reflexivity. Qed.

Lemma ids_of_unfold id kids other :
  IrUiMenu.ids_of (IrUiMenu.Node id kids other)
  = option_list id
    ++ match kids with
       | Some ks => concat (IrUiMenu.ids_of <$> ks)
       | None => []
       end.
Proof. reflexivity. Qed.

(** What a forest keeps after pruning: no hidden id, and no id it did
    not have. *)
Lemma omap_prune_ids ids (ks : list IrUiMenu.node) :
  Forall (fun n => forall n', IrUiMenu.prune ids n = Some n' ->
            forall i, i ∈ IrUiMenu.ids_of n' ->
              (i ∉ ids) /\ i ∈ IrUiMenu.ids_of n) ks ->
  forall i, i ∈ concat (IrUiMenu.ids_of <$> omap (IrUiMenu.prune ids) ks) ->
    (i ∉ ids) /\ i ∈ concat (IrUiMenu.ids_of <$> ks).
Proof.
  induction 1 as [| k ks Hk _ IH]; intros i Hi; simpl in Hi.
  - by apply elem_of_nil in Hi.
  - rewrite fmap_cons. simpl concat. rewrite elem_of_app.
    destruct (IrUiMenu.prune ids k) as [k' |] eqn:E.
    + rewrite fmap_cons in Hi. simpl in Hi.
      apply elem_of_app in Hi as [Hi | Hi].
      * destruct (Hk k' eq_refl i Hi). auto.
      * destruct (IH i Hi). auto.
    + destruct (IH i Hi). auto.
Qed.

Lemma prune_ids ids (n n' : IrUiMenu.node) :
  IrUiMenu.prune ids n = Some n' ->
  forall i, i ∈ IrUiMenu.ids_of n' -> (i ∉ ids) /\ i ∈ IrUiMenu.ids_of n.
Proof.
  assert (Hown : forall id i, IrUiMenu.hidden ids id = false ->
            i ∈ option_list id -> i ∉ ids).
  { intros [j |] i Hh Hi; [| by apply elem_of_nil in Hi].
    apply list_elem_of_singleton in Hi as ->.
    simpl in Hh. by apply bool_decide_eq_false in Hh. }
  revert n'. induction n as [id other | id ks other IH] using node_ind';
    intros n'; rewrite prune_unfold;
    (destruct (IrUiMenu.hidden ids id) eqn:Hh; [discriminate |]);
    intros H i; inversion H; subst n'; clear H;
    rewrite !ids_of_unfold, !elem_of_app; intros [Hi | Hi].
  - split; [eauto | by left].
  - by apply elem_of_nil in Hi.
  - split; [eauto | by left].
  - destruct (omap_prune_ids ids ks IH i Hi). auto.
Qed.

Lemma Forall_prune_ids ids (ks : list IrUiMenu.node) :
  forall i, i ∈ concat (IrUiMenu.ids_of <$> omap (IrUiMenu.prune ids) ks) ->
    (i ∉ ids) /\ i ∈ concat (IrUiMenu.ids_of <$> ks).
Proof.
  apply omap_prune_ids. apply Forall_forall. intros n _ n'.
  apply prune_ids.
Qed.

(** X20: when the active company is not the configured one, no id of
    the module is left anywhere below the root of the menus the client
    receives, and every id left was there before; when it is the
    configured one, the menus are returned as they are. *)
Theorem load_menus_hides (company_name target_name : string)
  (module_menu_ids : gset Z) (base : IrUiMenu.menus) :
  (company_name = target_name ->
   IrUiMenu.load_menus company_name target_name module_menu_ids base = base)
  /\ (company_name <> target_name ->
      forall i,
        i ∈ IrUiMenu.ids_below
              (IrUiMenu.load_menus company_name target_name
                 module_menu_ids base) ->
        (i ∉ module_menu_ids) /\ i ∈ IrUiMenu.ids_below base).
Proof.
  unfold IrUiMenu.load_menus. split.
  - intros H. by rewrite (bool_decide_eq_true_2 _ H).
  - intros H. rewrite (bool_decide_eq_false_2 _ H).
    destruct base as [id [ks |] other | nodes | other]; simpl.
    + apply Forall_prune_ids.
    + intros i Hi. by apply elem_of_nil in Hi.
    + apply Forall_prune_ids.
    + intros i Hi. by apply elem_of_nil in Hi.
Qed.

Lemma load_menus_hides_witness :
  (2 ∉ ({[7]} : gset Z))
  /\ 2 ∈ IrUiMenu.ids_below
           (IrUiMenu.MenusList
              [IrUiMenu.Node (Some 1)
                 (Some [IrUiMenu.Node (Some 7) None "vm";
                        IrUiMenu.Node (Some 2) None "sales"]) "root"]).
Proof.
  apply (proj2 (load_menus_hides "Acme" "Nubi2go" {[7]}
                  (IrUiMenu.MenusList
                     [IrUiMenu.Node (Some 1)
                        (Some [IrUiMenu.Node (Some 7) None "vm";
                               IrUiMenu.Node (Some 2) None "sales"])
                        "root"]))).
  - discriminate.
  - vm_compute. right. left.
Defined.

Lemma omap_prune_fixed ids (ks : list IrUiMenu.node) :
  Forall (fun n => forall n', IrUiMenu.prune ids n = Some n' ->
            IrUiMenu.prune ids n' = Some n') ks ->
  omap (IrUiMenu.prune ids) (omap (IrUiMenu.prune ids) ks)
  = omap (IrUiMenu.prune ids) ks.
Proof.
  induction 1 as [| k ks Hk _ IH]; [reflexivity |].
  simpl. destruct (IrUiMenu.prune ids k) as [k' |] eqn:E; [| exact IH].
  simpl. rewrite (Hk k' eq_refl). f_equal. exact IH.
Qed.

Lemma prune_fixed ids (n n' : IrUiMenu.node) :
  IrUiMenu.prune ids n = Some n' -> IrUiMenu.prune ids n' = Some n'.
Proof.
  revert n'. induction n as [id other | id ks other IH] using node_ind';
    intros n'; rewrite prune_unfold;
    (destruct (IrUiMenu.hidden ids id) eqn:Hh; [discriminate |]);
    intros H; inversion H; subst n'; clear H;
    rewrite prune_unfold, Hh; [reflexivity |].
  do 3 f_equal. apply omap_prune_fixed, IH.
Qed.

Lemma Forall_prune_fixed ids (ks : list IrUiMenu.node) :
  omap (IrUiMenu.prune ids) (omap (IrUiMenu.prune ids) ks)
  = omap (IrUiMenu.prune ids) ks.
Proof.
  apply omap_prune_fixed, Forall_forall. intros n _ n'. apply prune_fixed.
Qed.

Lemma omap_prune_clean ids (ks : list IrUiMenu.node) :
  Forall (fun n => IrUiMenu.children_set n = true ->
            (forall i, i ∈ IrUiMenu.ids_of n -> i ∉ ids) ->
            IrUiMenu.prune ids n = Some n) ks ->
  forallb IrUiMenu.children_set ks = true ->
  (forall i, i ∈ concat (IrUiMenu.ids_of <$> ks) -> i ∉ ids) ->
  omap (IrUiMenu.prune ids) ks = ks.
Proof.
  induction 1 as [| k ks Hk _ IH]; [reflexivity |].
  simpl forallb. rewrite andb_true_iff. intros [Hc Hcs] Hclean.
  rewrite fmap_cons in Hclean. simpl concat in Hclean.
  simpl. rewrite Hk.
  - f_equal. apply IH; [exact Hcs |].
    intros i Hi. apply Hclean, elem_of_app. by right.
  - exact Hc.
  - intros i Hi. apply Hclean, elem_of_app. by left.
Qed.

Lemma prune_clean ids (n : IrUiMenu.node) :
  IrUiMenu.children_set n = true ->
  (forall i, i ∈ IrUiMenu.ids_of n -> i ∉ ids) ->
  IrUiMenu.prune ids n = Some n.
Proof.
  induction n as [id other | id ks other IH] using node_ind';
    [discriminate |].
  intros Hc Hclean. rewrite prune_unfold.
  assert (Hh : IrUiMenu.hidden ids id = false).
  { destruct id as [j |]; [| reflexivity]. simpl.
    apply bool_decide_eq_false. apply Hclean.
    rewrite ids_of_unfold. apply elem_of_app. left. simpl. left. }
  rewrite Hh.
  do 3 f_equal. apply omap_prune_clean; [exact IH | exact Hc |].
  intros i Hi. apply Hclean. rewrite ids_of_unfold. apply elem_of_app.
  by right.
Qed.

Lemma Forall_prune_clean ids (ks : list IrUiMenu.node) :
  forallb IrUiMenu.children_set ks = true ->
  (forall i, i ∈ concat (IrUiMenu.ids_of <$> ks) -> i ∉ ids) ->
  omap (IrUiMenu.prune ids) ks = ks.
Proof.
  apply omap_prune_clean, Forall_forall. intros n _. apply prune_clean.
Qed.

(** X21: filtering is idempotent, and it removes nothing but the menus
    of the module: menus that hold no id of the module, and whose nodes
    all have their list of children, are returned as they are. *)
Theorem load_menus_idempotent (company_name target_name : string)
  (module_menu_ids : gset Z) (base : IrUiMenu.menus) :
  let filtered :=
    IrUiMenu.load_menus company_name target_name module_menu_ids base in
  IrUiMenu.load_menus company_name target_name module_menu_ids filtered
  = filtered
  /\ ((forall i, i ∈ IrUiMenu.ids_below base -> i ∉ module_menu_ids) ->
      match base with
      | IrUiMenu.MenusDict _ kids _ =>
          forallb IrUiMenu.children_set (default [] kids) = true
      | IrUiMenu.MenusList nodes =>
          forallb IrUiMenu.children_set nodes = true
      | IrUiMenu.MenusOther _ => True
      end ->
      filtered = base).
Proof.
  cbv zeta. unfold IrUiMenu.load_menus.
  destruct (bool_decide (company_name = target_name)); [auto |].
  destruct base as [id [ks |] other | nodes | other]; cbv beta iota;
    (split; [| try reflexivity]); try reflexivity.
  - by rewrite Forall_prune_fixed.
  - intros Hclean Hc. by rewrite Forall_prune_clean.
  - by rewrite Forall_prune_fixed.
  - intros Hclean Hc. by rewrite Forall_prune_clean.
Qed.

(** ** [_compute_vm_size_label] *)

Lemma prefix_of_label (base : string) (v : Z) :
  String.prefix (base +:+ "-") (base +:+ "-" +:+ pretty v) = true.
Proof. rewrite append_assoc. apply prefix_app. Qed.

Lemma prefix_small_label (v : Z) :
  String.prefix "small-" ("small" +:+ "-" +:+ pretty v) = true.
Proof. exact (prefix_of_label "small" v). Qed.

Lemma prefix_medium_label (v : Z) :
  String.prefix "medium-" ("medium" +:+ "-" +:+ pretty v) = true.
Proof. exact (prefix_of_label "medium" v). Qed.

Lemma prefix_large_label (v : Z) :
  String.prefix "large-" ("large" +:+ "-" +:+ pretty v) = true.
Proof. exact (prefix_of_label "large" v). Qed.

(** X23: [_compute_vm_size_label] always returns, and the label it
    stores determines the number of vCPUs.  For non-zero sizes its tier
    is consistent with the flavor [suggest_flavor] names, but not the
    same: the label is [small-...] exactly when the flavor is a small
    one, a [medium-...] label implies a medium flavor, and a large or
    xlarge flavor implies a [large-...] label. *)
Theorem vm_size_label_tier (s : Subscription.record) :
  exists label,
    Subscription._compute_vm_size_label [s]
    = ret [Subscription.set_vm_size_label label s]
    /\ (forall s' label',
          Subscription._compute_vm_size_label [s']
          = ret [Subscription.set_vm_size_label label' s'] ->
          label = label' ->
          Subscription.vcpus s = Subscription.vcpus s')
    /\ (Subscription.vcpus s <> 0 -> Subscription.ram_gb s <> 0 ->
        let flavor :=
          VmConfiguratorWizard.suggest_flavor
            (Subscription.vcpus s) (Subscription.ram_gb s) in
        (String.prefix "small-" label = true
         <-> String.prefix "ncs.g-small" flavor = true)
        /\ (String.prefix "medium-" label = true ->
            String.prefix "ncs.g-medium" flavor = true)
        /\ (String.prefix "ncs.g-large" flavor = true
            \/ flavor = "ncs.g-xlarge"%string ->
            String.prefix "large-" label = true)).
Proof.
  eexists. split; [reflexivity |]. split.
  - intros s' label' H E. injection H as H. subst label'.
    set (v := Subscription.vcpus s) in *.
    set (v' := Subscription.vcpus s') in *.
    destruct ((v <=? 2) && (Subscription.ram_gb s <=? 4));
      [| destruct ((v <=? 4) && (Subscription.ram_gb s <=? 8))];
      (destruct ((v' <=? 2) && (Subscription.ram_gb s' <=? 4));
       [| destruct ((v' <=? 4) && (Subscription.ram_gb s' <=? 8))]);
      try (exfalso; inversion E; fail);
      apply append_inj_r in E; apply append_inj_r in E;
      exact (inj pretty _ _ E).
  - intros Hv Hr. cbv zeta.
    set (v := Subscription.vcpus s) in *.
    set (r := Subscription.ram_gb s) in *.
    unfold VmConfiguratorWizard.suggest_flavor.
    destruct (Z.eqb_spec v 0); [contradiction |].
    destruct (Z.eqb_spec r 0); [contradiction |].
    simpl orb. cbv iota.
    destruct (List.find _ _) as [[[name tv] tr] |] eqn:Hfind.
    + apply find_flavor_Some in Hfind as (Hin & -> & ->).
      revert Hin. unfold VmConfiguratorWizard.FLAVOR_TABLE.
      rewrite !elem_of_cons, !elem_of_nil. intros H.
      repeat (destruct H as [H | H];
              [inversion H; subst; clear H; lazy;
               try (intuition congruence) |]).
      destruct H.
    + clear Hfind.
      destruct (Z.leb_spec v 2), (Z.leb_spec r 4), (Z.leb_spec v 4),
        (Z.leb_spec r 8), (Z.leb_spec v 6), (Z.leb_spec v 8),
        (Z.leb_spec r 24);
        try lia; simpl andb; cbv iota;
        rewrite ?prefix_small_label, ?prefix_medium_label,
          ?prefix_large_label;
        lazy; intuition congruence.
Qed.
